(** * chat_Roast_Ai: parser, aggregates and roast engine

    A shallow embedding of [whatsapp_parser.py], [analysis_utils.py] and
    [roast_engine.py], followed by the properties established about them.

    Conventions of the embedding:
    - a Python [str] is a list of Unicode code points ([list N]);
    - a Python [int] is a [Z];
    - a [dict] / [Counter] is an association list kept in insertion order,
      which is the iteration order of a Python dictionary;
    - a raised exception is the [Raise] case of [result]. *)

From Stdlib Require Import String Ascii DecimalString.
From Stdlib Require Import ZArith NArith List Bool Lia.
From Stdlib Require Import Sorting.Permutation Sorting.Sorted.
Import ListNotations.
Open Scope Z_scope.

(* ================================================================= *)
(** ** Text *)

Definition str := list N.

(** [cps "abc"] is the code-point list of an ASCII literal. *)
Definition cps (s : string) : str :=
  map N_of_ascii (list_ascii_of_string s).

(** Decidable equality on dictionary keys. *)
Class EqDec (K : Type) := eq_dec : forall x y : K, {x = y} + {x <> y}.

#[export] Instance EqDec_N : EqDec N := N.eq_dec.
#[export] Instance EqDec_Z : EqDec Z := Z.eq_dec.
#[export] Instance EqDec_list {K} `{EqDec K} : EqDec (list K) :=
  list_eq_dec eq_dec.

Definition str_eqb (a b : str) : bool := if eq_dec a b then true else false.

(** Membership test [x in collection]. *)
Definition mem {K} `{EqDec K} (x : K) (l : list K) : bool :=
  existsb (fun y => if eq_dec y x then true else false) l.

(** [str(n)] for an integer. *)
Definition str_of_Z (z : Z) : str := cps (NilZero.string_of_int (Z.to_int z)).

(** [sep.join(parts)]. *)
Fixpoint join (sep : str) (parts : list str) : str :=
  match parts with
  | [] => []
  | [p] => p
  | p :: rest => p ++ sep ++ join sep rest
  end.

(** The tables of the Unicode database that the program consults through
    [str.lower], [\w] and [\d]; only their values outside ASCII are used. *)
Class UnicodeDB := {
  uni_lower : str -> str;          (* str.lower on a string that is not pure ASCII *)
  uni_isalnum : N -> bool;         (* str.isalnum of a code point >= 128 *)
  uni_decimal : N -> option Z      (* decimal digit value of a code point >= 128 *)
}.

(** The database restricted to ASCII: no letters or digits outside it. *)
Definition ascii_only : UnicodeDB :=
  {| uni_lower := fun s => s;
     uni_isalnum := fun _ => false;
     uni_decimal := fun _ => None |}.

Definition in_range (lo hi c : N) : bool := ((lo <=? c) && (c <=? hi))%N.

Definition is_ascii (c : N) : bool := (c <? 128)%N.

Definition ascii_lower (c : N) : N :=
  if in_range 65 90 c then (c + 32)%N else c.

(** [s.lower()]. *)
Definition lower `{UnicodeDB} (s : str) : str :=
  if forallb is_ascii s then map ascii_lower s else uni_lower s.

(** [\w]: alphanumeric or underscore. *)
Definition is_word_char `{UnicodeDB} (c : N) : bool :=
  if is_ascii c
  then in_range 48 57 c || in_range 65 90 c || in_range 97 122 c || (c =? 95)%N
  else uni_isalnum c.

(** [\s] and the characters removed by [str.strip()]. *)
Definition is_space (c : N) : bool :=
  in_range 9 13 c || in_range 28 32 c || (c =? 133)%N || (c =? 160)%N
  || (c =? 5760)%N || in_range 8192 8202 c || (c =? 8232)%N || (c =? 8233)%N
  || (c =? 8239)%N || (c =? 8287)%N || (c =? 12288)%N.

(** Value of a decimal digit ([\d], [int()]); the digits and the blanks of
    Unicode are disjoint. *)
Definition digit_val `{UnicodeDB} (c : N) : option Z :=
  if in_range 48 57 c then Some (Z.of_N c - 48)
  else if is_ascii c || is_space c then None
  else uni_decimal c.

Definition is_digit `{UnicodeDB} (c : N) : bool :=
  match digit_val c with Some _ => true | None => false end.

(** [pattern.findall(text)] for a pattern [[class]+]: the maximal runs of
    characters of the class, left to right. *)
Fixpoint runs_aux (p : N -> bool) (cur : str) (s : str) : list str :=
  match s with
  | [] => match cur with [] => [] | _ => [rev cur] end
  | c :: s' =>
      if p c then runs_aux p (c :: cur) s'
      else match cur with
           | [] => runs_aux p [] s'
           | _ => rev cur :: runs_aux p [] s'
           end
  end.

Definition runs (p : N -> bool) (s : str) : list str := runs_aux p [] s.

(* ================================================================= *)
(** ** whatsapp_parser.py: the Message record *)

Record datetime := mkdatetime {
  year : Z; month : Z; day : Z; hour : Z; minute : Z
}.

Record Message := mkMessage {
  timestamp : datetime;
  sender : str;
  text : str
}.

(** Calendar arithmetic of the [datetime] module. *)
Definition is_leap (y : Z) : bool :=
  (y mod 4 =? 0) && (negb (y mod 100 =? 0) || (y mod 400 =? 0)).

Definition days_in_month (y m : Z) : Z :=
  if m =? 2 then (if is_leap y then 29 else 28)
  else if (m =? 4) || (m =? 6) || (m =? 9) || (m =? 11) then 30
  else 31.

Definition days_before_year (y : Z) : Z :=
  let y1 := y - 1 in y1 * 365 + y1 / 4 - y1 / 100 + y1 / 400.

Fixpoint days_before_month_aux (y : Z) (m : nat) : Z :=
  match m with
  | O => 0
  | S m' => days_before_month_aux y m' + days_in_month y (Z.of_nat m)
  end.

Definition days_before_month (y m : Z) : Z :=
  days_before_month_aux y (Z.to_nat (m - 1)).

Definition toordinal (d : datetime) : Z :=
  days_before_year (year d) + days_before_month (year d) (month d) + day d.

(** [d.weekday()]: Monday is 0. *)
Definition weekday (d : datetime) : Z := (toordinal d + 6) mod 7.

(** The invariant that the [datetime] constructor enforces. *)
Definition valid_datetime (d : datetime) : Prop :=
  1 <= year d <= 9999 /\ 1 <= month d <= 12 /\
  1 <= day d <= days_in_month (year d) (month d) /\
  0 <= hour d <= 23 /\ 0 <= minute d <= 59.

(* ================================================================= *)
(** ** analysis_utils.py *)

Section Counter.
Context {K : Type} `{EqDec K}.

(** A [collections.Counter]: keys in first-insertion order. *)
Definition Counter := list (K * Z).

(** [counter[k] += 1]. *)
Fixpoint incr (k : K) (c : Counter) : Counter :=
  match c with
  | [] => [(k, 1)]
  | (k', v) :: c' =>
      if eq_dec k' k then (k', v + 1) :: c' else (k', v) :: incr k c'
  end.

(** [for k in ks: counter[k] += 1]. *)
Definition count_into (c : Counter) (ks : list K) : Counter :=
  fold_left (fun c k => incr k c) ks c.

(** [sorted(items, key=itemgetter(1), reverse=True)]: a stable sort, so
    entries of equal count keep their relative order. *)
Fixpoint insert_desc (x : K * Z) (l : list (K * Z)) : list (K * Z) :=
  match l with
  | [] => [x]
  | y :: l' => if snd x <? snd y then y :: insert_desc x l' else x :: l
  end.

Definition sorted_desc (l : list (K * Z)) : list (K * Z) :=
  fold_right insert_desc [] l.

(** [Counter.most_common(n)], that is [heapq.nlargest(n, items, key=count)]:
    empty when [n <= 0], else the first [n] entries of the stable
    descending sort. *)
Definition most_common (n : Z) (c : Counter) : list (K * Z) :=
  if n <=? 0 then [] else firstn (Z.to_nat n) (sorted_desc c).

(** [max(items, key=lambda x: x[1])]: the first entry, in iteration order,
    whose count is maximal. *)
Fixpoint max_by_count (best : K * Z) (l : list (K * Z)) : K * Z :=
  match l with
  | [] => best
  | x :: l' => max_by_count (if snd best <? snd x then x else best) l'
  end.
End Counter.

Definition STOPWORDS : list str :=
  map cps
    ["the"; "and"; "is"; "in"; "to"; "a"; "of"; "for"; "on"; "with"; "you";
     "i"; "it"; "that"; "at"; "this"; "my"; "your"; "me"; "we"; "our"; "us";
     "be"; "as"; "are"; "was"; "were"; "so"; "but"; "if"; "too"; "not"; "or";
     "just"; "it's"; "its"; "can't"; "dont"; "can't"; "can't"; "do"; "did";
     "didn't"; "don't"; "u"; "im"; "lol"; "haha"; "hahaha"]%string.

Definition message_counts (messages : list Message) : Counter :=
  fold_left (fun counts msg => incr (sender msg) counts) messages [].

(** [strftime("%Y-%m-%d")]. *)
Definition zero_pad (width : nat) (s : str) : str :=
  repeat 48%N (width - length s) ++ s.

Definition strftime_Ymd (d : datetime) : str :=
  zero_pad 4 (str_of_Z (year d)) ++ cps "-" ++
  zero_pad 2 (str_of_Z (month d)) ++ cps "-" ++
  zero_pad 2 (str_of_Z (day d)).

Definition messages_by_day (messages : list Message) : Counter :=
  fold_left (fun counts msg => incr (strftime_Ymd (timestamp msg)) counts)
            messages [].

Definition messages_by_hour (messages : list Message) : Counter :=
  fold_left (fun counts msg => incr (hour (timestamp msg)) counts) messages [].

Definition messages_by_weekday (messages : list Message) : Counter :=
  fold_left (fun counts msg => incr (weekday (timestamp msg)) counts)
            messages [].

(** [_WORD_RE.findall]: maximal runs of word characters. *)
Definition _WORD_RE_findall `{UnicodeDB} (s : str) : list str :=
  runs is_word_char s.

Definition extract_words `{UnicodeDB} (t : str) : list str :=
  filter (fun w => negb (Nat.eqb (length w) 0) && negb (mem w STOPWORDS)
                   && Nat.ltb 1 (length w))
         (_WORD_RE_findall (lower t)).

Definition top_words `{UnicodeDB} (messages : list Message) (n : Z)
  : list (str * Z) :=
  most_common n
    (fold_left (fun counter msg => count_into counter (extract_words (text msg)))
               messages []).

Definition is_emoji (c : N) : bool :=
  in_range 128512 128591 c      (* emoticons *)
  || in_range 127744 128511 c   (* symbols & pictographs *)
  || in_range 128640 128767 c   (* transport & map symbols *)
  || in_range 127456 127487 c   (* flags *)
  || in_range 9984 10175 c      (* dingbats *)
  || in_range 129280 129535 c.  (* supplemental symbols and pictographs *)

Definition extract_emojis (t : str) : list str := runs is_emoji t.

Definition top_emojis (messages : list Message) (n : Z) : list (str * Z) :=
  most_common n
    (fold_left (fun counter msg => count_into counter (extract_emojis (text msg)))
               messages []).

(* ================================================================= *)
(** ** roast_engine.py *)

Definition _WEEKDAY_NAMES : list (Z * str) :=
  [(0, cps "Monday"); (1, cps "Tuesday"); (2, cps "Wednesday");
   (3, cps "Thursday"); (4, cps "Friday"); (5, cps "Saturday");
   (6, cps "Sunday")].

(** [d.get(k, default)]. *)
Fixpoint dict_get {K V} `{EqDec K} (d : list (K * V)) (k : K) (default : V) : V :=
  match d with
  | [] => default
  | (k', v) :: d' => if eq_dec k' k then v else dict_get d' k default
  end.

(** *** Double-precision arithmetic

    [part / whole * 100] is evaluated in IEEE-754 binary64 with rounding to
    nearest, ties to even.  A finite value is [fm * 2^fe].  The exponent is
    not bounded here: the model is exact whenever the results stay in the
    normal range of binary64, which they do for every quotient of counts. *)
Record float := mkfloat { fm : Z; fe : Z }.

(** Nearest integer to [a / b], ties to even ([0 <= a], [0 < b]). *)
Definition rne_div (a b : Z) : Z :=
  let q := a / b in
  let r := a mod b in
  if 2 * r <? b then q
  else if b <? 2 * r then q + 1
  else if Z.even q then q else q + 1.

(** [d * 2^k <= n], also for negative [k]. *)
Definition scaled_le (d k n : Z) : bool :=
  if 0 <=? k then d * 2 ^ k <=? n else d <=? n * 2 ^ (- k).

(** The binary64 nearest to the rational [n / d], for [0 < n] and [0 < d]:
    a 53-bit significand at the exponent of the binade of [n / d]. *)
Definition round53 (n d : Z) : float :=
  let k := Z.log2 n - Z.log2 d in
  let b := if scaled_le d k n then k else k - 1 in
  let e := b - 52 in
  let m := if 0 <=? e then rne_div n (d * 2 ^ e) else rne_div (n * 2 ^ (- e)) d in
  if m =? 2 ^ 53 then mkfloat (2 ^ 52) (e + 1) else mkfloat m e.

Definition float_of_ratio (n d : Z) : float :=
  if n =? 0 then mkfloat 0 0
  else let f := round53 (Z.abs n) (Z.abs d) in
       mkfloat (Z.sgn n * Z.sgn d * fm f) (fe f).

(** [a / b] on integers (true division), [b <> 0]. *)
Definition int_truediv (a b : Z) : float := float_of_ratio a b.

(** [x * k] for a float [x] and an integer [k] exactly representable. *)
Definition float_mul_int (x : float) (k : Z) : float :=
  if 0 <=? fe x then float_of_ratio (fm x * k * 2 ^ fe x) 1
  else float_of_ratio (fm x * k) (2 ^ (- fe x)).

(** [round(x)]: nearest integer, ties to even. *)
Definition float_round (x : float) : Z :=
  if 0 <=? fe x then fm x * 2 ^ fe x
  else Z.sgn (fm x) * rne_div (Z.abs (fm x)) (2 ^ (- fe x)).

Definition _percentage (part whole : Z) : Z :=
  if whole =? 0 then 0
  else float_round (float_mul_int (int_truediv part whole) 100).

Definition _format_hour (hour : Z) : str :=
  let suffix := if hour <? 12 then cps "AM" else cps "PM" in
  let h := hour mod 12 in
  let h := if h =? 0 then 12 else h in
  str_of_Z h ++ suffix.

(** The level after [level.lower()] and the fallback to ["medium"]. *)
Definition normalize_level `{UnicodeDB} (level : str) : str :=
  let level := lower level in
  if negb (mem level [cps "mild"; cps "medium"; cps "savage"])
  then cps "medium" else level.

Definition talkative_line (level top_sender : str) (top_pct : Z) : str :=
  if str_eqb level (cps "mild") then
    top_sender ++ cps " sent the most messages at " ++ str_of_Z top_pct
      ++ cps "% of the chat. Quite the social butterfly!"
  else if str_eqb level (cps "medium") then
    top_sender ++ cps " dominated the chat with " ++ str_of_Z top_pct
      ++ cps "% of the messages. Maybe let someone else get a word in?"
  else
    top_sender ++ cps " hogged " ++ str_of_Z top_pct
      ++ cps "% of the conversation. Ever heard of a hobby outside this chat?".

Definition silent_line (level bottom_sender : str) (bottom_pct : Z) : str :=
  if str_eqb level (cps "mild") then
    bottom_sender ++ cps " only contributed " ++ str_of_Z bottom_pct
      ++ cps "% of messages. Lurking is an art form, after all."
  else if str_eqb level (cps "medium") then
    bottom_sender ++ cps " clocked in at just " ++ str_of_Z bottom_pct
      ++ cps "% of messages. Do you even know this chat exists?"
  else
    bottom_sender ++ cps " barely registered at " ++ str_of_Z bottom_pct
      ++ cps "% of messages. Silent member or professional ghoster?".

Definition peak_line (level peak_hour_str weekday_name : str) : str :=
  if str_eqb level (cps "mild") then
    cps "Most chatting happens around " ++ peak_hour_str ++ cps " on "
      ++ weekday_name ++ cps ". Night owls with a schedule, perhaps?"
  else if str_eqb level (cps "medium") then
    cps "Peak chat time is " ++ peak_hour_str ++ cps " on " ++ weekday_name
      ++ cps ". Who needs sleep when you have memes?"
  else
    cps "You lot blow up the chat at " ++ peak_hour_str ++ cps " on "
      ++ weekday_name ++ cps ". Congratulations on never respecting bed time.".

Definition emoji_line (level top_emoji : str) (emoji_count : Z) : str :=
  if str_eqb level (cps "mild") then
    cps "Your favourite emoji appears to be " ++ top_emoji ++ cps ", used "
      ++ str_of_Z emoji_count ++ cps " times. Expressive bunch!"
  else if str_eqb level (cps "medium") then
    cps "Top emoji award goes to " ++ top_emoji ++ cps " " ++ [8211%N]
      ++ cps " dropped " ++ str_of_Z emoji_count
      ++ cps " times. Maybe diversify your feelings?"
  else
    top_emoji ++ cps " shows up " ++ str_of_Z emoji_count
      ++ cps " times. Ever considered using words like a normal human?".

Definition word_line (level top_word : str) (word_count : Z) : str :=
  if str_eqb level (cps "mild") then
    cps "The word '" ++ top_word ++ cps "' comes up a lot ("
      ++ str_of_Z word_count ++ cps " times). Looks like a favourite topic!"
  else if str_eqb level (cps "medium") then
    cps "You say '" ++ top_word ++ cps "' " ++ str_of_Z word_count
      ++ cps " times. Is that a cry for help or just laziness?"
  else
    cps "'" ++ top_word ++ cps "' appears " ++ str_of_Z word_count
      ++ cps " times. We get it, you have a limited vocabulary.".

(** [max(counts.items(), key=lambda x: x[1])[0]] on a non-empty dictionary. *)
Definition argmax_count {K} (default : K) (counts : list (K * Z)) : K :=
  match counts with
  | [] => default
  | x :: rest => fst (max_by_count x rest)
  end.

Definition peak_hour_of (msgs : list Message) : Z :=
  argmax_count 0 (messages_by_hour msgs).

Definition peak_weekday_of (msgs : list Message) : Z :=
  argmax_count 0 (messages_by_weekday msgs).

(** The list [lines] that [generate_roast] joins, for a non-empty [msgs]. *)
Definition roast_lines `{UnicodeDB} (msgs : list Message) (level : str)
  : list str :=
  let total_messages := Z.of_nat (length msgs) in
  let counts := message_counts msgs in
  let sorted_counts := sorted_desc counts in
  let '(top_sender, top_count) := hd ([], 0) sorted_counts in
  let top_pct := _percentage top_count total_messages in
  let '(bottom_sender, bottom_count) := last sorted_counts ([], 0) in
  let bottom_pct := _percentage bottom_count total_messages in
  let peak_hour := peak_hour_of msgs in
  let peak_weekday := peak_weekday_of msgs in
  let emojis := top_emojis msgs 1 in
  let words := top_words msgs 1 in
  let peak_hour_str := _format_hour peak_hour in
  let weekday_name := dict_get _WEEKDAY_NAMES peak_weekday (cps "Unknown day") in
  [talkative_line level top_sender top_pct;
   silent_line level bottom_sender bottom_pct;
   peak_line level peak_hour_str weekday_name]
  ++ match emojis with
     | (top_emoji, emoji_count) :: _ =>
         match top_emoji with
         | [] => []
         | _ => [emoji_line level top_emoji emoji_count]
         end
     | [] => []
     end
  ++ match words with
     | (top_word, word_count) :: _ =>
         match top_word with
         | [] => []
         | _ => [word_line level top_word word_count]
         end
     | [] => []
     end.

Definition generate_roast `{UnicodeDB} (messages : list Message) (level : str)
  : str :=
  let level := normalize_level level in
  let msgs := messages in
  if Nat.eqb (length msgs) 0 then cps "No messages to roast."
  else join [10%N] (roast_lines msgs level).

(* ================================================================= *)
(** ** Regular expressions

    The fragment of [re] used by the parser and by [strptime]: character
    classes, sequence, ordered alternation, greedy repetition of a class,
    named groups and the end anchor.  Matching is by backtracking, as in
    [re]: the first way to match in priority order is the one returned. *)

Inductive regex :=
| Eps
| Chr (p : N -> bool)
| Seq (r1 r2 : regex)
| Alt (r1 r2 : regex)
| Star (p : N -> bool)
| Group (name : string) (r : regex)
| Eos.

Definition groups := list (string * str).

(** [[class]*]: as many characters as possible, fewer on backtracking. *)
Fixpoint star {A} (p : N -> bool) (s : str) (k : str -> option A) : option A :=
  match s with
  | c :: s' =>
      if p c
      then match star p s' k with Some x => Some x | None => k s end
      else k s
  | [] => k []
  end.

(** [rmatch r s g k]: match [r] at the start of [s], then continue with [k]
    on the rest of the input and the groups captured so far. *)
Fixpoint rmatch {A} (r : regex) (s : str) (g : groups)
    (k : str -> groups -> option A) : option A :=
  match r with
  | Eps => k s g
  | Chr p => match s with
             | c :: s' => if p c then k s' g else None
             | [] => None
             end
  | Seq r1 r2 => rmatch r1 s g (fun s' g' => rmatch r2 s' g' k)
  | Alt r1 r2 => match rmatch r1 s g k with
                 | Some x => Some x
                 | None => rmatch r2 s g k
                 end
  | Star p => star p s (fun s' => k s' g)
  | Group name r =>
      rmatch r s g
        (fun s' g' => k s' ((name, firstn (length s - length s') s) :: g'))
  | Eos => match s with
           | [] => k s g
           | [10%N] => k s g
           | _ => None
           end
  end.

(** [pattern.match(s)]: the groups and the unconsumed rest of the input. *)
Definition re_match (r : regex) (s : str) : option (groups * str) :=
  rmatch r s [] (fun s' g => Some (g, s')).

(** [m.group(name)]: [None] for a group that did not take part. *)
Fixpoint group (name : string) (g : groups) : option str :=
  match g with
  | [] => None
  | (n, v) :: g' => if String.eqb n name then Some v else group name g'
  end.

Definition group_str (name : string) (g : groups) : str :=
  match group name g with Some v => v | None => [] end.

Definition Lit (c : N) : regex := Chr (N.eqb c).
Definition Opt (r : regex) : regex := Alt r Eps.
Definition Plus (p : N -> bool) : regex := Seq (Chr p) (Star p).
Definition Range (lo hi : N) : regex := Chr (in_range lo hi).
Definition seqs (rs : list regex) : regex := fold_right Seq Eps rs.
Definition alts (r : regex) (rs : list regex) : regex := fold_left Alt rs r.

(** A literal letter under [re.IGNORECASE]. *)
Definition LitCI (lo up : N) : regex := Chr (fun c => N.eqb c lo || N.eqb c up).

(* ================================================================= *)
(** ** whatsapp_parser.py *)

Inductive exn := ValueError.

Inductive result (A : Type) :=
| Ok (x : A)
| Raise (e : exn).
Arguments Ok {A} x.
Arguments Raise {A} e.

Definition bind {A B} (r : result A) (f : A -> result B) : result B :=
  match r with Ok x => f x | Raise e => Raise e end.

Notation "x <- r ;; k" := (bind r (fun x => k))
  (at level 61, r at next level, right associativity).

Definition digit `{UnicodeDB} : regex := Chr is_digit.
Definition not_colon (c : N) : bool := negb (c =? 58)%N.
Definition not_newline (c : N) : bool := negb (c =? 10)%N.

(** The pieces of [_MESSAGE_RE]: the groups [date] (1-2 digits, slash,
    1-2 digits, slash, 2-4 digits), [time] (1-2 digits, colon, 2 digits),
    the optional [ampm] (AM or PM), [sender] (one or more characters other
    than a colon) and [text] (the rest of the line), separated by a comma, a
    dash, a colon and optional blanks, and anchored at both ends. *)
Definition re_date `{UnicodeDB} : regex :=
  Group "date"
    (seqs [digit; Opt digit; Lit 47; digit; Opt digit; Lit 47;
           digit; digit; Opt (Seq digit (Opt digit))]).

Definition re_time `{UnicodeDB} : regex :=
  Group "time" (seqs [digit; Opt digit; Lit 58; digit; digit]).

Definition re_ampm : regex :=
  Opt (Group "ampm" (Alt (Seq (Lit 65) (Lit 77)) (Seq (Lit 80) (Lit 77)))).

Definition re_sender : regex := Group "sender" (Plus not_colon).

Definition re_text : regex := Group "text" (Star not_newline).

Definition _MESSAGE_RE `{UnicodeDB} : regex :=
  seqs [re_date; Lit 44; Star is_space; re_time; Star is_space; re_ampm;
        Star is_space; Lit 45; Star is_space; re_sender; Lit 58;
        Star is_space; re_text; Eos].

(** [_MESSAGE_RE.match(line)]. *)
Definition header_match `{UnicodeDB} (line : str) : option groups :=
  match re_match _MESSAGE_RE line with
  | Some (g, _) => Some g
  | None => None
  end.

(** [s.split(sep)] for a one-character separator. *)
Fixpoint split (c : N) (s : str) : list str :=
  match s with
  | [] => [[]]
  | x :: s' =>
      if (x =? c)%N then [] :: split c s'
      else match split c s' with
           | p :: ps => (x :: p) :: ps
           | [] => [[x]]
           end
  end.

Fixpoint lstrip (p : N -> bool) (s : str) : str :=
  match s with
  | c :: s' => if p c then lstrip p s' else s
  | [] => []
  end.

Definition rstrip (p : N -> bool) (s : str) : str := rev (lstrip p (rev s)).

(** [s.strip()] with [p] the characters to remove. *)
Definition strip (p : N -> bool) (s : str) : str := rstrip p (lstrip p s).

(** [int(s)] on a string of decimal digits, surrounding blanks ignored. *)
Definition int_digits `{UnicodeDB} (s : str) : Z :=
  fold_left (fun acc c => match digit_val c with
                          | Some v => 10 * acc + v
                          | None => acc
                          end) s 0.

Definition py_int `{UnicodeDB} (s : str) : Z := int_digits (strip is_space s).

(** *** [datetime.strptime]

    The format is turned into a regular expression, one named group per
    directive, as [_strptime] does; blanks of the format become [\s+]. *)
Definition re_m : regex :=
  Group "m" (alts (Seq (Lit 49) (Range 48 50))
                  [Seq (Lit 48) (Range 49 57); Range 49 57]).

Definition re_d `{UnicodeDB} : regex :=
  Group "d" (alts (Seq (Lit 51) (Range 48 49))
                  [Seq (Range 49 50) digit; Seq (Lit 48) (Range 49 57);
                   Range 49 57; Seq (Lit 32) (Range 49 57)]).

Definition re_Y `{UnicodeDB} : regex :=
  Group "Y" (seqs [digit; digit; digit; digit]).

Definition re_H `{UnicodeDB} : regex :=
  Group "H" (alts (Seq (Lit 50) (Range 48 51)) [Seq (Range 48 49) digit; digit]).

Definition re_I : regex :=
  Group "I" (alts (Seq (Lit 49) (Range 48 50))
                  [Seq (Lit 48) (Range 49 57); Range 49 57]).

Definition re_M `{UnicodeDB} : regex :=
  Group "M" (Alt (Seq (Range 48 53) digit) digit).

Definition re_p : regex :=
  Group "p" (Alt (Seq (LitCI 97 65) (LitCI 109 77))
                 (Seq (LitCI 112 80) (LitCI 109 77))).

Inductive clock := Clock12 | Clock24.

(** ["%m/%d/%Y, %I:%M %p"] and ["%m/%d/%Y, %H:%M"]. *)
Definition format_regex `{UnicodeDB} (fmt : clock) : regex :=
  match fmt with
  | Clock12 =>
      seqs [re_m; Lit 47; re_d; Lit 47; re_Y; Lit 44; Plus is_space;
            re_I; Lit 58; re_M; Plus is_space; re_p]
  | Clock24 =>
      seqs [re_m; Lit 47; re_d; Lit 47; re_Y; Lit 44; Plus is_space;
            re_H; Lit 58; re_M]
  end.

(** The [datetime] constructor, which validates its fields. *)
Definition datetime_new (y m d H M : Z) : result datetime :=
  if (1 <=? y) && (y <=? 9999) && (1 <=? m) && (m <=? 12)
     && (1 <=? d) && (d <=? days_in_month y m)
     && (0 <=? H) && (H <=? 23) && (0 <=? M) && (M <=? 59)
  then Ok (mkdatetime y m d H M)
  else Raise ValueError.

(** The hour of a 12-hour clock reading with its AM/PM marker. *)
Definition hour_12 (h : Z) (ampm : str) : Z :=
  if str_eqb ampm (cps "am") then (if h =? 12 then 0 else h)
  else if str_eqb ampm (cps "pm") then (if h =? 12 then h else h + 12)
  else h.

Definition strptime `{UnicodeDB} (data_string : str) (fmt : clock)
  : result datetime :=
  match re_match (format_regex fmt) data_string with
  | None => Raise ValueError                 (* does not match format *)
  | Some (g, rest) =>
      match rest with
      | _ :: _ => Raise ValueError           (* unconverted data remains *)
      | [] =>
          let y := py_int (group_str "Y" g) in
          let m := py_int (group_str "m" g) in
          let d := py_int (group_str "d" g) in
          let H := match fmt with
                   | Clock24 => py_int (group_str "H" g)
                   | Clock12 => hour_12 (py_int (group_str "I" g))
                                        (map ascii_lower (group_str "p" g))
                   end in
          let M := py_int (group_str "M" g) in
          datetime_new y m d H M
      end
  end.

Definition _parse_timestamp `{UnicodeDB} (date_str time_str : str)
    (ampm : option str) : result datetime :=
  match split 47 date_str with
  | [month; day; year] =>
      let year := if Nat.eqb (length year) 2 then cps "20" ++ year else year in
      match ampm with
      | Some (c :: a) =>
          strptime (month ++ cps "/" ++ day ++ cps "/" ++ year ++ cps ", "
                      ++ time_str ++ cps " " ++ (c :: a)) Clock12
      | _ =>
          strptime (month ++ cps "/" ++ day ++ cps "/" ++ year ++ cps ", "
                      ++ time_str) Clock24
      end
  | _ => Raise ValueError
  end.

Definition is_newline (c : N) : bool := (c =? 10)%N.

(** The body of the loop over the lines of the file: [messages] is the list
    built so far and [current_msg] the message being assembled. *)
Fixpoint parse_loop `{UnicodeDB} (lines : list str) (messages : list Message)
    (current_msg : option Message) : result (list Message) :=
  match lines with
  | [] =>
      match current_msg with
      | Some msg => Ok (messages ++ [msg])
      | None => Ok messages
      end
  | raw_line :: lines' =>
      let line := strip is_newline raw_line in
      match line with
      | [] => parse_loop lines' messages current_msg
      | _ =>
          match header_match line with
          | Some m =>
              let messages := match current_msg with
                              | Some msg => messages ++ [msg]
                              | None => messages
                              end in
              let date_str := group_str "date" m in
              let time_str := group_str "time" m in
              let ampm := group "ampm" m in
              let sender := strip is_space (group_str "sender" m) in
              let text := group_str "text" m in
              timestamp <- _parse_timestamp date_str time_str ampm ;;
              parse_loop lines' messages (Some (mkMessage timestamp sender text))
          | None =>
              match current_msg with
              | Some msg =>
                  parse_loop lines' messages
                    (Some (mkMessage (timestamp msg) (sender msg)
                                     (text msg ++ [10%N] ++ line)))
              | None => parse_loop lines' messages None
              end
          end
      end
  end.

(** The lines a text file yields when iterated: each ends with its line
    break, except possibly the last. *)
Fixpoint file_lines_aux (cur : str) (s : str) : list str :=
  match s with
  | [] => match cur with [] => [] | _ => [rev cur] end
  | c :: s' =>
      if (c =? 10)%N then rev (c :: cur) :: file_lines_aux [] s'
      else file_lines_aux (c :: cur) s'
  end.

Definition file_lines (content : str) : list str := file_lines_aux [] content.

(** [parse_chat] on the decoded content of the file at [file_path]. *)
Definition parse_chat `{UnicodeDB} (content : str) : result (list Message) :=
  parse_loop (file_lines content) [] None.

(* ================================================================= *)
(** ** Vocabulary of the properties

    The predicates, streams and sample inputs in which the properties
    below are stated. *)

(** [first_before toks a b]: [a] occurs in [toks], and at its first
    occurrence [b] has not been seen yet. *)
Definition first_before {K} (toks : list K) (a b : K) : Prop :=
  exists l1 l2, toks = l1 ++ a :: l2 /\ ~ In a l1 /\ ~ In b l1 /\ a <> b.

(** Ranking of counter entries: larger count first, equal counts by first
    encounter in the token stream. *)
Definition ranks_before {K} (toks : list K) (x y : K * Z) : Prop :=
  snd y < snd x \/ (snd x = snd y /\ first_before toks (fst x) (fst y)).

(** The keys of a counter, in iteration order. *)
Definition keys {K} (c : list (K * Z)) : list K := map fst c.

(** [counter[k]], zero for a missing key. *)
Fixpoint get {K} `{EqDec K} (k : K) (c : list (K * Z)) : Z :=
  match c with
  | [] => 0
  | (k', v) :: c' => if eq_dec k' k then v else get k c'
  end.

(** Number of occurrences of [k] in the token stream. *)
Definition occurrences {K} `{EqDec K} (toks : list K) (k : K) : Z :=
  Z.of_nat (count_occ eq_dec toks k).

(** Count first, the order [R] of the input among equal counts. *)
Definition by_count_then {K} (R : K * Z -> K * Z -> Prop) (x y : K * Z) : Prop :=
  snd y < snd x \/ (snd x = snd y /\ R x y).

(** The tokens counted by [top_words] / [top_emojis], in counting order. *)
Definition words_of `{UnicodeDB} (messages : list Message) : list str :=
  flat_map (fun msg => extract_words (text msg)) messages.

Definition emojis_of (messages : list Message) : list str :=
  flat_map (fun msg => extract_emojis (text msg)) messages.

(** [r] is the top [n] of the token stream [toks]: distinct tokens with their
    true counts, larger counts first and equal counts in order of first
    encounter, nothing left out that ranks before a returned entry, and as
    many entries as [n] and the number of distinct tokens allow. *)
Definition top_n_of {K} `{EqDec K} (toks : list K) (n : Z) (r : list (K * Z))
  : Prop :=
  NoDup (keys r) /\
  (forall k v, In (k, v) r -> In k toks /\ v = occurrences toks k) /\
  StronglySorted (ranks_before toks) r /\
  (forall k, In k toks -> ~ In k (keys r) ->
             forall x, In x r -> ranks_before toks x (k, occurrences toks k)) /\
  length r = Nat.min (Z.to_nat n) (length (nodup eq_dec toks)).

Definition hours_of (msgs : list Message) : list Z :=
  map (fun msg => hour (timestamp msg)) msgs.

Definition weekdays_of (msgs : list Message) : list Z :=
  map (fun msg => weekday (timestamp msg)) msgs.

(** The reading of the selection that breaks ties by the smallest key. *)
Definition smallest_max_key (counts : list (Z * Z)) (p : Z) : Prop :=
  (forall k, get k counts <= get p counts) /\
  (forall k, get k counts = get p counts -> p <= k).

Definition two_hours : list Message :=
  [mkMessage (mkdatetime 2024 12 30 21 15) (cps "Alice") (cps "Hey!");
   mkMessage (mkdatetime 2024 12 31 10 0) (cps "Bob") (cps "Hello")].

(** A line that ends in a character other than a line break. *)
Definition ends_without_break (s : str) : Prop :=
  s <> [] /\ last s 0%N <> 10%N.

(** An optional line of the roast: absent when the stream [toks] is empty,
    else the template applied to the single top entry. *)
Definition optional_line (toks : list str) (top : list (str * Z))
    (line : str -> Z -> str) (L : list str) : Prop :=
  (toks = [] /\ top = [] /\ L = []) \/
  (exists k, In k toks /\ top = [(k, occurrences toks k)] /\
             L = [line k (occurrences toks k)]).

Definition emoji_and_word : list Message :=
  [mkMessage (mkdatetime 2024 12 30 21 15) (cps "Alice")
             (cps "hello " ++ [128512%N])].

Definition alice_twice : list Message :=
  [mkMessage (mkdatetime 2024 12 30 21 15) (cps "Alice") (cps "Hey!");
   mkMessage (mkdatetime 2024 12 30 21 16) (cps "Alice") (cps "anyone?")].

(** The rounding of [100 * part / whole] to the nearest integer with halves
    away from zero. *)
Definition half_away_percentage (part whole : Z) : Z :=
  if whole =? 0 then 0 else (200 * part + whole) / (2 * whole).

(** The lines as the loop sees them, line breaks trimmed. *)
Definition trimmed_lines (lines : list str) : list str :=
  map (strip is_newline) lines.

Definition is_header `{UnicodeDB} (line : str) : bool :=
  match header_match line with Some _ => true | None => false end.

(** The lines that match the header pattern, in source order. *)
Definition header_lines `{UnicodeDB} (lines : list str) : list str :=
  filter is_header (trimmed_lines lines).

(** [msg] is the record started by the header line [line]: timestamp and
    sender come from its fields, and its text begins with the header's text. *)
Definition built_from `{UnicodeDB} (msg : Message) (line : str) : Prop :=
  exists g, header_match line = Some g /\
    _parse_timestamp (group_str "date" g) (group_str "time" g) (group "ampm" g)
      = Ok (timestamp msg) /\
    sender msg = strip is_space (group_str "sender" g) /\
    exists cont, text msg = group_str "text" g ++ cont.

(** A header line whose date and time do not make a timestamp. *)
Definition bad_header `{UnicodeDB} (line : str) : Prop :=
  exists g, header_match line = Some g /\
    _parse_timestamp (group_str "date" g) (group_str "time" g) (group "ampm" g)
      = Raise ValueError.

(** The record being assembled, once finalised. *)
Definition finalised (cur : option Message) (out : list Message) : Prop :=
  match cur with
  | None => out = []
  | Some c => exists c', out = [c'] /\ timestamp c' = timestamp c /\
                         sender c' = sender c /\
                         exists cont, text c' = text c ++ cont
  end.

Definition scenario_a : str :=
  cps "12/30/24, 9:15 PM - Alice: Hey!" ++ [10%N]
  ++ cps "12/31/24, 10:00 AM - Bob: Hello" ++ [10%N].

Definition month_13 : str :=
  cps "12/30/24, 9:15 PM - Alice: Hey!" ++ [10%N]
  ++ cps "13/1/24, 1:00 PM - Bob: Hello" ++ [10%N].

(** [Sem r s rest g g']: [r] can match [s] when followed by [rest], turning
    the captured groups [g] into [g']. *)
Inductive Sem : regex -> str -> str -> groups -> groups -> Prop :=
| SemEps rest g : Sem Eps [] rest g g
| SemChr p c rest g : p c = true -> Sem (Chr p) [c] rest g g
| SemSeq r1 r2 s1 s2 rest g g' g'' :
    Sem r1 s1 (s2 ++ rest) g g' -> Sem r2 s2 rest g' g'' ->
    Sem (Seq r1 r2) (s1 ++ s2) rest g g''
| SemAltL r1 r2 s rest g g' : Sem r1 s rest g g' -> Sem (Alt r1 r2) s rest g g'
| SemAltR r1 r2 s rest g g' : Sem r2 s rest g g' -> Sem (Alt r1 r2) s rest g g'
| SemStar p s rest g : forallb p s = true -> Sem (Star p) s rest g g
| SemGroup name r s rest g g' :
    Sem r s rest g g' -> Sem (Group name r) s rest g ((name, s) :: g')
| SemEos rest g : rest = [] \/ rest = [10%N] -> Sem Eos [] rest g g.

(** A regular expression without named groups leaves the groups alone. *)
Fixpoint groupless (r : regex) : bool :=
  match r with
  | Seq r1 r2 | Alt r1 r2 => groupless r1 && groupless r2
  | Group _ _ => false
  | _ => true
  end.

(** Every class of [r] lies within the class [q]. *)
Fixpoint classes_within (q : N -> bool) (r : regex) : Prop :=
  match r with
  | Chr p | Star p => forall c, p c = true -> q c = true
  | Seq r1 r2 | Alt r1 r2 => classes_within q r1 /\ classes_within q r2
  | Group _ r => classes_within q r
  | Eps | Eos => True
  end.

Definition not_char (c : N) (x : N) : bool := negb (x =? c)%N.

(** The groups captured on a header line. *)
Definition header_groups (mo dy yr hh mi : str) (ampm_g : groups)
    (sender_field text_field : str) : groups :=
  ("text"%string, text_field) :: ("sender"%string, sender_field) :: ampm_g
  ++ [("time"%string, hh ++ 58%N :: mi);
      ("date"%string, mo ++ 47%N :: dy ++ 47%N :: yr)].

Definition blank_sender : str := cps "1/1/24, 1:00 - : hi".

(** The year string handed to [strptime]. *)
Definition full_year (yr : str) : str :=
  if Nat.eqb (length yr) 2 then cps "20" ++ yr else yr.

Definition midnight_line : str := cps "1/1/24, 12:00 AM - A: hi".

Definition midnight_groups : groups :=
  header_groups (cps "1") (cps "1") (cps "24") (cps "12") (cps "00")
    [("ampm"%string, cps "AM")] (cps "A") (cps "hi").

(** What C9 says of a header's groups [g] and its timestamp [ts]. *)
Definition reads_header `{UnicodeDB} (g : groups) (ts : datetime) : Prop :=
  exists mo dy yr hh mi,
    group_str "date" g = mo ++ 47%N :: dy ++ 47%N :: yr /\
    group_str "time" g = hh ++ 58%N :: mi /\
    month ts = py_int mo /\ day ts = py_int dy /\ minute ts = py_int mi /\
    (length yr = 2%nat -> year ts = 2000 + py_int yr) /\
    (length yr <> 2%nat -> year ts = py_int yr) /\
    match group "ampm" g with
    | None => hour ts = py_int hh
    | Some ap =>
        (ap = cps "AM" /\ hour ts = if py_int hh =? 12 then 0 else py_int hh) \/
        (ap = cps "PM" /\ hour ts = if py_int hh =? 12 then 12 else py_int hh + 12)
    end.

(** The sum of the counts of a counter. *)
Definition sum_counts {K} (c : list (K * Z)) : Z :=
  fold_right (fun x acc => snd x + acc) 0 c.

(** The senders and the day keys of a message sequence, in order. *)
Definition senders_of (msgs : list Message) : list str :=
  map sender msgs.

Definition days_of (msgs : list Message) : list str :=
  map (fun msg => strftime_Ymd (timestamp msg)) msgs.

(** main.py: the heights of the bars drawn by [_plot_activity_by_hour] and
    [_plot_activity_by_weekday], [counts.get(i, 0) for i in range(n)]. *)
Definition range (n : nat) : list Z := map Z.of_nat (seq 0 n).

Definition bar_heights (n : nat) (counts : list (Z * Z)) : list Z :=
  map (fun i => dict_get counts i 0) (range n).

Definition hour_bars (hour_counts : list (Z * Z)) : list Z :=
  bar_heights 24 hour_counts.

Definition weekday_bars (weekday_counts : list (Z * Z)) : list Z :=
  bar_heights 7 weekday_counts.

Definition sum_list (l : list Z) : Z := fold_right Z.add 0 l.

(** What a counter filled from a stream offers to its readers. *)
Definition tallies {K} `{EqDec K} (toks : list K) (c : list (K * Z)) : Prop :=
  NoDup (keys c) /\
  StronglySorted (first_before toks) (keys c) /\
  (forall k, get k c = occurrences toks k) /\
  (forall k v, In (k, v) c -> In k toks /\ 1 <= v) /\
  sum_counts c = Z.of_nat (length toks).


(** The weekday name shown in the peak-time line. *)
Definition peak_weekday_name (msgs : list Message) : str :=
  dict_get _WEEKDAY_NAMES (peak_weekday_of msgs) (cps "Unknown day").

(** The entries selected as top and bottom sender by [generate_roast]. *)
Definition top_sender_entry (msgs : list Message) : str * Z :=
  hd ([], 0) (sorted_desc (message_counts msgs)).

Definition bottom_sender_entry (msgs : list Message) : str * Z :=
  last (sorted_desc (message_counts msgs)) ([], 0).

(** What a block of lines adds to the text of the record being assembled:
    each non-empty line, after a line break. *)
Definition continuation_text (lines : list str) : str :=
  flat_map (fun raw_line => match strip is_newline raw_line with
                            | [] => []
                            | line => 10%N :: line
                            end) lines.

Definition append_text (lines : list str) (msg : Message) : Message :=
  mkMessage (timestamp msg) (sender msg) (text msg ++ continuation_text lines).

(** No line of the block matches the header pattern. *)
Definition no_header `{UnicodeDB} (lines : list str) : Prop :=
  forall raw_line, In raw_line lines ->
    header_match (strip is_newline raw_line) = None.

Definition two_line_message : list str :=
  [cps "5/1/23, 1:00 PM - X: hi" ++ [10%N]; cps "and more" ++ [10%N]; [10%N];
   cps "bye"].

(** The percentages [generate_roast] reports for the top and for the bottom
    sender. *)
Definition top_pct (msgs : list Message) : Z :=
  _percentage (snd (top_sender_entry msgs)) (Z.of_nat (length msgs)).

Definition bottom_pct (msgs : list Message) : Z :=
  _percentage (snd (bottom_sender_entry msgs)) (Z.of_nat (length msgs)).

(** A header line with several blanks after the sender's colon. *)
Definition padded_line : str := cps "1/1/24, 1:00 - A:   hi".

Definition padded_groups : groups :=
  header_groups (cps "1") (cps "1") (cps "24") (cps "1") (cps "00") []
    (cps "A") (cps "hi").

(* ----------------------------------------------------------------- *)
(** *** What a match succeeds with *)

(** [accepts r s g rest g1]: matching [r] at the start of [s] takes, as its
    first choice that the rest of the match can succeed from, the part of
    [s] in front of [rest] and turns the groups [g] into [g1]. *)
Definition accepts (r : regex) (s : str) (g : groups) (rest : str)
    (g1 : groups) : Prop :=
  forall (A : Type) (k : str -> groups -> option A) (x : A),
    k rest g1 = Some x -> rmatch r s g k = Some x.

(** [r] matches at the start of [s] in no way at all. *)
Definition rejects (r : regex) (s : str) : Prop :=
  forall (A : Type) (g : groups) (k : str -> groups -> option A),
    rmatch r s g k = None.

(** One or two, or exactly two, ASCII digits. *)
Definition ascii_digits (s : str) : bool := forallb (in_range 48 57) s.

(** The marker of a 12-hour reading as it stands in a header line, and the
    group it leaves in the match. *)
Definition marker_text (ampm : option str) : str :=
  match ampm with Some a => 32%N :: a | None => [] end.

Definition marker_group (ampm : option str) : groups :=
  match ampm with Some a => [("ampm"%string, a)] | None => [] end.

(** A header line written out from its fields, with single blanks. *)
Definition header_line (date_str time_str : str) (ampm : option str)
    (sender_field text_field : str) : str :=
  date_str ++ cps ", " ++ time_str ++ marker_text ampm ++ cps " - "
  ++ sender_field ++ cps ": " ++ text_field.

(** *** Writing a chat out in the format that is read

    One message per line, in the 24-hour or in the 12-hour style of the
    export: date as month/day/two-digit year, a comma, the time, the marker
    in the 12-hour style, a dash, the sender, a colon and the text. *)
Definition clock_hour (fmt : clock) (h : Z) : Z :=
  match fmt with
  | Clock24 => h
  | Clock12 => if h mod 12 =? 0 then 12 else h mod 12
  end.

Definition export_date (ts : datetime) : str :=
  str_of_Z (month ts) ++ 47%N :: str_of_Z (day ts) ++ 47%N
  :: zero_pad 2 (str_of_Z (year ts mod 100)).

Definition export_time (fmt : clock) (ts : datetime) : str :=
  str_of_Z (clock_hour fmt (hour ts)) ++ 58%N
  :: zero_pad 2 (str_of_Z (minute ts)).

Definition export_marker (fmt : clock) (ts : datetime) : option str :=
  match fmt with
  | Clock24 => None
  | Clock12 => Some (if hour ts <? 12 then cps "AM" else cps "PM")
  end.

Definition export_line (fmt : clock) (msg : Message) : str :=
  header_line (export_date (timestamp msg)) (export_time fmt (timestamp msg))
    (export_marker fmt (timestamp msg)) (sender msg) (text msg).

Definition export_chat (fmt : clock) (msgs : list Message) : str :=
  flat_map (fun msg => export_line fmt msg ++ [10%N]) msgs.

(** The messages such a line can carry: a valid time stamp of this
    century, a sender that is not empty, has no colon, no line break and no
    blank at either end, and a one-line text without leading blank. *)
Definition exportable (msg : Message) : Prop :=
  valid_datetime (timestamp msg) /\ 2000 <= year (timestamp msg) <= 2099 /\
  sender msg <> [] /\ forallb not_colon (sender msg) = true /\
  forallb not_newline (sender msg) = true /\
  strip is_space (sender msg) = sender msg /\
  forallb not_newline (text msg) = true /\
  lstrip is_space (text msg) = text msg.

(* ================================================================= *)
(** ** Properties *)

Example runs_example :
  runs (is_word_char (H:=ascii_only)) (cps "hi there, you") =
  [cps "hi"; cps "there"; cps "you"].
Proof. reflexivity. Qed.

(* ----------------------------------------------------------------- *)
(** *** Counters built from a token stream *)

Section CounterFacts.
Context {K : Type} `{EqDec K}.

Lemma incr_keys_in k c : In k (keys c) -> keys (incr k c) = keys c.
Proof.
  induction c as [|[k' v] c IH]; simpl; [tauto|].
  intros [E|Hin]; destruct (eq_dec k' k) as [->|N]; simpl; auto; try congruence.
  now rewrite IH.
Qed.

Lemma incr_keys_notin k c : ~ In k (keys c) -> keys (incr k c) = keys c ++ [k].
Proof.
  induction c as [|[k' v] c IH]; simpl; [reflexivity|].
  intros Hn. destruct (eq_dec k' k) as [->|N]; [tauto|].
  simpl. rewrite IH; tauto.
Qed.

Lemma incr_get_same k c : get k (incr k c) = get k c + 1.
Proof.
  induction c as [|[k' v] c IH]; simpl.
  - destruct (eq_dec k k); [reflexivity|congruence].
  - destruct (eq_dec k' k) as [->|N]; simpl.
    + destruct (eq_dec k k); [reflexivity|congruence].
    + destruct (eq_dec k' k); [congruence|exact IH].
Qed.

Lemma incr_get_other k k0 c : k0 <> k -> get k0 (incr k c) = get k0 c.
Proof.
  intros Hne. induction c as [|[k' v] c IH]; simpl.
  - destruct (eq_dec k k0); [congruence|reflexivity].
  - destruct (eq_dec k' k) as [->|N]; simpl.
    + destruct (eq_dec k k0); [congruence|reflexivity].
    + destruct (eq_dec k' k0); [reflexivity|exact IH].
Qed.

Lemma get_notin k c : ~ In k (keys c) -> get k c = 0.
Proof.
  induction c as [|[k' v] c IH]; simpl; [reflexivity|].
  intros Hn. destruct (eq_dec k' k); [tauto|]. apply IH; tauto.
Qed.

Lemma get_in k v c : NoDup (keys c) -> In (k, v) c -> get k c = v.
Proof.
  induction c as [|[k' v'] c IH]; simpl; [tauto|].
  intros Hnd [E|Hin].
  - inversion E; subst. destruct (eq_dec k k); [reflexivity|congruence].
  - inversion Hnd; subst. destruct (eq_dec k' k) as [->|N].
    + exfalso. apply H2. change (In (fst (k, v)) (map fst c)). now apply in_map.
    + now apply IH.
Qed.

Lemma count_into_app c l1 l2 :
  count_into c (l1 ++ l2) = count_into (count_into c l1) l2.
Proof. unfold count_into. apply fold_left_app. Qed.

Lemma occurrences_app l1 l2 k :
  occurrences (l1 ++ l2) k = occurrences l1 k + occurrences l2 k.
Proof. unfold occurrences. rewrite count_occ_app. lia. Qed.

Lemma in_split_first (a : K) l :
  In a l -> exists l1 l2, l = l1 ++ a :: l2 /\ ~ In a l1.
Proof.
  induction l as [|x l IH]; simpl; [tauto|].
  intros Hin. destruct (eq_dec x a) as [->|N].
  - exists [], l. simpl. tauto.
  - destruct Hin as [E|Hin]; [congruence|].
    destruct (IH Hin) as (l1 & l2 & -> & Hn).
    exists (x :: l1), l2. simpl. split; [reflexivity|]. intros [E|E]; tauto.
Qed.

Lemma first_before_app (toks t : list K) a b :
  first_before toks a b -> first_before (toks ++ t) a b.
Proof.
  intros (l1 & l2 & -> & Ha & Hb & Hne).
  exists l1, (l2 ++ t). rewrite <- app_assoc. simpl. tauto.
Qed.

Lemma first_before_new (toks : list K) a t :
  In a toks -> ~ In t toks -> first_before (toks ++ [t]) a t.
Proof.
  intros Ha Ht. destruct (in_split_first a toks Ha) as (l1 & l2 & -> & Hn).
  exists l1, (l2 ++ [t]). rewrite <- app_assoc. simpl.
  repeat split; auto.
  - intros Hin. apply Ht. apply in_or_app. now left.
  - intros ->. apply Ht. apply in_or_app. right. now left.
Qed.

Lemma StronglySorted_snoc {A} (R : A -> A -> Prop) l x :
  StronglySorted R l -> (forall y, In y l -> R y x) ->
  StronglySorted R (l ++ [x]).
Proof.
  induction 1 as [|a l Hs IH Hf]; simpl; intros Hx.
  - constructor; constructor.
  - constructor.
    + apply IH. intros y Hy. apply Hx. now right.
    + apply Forall_app. split; [exact Hf|]. constructor; [|constructor].
      apply Hx. now left.
Qed.

Lemma StronglySorted_weaken {A} (R R' : A -> A -> Prop) l :
  (forall x y, R x y -> R' x y) -> StronglySorted R l -> StronglySorted R' l.
Proof.
  intros HR. induction 1; constructor; auto.
  eapply Forall_impl; [|eassumption]. auto.
Qed.

(** What a counter filled from a token stream contains. *)
Lemma count_into_spec (toks : list K) :
  let c := count_into [] toks in
  NoDup (keys c) /\
  (forall k, In k (keys c) <-> In k toks) /\
  (forall k, get k c = occurrences toks k) /\
  StronglySorted (first_before toks) (keys c).
Proof.
  induction toks as [|t toks IH] using rev_ind; simpl.
  - repeat split; try tauto; constructor.
  - rewrite count_into_app. simpl.
    destruct IH as (Hnd & Hin & Hget & Hord).
    set (c := count_into [] toks) in *.
    destruct (in_dec eq_dec t (keys c)) as [Ht|Ht].
    + rewrite (incr_keys_in _ _ Ht). repeat split.
      * exact Hnd.
      * intros Hk. apply in_or_app. left. now apply Hin.
      * intros Hk. apply in_app_or in Hk. destruct Hk as [Hk|[<-|[]]]; auto.
        now apply Hin.
      * intros k. rewrite occurrences_app. unfold occurrences at 2. simpl.
        destruct (eq_dec t k) as [->|N].
        -- rewrite incr_get_same, Hget. reflexivity.
        -- rewrite incr_get_other by congruence. rewrite Hget. simpl. lia.
      * eapply StronglySorted_weaken; [|exact Hord].
        intros x y. apply first_before_app.
    + rewrite (incr_keys_notin _ _ Ht). repeat split.
      * apply NoDup_app_remove_l with (l := []). simpl.
        apply Permutation_NoDup with (l := t :: keys c).
        -- apply Permutation_cons_append.
        -- constructor; assumption.
      * intros Hk. apply in_app_or in Hk. apply in_or_app.
        destruct Hk as [Hk|Hk]; [left; now apply Hin|now right].
      * intros Hk. apply in_app_or in Hk. apply in_or_app.
        destruct Hk as [Hk|Hk]; [left; now apply Hin|now right].
      * intros k. rewrite occurrences_app. unfold occurrences at 2. simpl.
        destruct (eq_dec t k) as [->|N].
        -- rewrite incr_get_same, Hget. reflexivity.
        -- rewrite incr_get_other by congruence. rewrite Hget. simpl. lia.
      * apply StronglySorted_snoc.
        -- eapply StronglySorted_weaken; [|exact Hord].
           intros x y. apply first_before_app.
        -- intros y Hy. apply first_before_new; [now apply Hin|].
           intros Hc. apply Ht. now apply Hin.
Qed.
End CounterFacts.

(* ----------------------------------------------------------------- *)
(** *** The stable descending sort behind [most_common] and [sorted] *)

Section StableSort.
Context {K : Type}.
Variable R : K * Z -> K * Z -> Prop.

Lemma insert_desc_perm (x : K * Z) l : Permutation (insert_desc x l) (x :: l).
Proof.
  induction l as [|y l IH]; simpl; [reflexivity|].
  destruct (snd x <? snd y); [|reflexivity].
  rewrite IH. apply perm_swap.
Qed.

Lemma sorted_desc_perm (l : list (K * Z)) : Permutation (sorted_desc l) l.
Proof.
  induction l as [|x l IH]; simpl; [reflexivity|].
  rewrite insert_desc_perm. now constructor.
Qed.

Lemma by_count_then_le x y : by_count_then R x y -> snd y <= snd x.
Proof. intros [Hlt|[E _]]; lia. Qed.

Lemma insert_desc_sorted x l :
  StronglySorted (by_count_then R) l -> (forall y, In y l -> R x y) ->
  StronglySorted (by_count_then R) (insert_desc x l).
Proof.
  induction 1 as [|y l Hs IH Hf]; simpl; intros Hx.
  - constructor; constructor.
  - destruct (Z.ltb_spec (snd x) (snd y)) as [Hlt|Hge].
    + constructor.
      * apply IH. intros z Hz. apply Hx. now right.
      * apply Forall_forall. intros z Hz.
        apply (Permutation_in _ (insert_desc_perm x l)) in Hz.
        destruct Hz as [<-|Hz]; [now left|].
        rewrite Forall_forall in Hf. now apply Hf.
    + constructor; [now constructor|].
      apply Forall_forall. intros z Hz.
      assert (Hzy : snd z <= snd y).
      { destruct Hz as [<-|Hz]; [lia|].
        rewrite Forall_forall in Hf. apply by_count_then_le. now apply Hf. }
      destruct (Z.eq_dec (snd x) (snd z)) as [E|N].
      * right. split; [exact E|]. now apply Hx.
      * left. lia.
Qed.

Lemma sorted_desc_sorted (l : list (K * Z)) :
  StronglySorted R l -> StronglySorted (by_count_then R) (sorted_desc l).
Proof.
  induction 1 as [|x l Hs IH Hf]; simpl; [constructor|].
  apply insert_desc_sorted; [exact IH|].
  intros y Hy. apply (Permutation_in _ (sorted_desc_perm l)) in Hy.
  rewrite Forall_forall in Hf. now apply Hf.
Qed.
End StableSort.

Lemma StronglySorted_app_inv {A} (R : A -> A -> Prop) l1 l2 :
  StronglySorted R (l1 ++ l2) ->
  StronglySorted R l1 /\ StronglySorted R l2 /\
  (forall x y, In x l1 -> In y l2 -> R x y).
Proof.
  induction l1 as [|a l1 IH]; simpl; intros Hs.
  - repeat split; [constructor|exact Hs|tauto].
  - inversion Hs as [|? ? Hs' Hf]; subst.
    destruct (IH Hs') as (H1 & H2 & H3).
    apply Forall_app in Hf. destruct Hf as [Hf1 Hf2].
    repeat split; [now constructor|exact H2|].
    intros x y [<-|Hx] Hy; [|now apply H3].
    rewrite Forall_forall in Hf2. now apply Hf2.
Qed.

Lemma StronglySorted_map {A B} (f : A -> B) (R : B -> B -> Prop) l :
  StronglySorted R (map f l) -> StronglySorted (fun x y => R (f x) (f y)) l.
Proof.
  induction l as [|a l IH]; simpl; intros Hs; [constructor|].
  inversion Hs as [|? ? Hs' Hf]; subst. constructor; [now apply IH|].
  rewrite Forall_forall in *. intros x Hx. apply Hf. now apply in_map.
Qed.

Section MostCommon.
Context {K : Type} `{EqDec K}.

Lemma most_common_nonpos n (c : list (K * Z)) : n <= 0 -> most_common n c = [].
Proof. unfold most_common. intros Hn. now destruct (Z.leb_spec n 0); [|lia]. Qed.

Lemma most_common_split n (c : list (K * Z)) :
  exists rest, Permutation (most_common n c ++ rest) c /\
               most_common n c ++ rest = sorted_desc c /\
               (n <= 0 -> most_common n c = []) /\
               length (most_common n c) = Nat.min (Z.to_nat n) (length c).
Proof.
  unfold most_common. destruct (Z.leb_spec n 0) as [Hn|Hn].
  - exists (sorted_desc c). simpl. repeat split; [apply sorted_desc_perm|].
    replace (Z.to_nat n) with O by lia. reflexivity.
  - exists (skipn (Z.to_nat n) (sorted_desc c)).
    rewrite firstn_skipn. repeat split; [apply sorted_desc_perm|lia|].
    rewrite length_firstn. f_equal.
    apply Permutation_length, sorted_desc_perm.
Qed.

(** Characterisation of [most_common n] on a counter filled from [toks]. *)
Lemma most_common_count_spec (toks : list K) (n : Z) :
  let r := most_common n (count_into [] toks) in
  NoDup (keys r) /\
  (forall k v, In (k, v) r -> In k toks /\ v = occurrences toks k) /\
  StronglySorted (ranks_before toks) r /\
  (forall k, In k toks -> ~ In k (keys r) ->
             forall x, In x r -> ranks_before toks x (k, occurrences toks k)) /\
  length r = Nat.min (Z.to_nat n) (length (nodup eq_dec toks)).
Proof.
  intros r. subst r.
  destruct (count_into_spec toks) as (Hnd & Hin & Hget & Hord).
  set (c := count_into [] toks) in *.
  destruct (most_common_split n c) as (rest & Hperm & Hsort & _ & Hlen).
  set (r := most_common n c) in *.
  assert (Hsorted : StronglySorted (ranks_before toks) (r ++ rest)).
  { rewrite Hsort.
    apply (sorted_desc_sorted (fun x y => first_before toks (fst x) (fst y))).
    now apply StronglySorted_map. }
  apply StronglySorted_app_inv in Hsorted. destruct Hsorted as (Hr & _ & Hcut).
  assert (Hkeys : Permutation (keys r ++ keys rest) (keys c)).
  { unfold keys. rewrite <- map_app. now apply Permutation_map. }
  assert (Hnd' : NoDup (keys r ++ keys rest)).
  { eapply Permutation_NoDup; [symmetry; exact Hkeys|exact Hnd]. }
  assert (Hentry : forall k v, In (k, v) (r ++ rest) ->
                               In k toks /\ v = occurrences toks k).
  { intros k v Hkv. apply (Permutation_in _ Hperm) in Hkv. split.
    - apply Hin. change k with (fst (k, v)). now apply in_map.
    - rewrite <- Hget. symmetry. now apply get_in. }
  repeat split.
  - now apply NoDup_app_remove_r in Hnd'.
  - apply (Hentry k v). apply in_or_app. now left.
  - apply (Hentry k v). apply in_or_app. now left.
  - exact Hr.
  - intros k Hk Hnk x Hx.
    assert (Hk' : In k (keys r ++ keys rest)).
    { apply (Permutation_in _ (Permutation_sym Hkeys)). now apply Hin. }
    apply in_app_or in Hk'. destruct Hk' as [Hk'|Hk']; [tauto|].
    unfold keys in Hk'. apply in_map_iff in Hk'.
    destruct Hk' as ([k' v] & <- & Hkv). simpl.
    assert (v = occurrences toks k') as <-.
    { apply (Hentry k' v). apply in_or_app. now right. }
    now apply Hcut.
  - rewrite Hlen. f_equal.
    rewrite <- (length_map fst c). change (map fst c) with (keys c).
    apply Permutation_length, NoDup_Permutation;
      [exact Hnd|apply NoDup_nodup|].
    intros k. rewrite Hin, nodup_In. tauto.
Qed.
End MostCommon.

(* ----------------------------------------------------------------- *)
(** *** [top_words] and [top_emojis] *)

Lemma fold_count_into {K} `{EqDec K} {A} (f : A -> list K) l c :
  fold_left (fun counter x => count_into counter (f x)) l c =
  count_into c (flat_map f l).
Proof.
  revert c. induction l as [|x l IH]; intros c; simpl; [reflexivity|].
  rewrite IH, count_into_app. reflexivity.
Qed.

Lemma top_words_eq `{UnicodeDB} messages n :
  top_words messages n = most_common n (count_into [] (words_of messages)).
Proof. unfold top_words, words_of. now rewrite fold_count_into. Qed.

Lemma top_emojis_eq messages n :
  top_emojis messages n = most_common n (count_into [] (emojis_of messages)).
Proof. unfold top_emojis, emojis_of. now rewrite fold_count_into. Qed.

(** C2. For every message sequence and every [n], [top_words] and
    [top_emojis] return the top [n] items by descending count, ties among
    equal counts being broken by first-encountered order during counting. *)
Theorem top_n_descending_first_seen (U : UnicodeDB) (messages : list Message)
    (n : Z) :
  top_n_of (words_of messages) n (top_words messages n) /\
  top_n_of (emojis_of messages) n (top_emojis messages n).
Proof.
  rewrite top_words_eq, top_emojis_eq.
  split; apply most_common_count_spec.
Qed.

Lemma top_n_all {K} `{EqDec K} (toks : list K) n r :
  top_n_of toks n r -> Z.of_nat (length (nodup eq_dec toks)) <= n ->
  length r = length (nodup eq_dec toks) /\
  forall k, In k toks -> In (k, occurrences toks k) r.
Proof.
  intros (Hnd & Hentry & _ & _ & Hlen) Hn.
  assert (Hlen' : length r = length (nodup eq_dec toks)) by lia.
  split; [exact Hlen'|].
  assert (Hincl : incl (keys r) (nodup eq_dec toks)).
  { intros k Hk. apply nodup_In. unfold keys in Hk. apply in_map_iff in Hk.
    destruct Hk as ([k' v] & <- & Hkv). now apply (Hentry k' v). }
  assert (Hback : incl (nodup eq_dec toks) (keys r)).
  { apply NoDup_length_incl; [exact Hnd| |exact Hincl].
    unfold keys. rewrite length_map. lia. }
  intros k Hk. assert (Hkr : In k (keys r)) by (apply Hback; now apply nodup_In).
  unfold keys in Hkr. apply in_map_iff in Hkr.
  destruct Hkr as ([k' v] & <- & Hkv). simpl.
  destruct (Hentry k' v Hkv) as [_ ->]. exact Hkv.
Qed.

(** C7. With [n <= 0] the result of [top_words] / [top_emojis] is empty; with
    no more than [n] distinct items, every distinct item is returned with its
    count; on the empty message sequence every aggregate is empty. *)
Theorem top_n_edge_cases (U : UnicodeDB) (messages : list Message) (n : Z) :
  (n <= 0 -> top_words messages n = [] /\ top_emojis messages n = []) /\
  (Z.of_nat (length (nodup eq_dec (words_of messages))) <= n ->
   length (top_words messages n) = length (nodup eq_dec (words_of messages)) /\
   forall w, In w (words_of messages) ->
             In (w, occurrences (words_of messages) w) (top_words messages n)) /\
  (Z.of_nat (length (nodup eq_dec (emojis_of messages))) <= n ->
   length (top_emojis messages n) = length (nodup eq_dec (emojis_of messages)) /\
   forall e, In e (emojis_of messages) ->
             In (e, occurrences (emojis_of messages) e) (top_emojis messages n)) /\
  (message_counts [] = [] /\ messages_by_day [] = [] /\
   messages_by_hour [] = [] /\ messages_by_weekday [] = [] /\
   top_words [] n = [] /\ top_emojis [] n = []).
Proof.
  assert (Hw : top_n_of (words_of messages) n (top_words messages n)).
  { rewrite top_words_eq. apply most_common_count_spec. }
  assert (He : top_n_of (emojis_of messages) n (top_emojis messages n)).
  { rewrite top_emojis_eq. apply most_common_count_spec. }
  repeat split.
  - rewrite top_words_eq. now apply most_common_nonpos.
  - rewrite top_emojis_eq. now apply most_common_nonpos.
  - now apply (top_n_all _ n).
  - now apply (top_n_all _ n).
  - now apply (top_n_all _ n).
  - now apply (top_n_all _ n).
  - unfold top_words, most_common. simpl.
    destruct (n <=? 0); [reflexivity|apply firstn_nil].
  - unfold top_emojis, most_common. simpl.
    destruct (n <=? 0); [reflexivity|apply firstn_nil].
Qed.

Lemma top_n_edge_cases_witness :
  top_words (H:=ascii_only) two_hours 0 = [] /\
  length (top_words (H:=ascii_only) two_hours 5) = 2%nat.
Proof.
  pose proof (top_n_edge_cases ascii_only two_hours 0) as (H0 & _).
  pose proof (top_n_edge_cases ascii_only two_hours 5) as (_ & H5 & _).
  split.
  - apply H0. lia.
  - apply H5. vm_compute. discriminate.
Defined.

(* ----------------------------------------------------------------- *)
(** *** Peak hour and peak weekday *)

Lemma fold_incr_map {K} `{EqDec K} {A} (f : A -> K) l c :
  fold_left (fun counts x => incr (f x) counts) l c = count_into c (map f l).
Proof.
  revert c. induction l as [|x l IH]; intros c; simpl; [reflexivity|].
  now rewrite IH.
Qed.

Lemma in_get {K} `{EqDec K} k (c : list (K * Z)) :
  In k (keys c) -> In (k, get k c) c.
Proof.
  induction c as [|[k' v] c IH]; simpl; [tauto|].
  intros Hin. destruct (eq_dec k' k) as [->|N]; [now left|].
  right. apply IH. destruct Hin; [congruence|assumption].
Qed.

Section FirstMaximum.
Context {K : Type}.
Variable R : K * Z -> K * Z -> Prop.

Lemma max_by_count_spec l : forall best,
  (forall y, In y l -> R best y) -> StronglySorted R l ->
  let m := max_by_count best l in
  (m = best \/ (In m l /\ snd best < snd m)) /\
  (forall y, In y l -> y = m \/ by_count_then R m y).
Proof.
  induction l as [|x l IH]; intros best Hbest Hs; simpl.
  - split; [now left|tauto].
  - inversion Hs as [|? ? Hs' Hf]; subst. rewrite Forall_forall in Hf.
    destruct (Z.ltb_spec (snd best) (snd x)) as [Hlt|Hge].
    + destruct (IH x Hf Hs') as [Ha Hb].
      set (m := max_by_count x l) in *. split.
      * right. destruct Ha as [->|[Hin Hm]]; [split; [now left|lia]|].
        split; [now right|lia].
      * intros y [<-|Hy]; [|now apply Hb].
        destruct Ha as [->|[_ Hm]]; [now left|]. right. now left.
    + destruct (IH best (fun y Hy => Hbest y (or_intror Hy)) Hs') as [Ha Hb].
      set (m := max_by_count best l) in *. split.
      * destruct Ha as [->|[Hin Hm]]; [now left|]. right. split; [now right|lia].
      * intros y [<-|Hy]; [|now apply Hb].
        right. destruct Ha as [->|[_ Hm]].
        -- destruct (Z.eq_dec (snd x) (snd best)) as [E|N].
           ++ right. split; [now symmetry|]. apply Hbest. now left.
           ++ left. lia.
        -- left. lia.
Qed.
End FirstMaximum.

(** The key selected by [max(counts.items(), key=count)[0]] on a counter
    filled from a non-empty stream: it occurs in the stream and ranks before
    every other key (larger count, or equal count and seen first). *)
Lemma argmax_count_spec {K} `{EqDec K} (toks : list K) (d : K) :
  toks <> [] ->
  let p := argmax_count d (count_into [] toks) in
  In p toks /\
  forall k, In k toks -> k = p \/
    ranks_before toks (p, occurrences toks p) (k, occurrences toks k).
Proof.
  intros Hne. destruct (count_into_spec toks) as (Hnd & Hin & Hget & Hord).
  set (c := count_into [] toks) in *.
  assert (Hc : c <> []).
  { destruct toks as [|t toks]; [congruence|]. intros Hc.
    assert (Ht : In t (keys c)) by (apply Hin; now left).
    rewrite Hc in Ht. exact Ht. }
  destruct c as [|x rest] eqn:Ec; [congruence|]. simpl.
  apply StronglySorted_map in Hord.
  inversion Hord as [|? ? Hs' Hf]; subst. rewrite Forall_forall in Hf.
  destruct (max_by_count_spec _ rest x Hf Hs') as [Ha Hb].
  set (m := max_by_count x rest) in *.
  assert (Hm : In m (x :: rest)).
  { destruct Ha as [->|[Hm _]]; [now left|now right]. }
  assert (Hsnd : forall y, In y (x :: rest) -> snd y = occurrences toks (fst y)).
  { intros [k v] Hy. simpl. rewrite <- Hget. symmetry. now apply get_in. }
  split.
  - apply Hin. unfold keys. now apply in_map.
  - intros k Hk. apply Hin in Hk. apply in_get in Hk.
    set (y := (k, get k (x :: rest))) in *.
    assert (Hy : y = m \/ by_count_then
                   (fun a b => first_before toks (fst a) (fst b)) m y).
    { destruct Hk as [Hk|Hk]; [|now apply Hb].
      rewrite <- Hk. destruct Ha as [->|[_ Hlt]]; [now left|]. right. now left. }
    destruct Hy as [Hy|Hy]; [left; now rewrite <- Hy|]. right.
    unfold ranks_before; simpl. rewrite <- (Hsnd m Hm).
    replace (occurrences toks k) with (snd y); [exact Hy|]. now apply Hsnd.
Qed.

(** C1, as stated, fails: with one message at 21h followed by one at 10h the
    two hours tie and the engine selects 21, the hour seen first. *)
Lemma peak_hour_not_smallest :
  peak_hour_of two_hours = 21 /\
  ~ smallest_max_key (messages_by_hour two_hours) (peak_hour_of two_hours).
Proof.
  split; [reflexivity|].
  intros [_ Hmin]. specialize (Hmin 10 eq_refl). vm_compute in Hmin.
  now apply Hmin.
Qed.

(** C1, amended. On a non-empty message sequence the selected peak hour is an
    hour of maximal per-hour count, ties going to the hour whose first message
    comes earliest in the sequence; likewise for the peak weekday. *)
Theorem peak_is_first_seen_max (msgs : list Message) :
  msgs <> [] ->
  (In (peak_hour_of msgs) (hours_of msgs) /\
   forall h, In h (hours_of msgs) -> h = peak_hour_of msgs \/
     ranks_before (hours_of msgs)
       (peak_hour_of msgs, occurrences (hours_of msgs) (peak_hour_of msgs))
       (h, occurrences (hours_of msgs) h)) /\
  (In (peak_weekday_of msgs) (weekdays_of msgs) /\
   forall d, In d (weekdays_of msgs) -> d = peak_weekday_of msgs \/
     ranks_before (weekdays_of msgs)
       (peak_weekday_of msgs, occurrences (weekdays_of msgs) (peak_weekday_of msgs))
       (d, occurrences (weekdays_of msgs) d)).
Proof.
  intros Hne. unfold peak_hour_of, peak_weekday_of, messages_by_hour,
    messages_by_weekday. rewrite !fold_incr_map. split.
  - apply (argmax_count_spec (hours_of msgs) 0).
    unfold hours_of. destruct msgs; [congruence|discriminate].
  - apply (argmax_count_spec (weekdays_of msgs) 0).
    unfold weekdays_of. destruct msgs; [congruence|discriminate].
Qed.

Lemma peak_is_first_seen_max_witness :
  two_hours <> [] /\
  In (peak_hour_of two_hours) (hours_of two_hours).
Proof.
  split; [discriminate|].
  apply (peak_is_first_seen_max two_hours). discriminate.
Defined.

(* ----------------------------------------------------------------- *)
(** *** The lines of the roast *)

Lemma runs_aux_nonempty p s : forall cur,
  Forall (fun r => r <> []) (runs_aux p cur s).
Proof.
  induction s as [|c s IH]; intros cur; simpl.
  - destruct cur as [|a cur]; constructor; [|constructor].
    simpl. intros E. now apply app_eq_nil in E as [_ E].
  - destruct (p c); [apply IH|].
    destruct cur as [|a cur]; [apply IH|]. constructor; [|apply IH].
    simpl. intros E. now apply app_eq_nil in E as [_ E].
Qed.

Lemma emojis_of_nonempty msgs e : In e (emojis_of msgs) -> e <> [].
Proof.
  unfold emojis_of. rewrite in_flat_map. intros (m & _ & He).
  pose proof (runs_aux_nonempty is_emoji (text m) []) as Hf.
  rewrite Forall_forall in Hf. now apply Hf.
Qed.

Lemma words_of_nonempty `{UnicodeDB} msgs w : In w (words_of msgs) -> w <> [].
Proof.
  unfold words_of. rewrite in_flat_map. intros (m & _ & Hw).
  unfold extract_words in Hw. apply filter_In in Hw. destruct Hw as [Hw _].
  pose proof (runs_aux_nonempty is_word_char (lower (text m)) []) as Hf.
  rewrite Forall_forall in Hf. now apply Hf.
Qed.

(** [most_common 1] on a counter filled from a stream: empty exactly when the
    stream is empty, else a single entry whose key is in the stream. *)
Lemma most_common_one {K} `{EqDec K} (toks : list K) :
  (toks = [] /\ most_common 1 (count_into [] toks) = []) \/
  (toks <> [] /\ exists k, In k toks /\
     most_common 1 (count_into [] toks) = [(k, occurrences toks k)]).
Proof.
  destruct (most_common_count_spec toks 1) as (_ & Hentry & _ & _ & Hlen).
  destruct toks as [|t toks]; [left; split; reflexivity|right].
  split; [discriminate|].
  set (r := most_common 1 (count_into [] (t :: toks))) in *.
  assert (Hd : nodup eq_dec (t :: toks) <> []).
  { intros E. assert (Ht : In t (nodup eq_dec (t :: toks))).
    { apply nodup_In. now left. }
    rewrite E in Ht. exact Ht. }
  destruct (nodup eq_dec (t :: toks)) as [|a l]; [congruence|].
  simpl in Hlen. destruct r as [|[k v] [|y r]]; simpl in Hlen; try discriminate.
  destruct (Hentry k v (or_introl eq_refl)) as [Hk ->].
  exists k. split; [exact Hk|reflexivity].
Qed.

Lemma last_app_nonnil {A} (a b : list A) d : b <> [] -> last (a ++ b) d = last b d.
Proof.
  intros Hb. induction a as [|x a IH]; [reflexivity|].
  simpl. destruct (a ++ b) eqn:E; [|exact IH].
  apply app_eq_nil in E. tauto.
Qed.

Lemma join_snoc_last sep (ls : list str) (x : str) d :
  x <> [] -> last (join sep (ls ++ [x])) d = last x d.
Proof.
  intros Hx. induction ls as [|a ls IH]; [reflexivity|].
  assert (Hne : ls ++ [x] <> []) by (destruct ls; discriminate).
  change ((a :: ls) ++ [x]) with (a :: (ls ++ [x])).
  destruct (ls ++ [x]) as [|b rest] eqn:E; [congruence|].
  change (join sep (a :: b :: rest)) with (a ++ sep ++ join sep (b :: rest)).
  assert (Hj : join sep (b :: rest) <> []).
  { intros Ej. rewrite Ej in IH. simpl in IH.
    destruct x; [congruence|]. clear - IH Hx E Ej.
    assert (In (n :: x) (b :: rest)).
    { rewrite <- E. apply in_or_app. right. now left. }
    clear E. revert b H Ej. induction rest as [|c rest IHr]; intros b Hin Ej.
    - destruct Hin as [->|[]]. discriminate.
    - change (join sep (b :: c :: rest)) with (b ++ sep ++ join sep (c :: rest)) in Ej.
      apply app_eq_nil in Ej. destruct Ej as [-> Ej].
      apply app_eq_nil in Ej. destruct Ej as [_ Ej].
      destruct Hin as [Hin|Hin]; [discriminate|]. now apply (IHr c). }
  rewrite app_assoc, last_app_nonnil by exact Hj. exact IH.
Qed.

Ltac template_end :=
  match goal with
  | |- ends_without_break (?a ++ ?b) =>
      let rec go :=
        (repeat rewrite app_assoc);
        match goal with
        | |- ends_without_break (?x ++ ?lit) =>
            split;
            [ intros E; apply app_eq_nil in E; destruct E as [_ E];
              vm_compute in E; discriminate
            | rewrite last_app_nonnil by (intros E; vm_compute in E; discriminate);
              vm_compute; discriminate ]
        end in go
  end.

Lemma talkative_line_end lvl s p : ends_without_break (talkative_line lvl s p).
Proof. unfold talkative_line. repeat destruct (str_eqb _ _); template_end. Qed.

Lemma silent_line_end lvl s p : ends_without_break (silent_line lvl s p).
Proof. unfold silent_line. repeat destruct (str_eqb _ _); template_end. Qed.

Lemma peak_line_end lvl h d : ends_without_break (peak_line lvl h d).
Proof. unfold peak_line. repeat destruct (str_eqb _ _); template_end. Qed.

Lemma emoji_line_end lvl e c : ends_without_break (emoji_line lvl e c).
Proof. unfold emoji_line. repeat destruct (str_eqb _ _); template_end. Qed.

Lemma word_line_end lvl w c : ends_without_break (word_line lvl w c).
Proof. unfold word_line. repeat destruct (str_eqb _ _); template_end. Qed.

Lemma join_in_nonnil sep (ls : list str) (x : str) :
  In x ls -> x <> [] -> join sep ls <> [].
Proof.
  induction ls as [|a ls IH]; [tauto|].
  intros Hin Hx. destruct ls as [|b rest].
  - destruct Hin as [->|[]]. exact Hx.
  - change (join sep (a :: b :: rest)) with (a ++ sep ++ join sep (b :: rest)).
    intros E. apply app_eq_nil in E. destruct E as [-> E].
    apply app_eq_nil in E. destruct E as [_ E].
    destruct Hin as [<-|Hin]; [congruence|]. now apply IH.
Qed.

Lemma join_snoc_end sep (ls : list str) (x : str) :
  ends_without_break x -> ends_without_break (join sep (ls ++ [x])).
Proof.
  intros [Hx Hl]. split.
  - apply (join_in_nonnil sep _ x); [|exact Hx]. apply in_or_app. right. now left.
  - now rewrite join_snoc_last.
Qed.

Lemma normalize_level_cases `{UnicodeDB} level :
  In (normalize_level level) [cps "mild"; cps "medium"; cps "savage"].
Proof.
  unfold normalize_level.
  destruct (mem (lower level) [cps "mild"; cps "medium"; cps "savage"]) eqn:E;
    simpl; [|right; now left].
  unfold mem in E. apply existsb_exists in E. destruct E as (y & Hy & Heq).
  destruct (eq_dec y (lower level)) as [<-|]; [exact Hy|discriminate].
Qed.

(** C6, as stated, fails on the number of lines: a chat with one emoji and
    one counted word yields five lines (four line breaks), not four. *)
Lemma roast_has_five_lines :
  length (roast_lines (H:=ascii_only) emoji_and_word (cps "medium")) = 5%nat /\
  count_occ N.eq_dec
    (generate_roast (H:=ascii_only) emoji_and_word (cps "medium")) 10%N = 4%nat.
Proof. split; vm_compute; reflexivity. Qed.

(** C6, amended. For a non-empty message sequence [generate_roast] composes,
    from the templates of the normalised level, the top-sender line, the
    bottom-sender line and the peak-time line, then the emoji line unless no
    emoji exists and the word line unless no word survives the stop-word
    filter, and returns these three to five lines joined by single line
    breaks, with no line break at the end. *)
Theorem roast_lines_structure (U : UnicodeDB) (msgs : list Message) (level : str) :
  msgs <> [] ->
  let lvl := normalize_level level in
  In lvl [cps "mild"; cps "medium"; cps "savage"] /\
  (exists top_sender top_pct bottom_sender bottom_pct hour_str day_name E W,
     generate_roast msgs level =
       join [10%N]
         ([talkative_line lvl top_sender top_pct;
           silent_line lvl bottom_sender bottom_pct;
           peak_line lvl hour_str day_name] ++ E ++ W) /\
     optional_line (emojis_of msgs) (top_emojis msgs 1) (emoji_line lvl) E /\
     optional_line (words_of msgs) (top_words msgs 1) (word_line lvl) W) /\
  ends_without_break (generate_roast msgs level).
Proof.
  intros Hne lvl. split; [apply normalize_level_cases|].
  assert (Hgen : generate_roast msgs level = join [10%N] (roast_lines msgs lvl)).
  { unfold generate_roast. destruct msgs; [congruence|reflexivity]. }
  rewrite Hgen. unfold roast_lines.
  destruct (hd ([], 0) (sorted_desc (message_counts msgs))) as [ts tc].
  destruct (last (sorted_desc (message_counts msgs)) ([], 0)) as [bs bc].
  set (l1 := talkative_line lvl ts _). set (l2 := silent_line lvl bs _).
  set (l3 := peak_line lvl _ _).
  set (E := match top_emojis msgs 1 with
            | [] => []
            | (top_emoji, emoji_count) :: _ =>
                match top_emoji with [] => [] | _ => [emoji_line lvl top_emoji emoji_count] end
            end).
  set (W := match top_words msgs 1 with
            | [] => []
            | (top_word, word_count) :: _ =>
                match top_word with [] => [] | _ => [word_line lvl top_word word_count] end
            end).
  assert (HE : optional_line (emojis_of msgs) (top_emojis msgs 1) (emoji_line lvl) E).
  { subst E. rewrite top_emojis_eq.
    destruct (most_common_one (emojis_of msgs)) as [[E0 ->]|[_ (k & Hk & ->)]].
    - left. auto.
    - right. exists k. repeat split; auto.
      destruct k; [now apply emojis_of_nonempty in Hk|reflexivity]. }
  assert (HW : optional_line (words_of msgs) (top_words msgs 1) (word_line lvl) W).
  { subst W. rewrite top_words_eq.
    destruct (most_common_one (words_of msgs)) as [[E0 ->]|[_ (k & Hk & ->)]].
    - left. auto.
    - right. exists k. repeat split; auto.
      destruct k; [now apply words_of_nonempty in Hk|reflexivity]. }
  split.
  - exists ts, (_percentage tc (Z.of_nat (length msgs))), bs,
      (_percentage bc (Z.of_nat (length msgs))),
      (_format_hour (peak_hour_of msgs)),
      (dict_get _WEEKDAY_NAMES (peak_weekday_of msgs) (cps "Unknown day")), E, W.
    repeat split; assumption.
  - destruct HW as [(_ & _ & ->)|(w & _ & _ & ->)].
    + destruct HE as [(_ & _ & ->)|(e & _ & _ & ->)].
      * change ([l1; l2; l3] ++ [] ++ []) with ([l1; l2] ++ [l3]).
        apply join_snoc_end, peak_line_end.
      * change ([l1; l2; l3] ++ [emoji_line lvl e (occurrences (emojis_of msgs) e)] ++ [])
          with ([l1; l2; l3] ++ [emoji_line lvl e (occurrences (emojis_of msgs) e)]).
        apply join_snoc_end, emoji_line_end.
    + rewrite app_assoc. apply join_snoc_end, word_line_end.
Qed.

Lemma roast_lines_structure_witness :
  emoji_and_word <> [] /\
  ends_without_break (generate_roast (H:=ascii_only) emoji_and_word (cps "medium")).
Proof.
  split; [discriminate|].
  apply (roast_lines_structure ascii_only emoji_and_word (cps "medium")).
  discriminate.
Defined.

(* ----------------------------------------------------------------- *)
(** *** A chat with a single sender *)

Lemma rne_div_exact q b : 0 < b -> rne_div (q * b) b = q.
Proof.
  intros Hb. unfold rne_div.
  rewrite Z.div_mul, Z.mod_mul by lia.
  destruct (Z.ltb_spec (2 * 0) b); [reflexivity|lia].
Qed.

Lemma round53_self n : 0 < n -> round53 n n = mkfloat (2 ^ 52) (-52).
Proof.
  intros Hn. unfold round53. rewrite Z.sub_diag.
  assert (Hs : scaled_le n 0 n = true).
  { unfold scaled_le. change (0 <=? 0) with true. cbv iota.
    rewrite Z.pow_0_r, Z.mul_1_r. apply Z.leb_refl. }
  rewrite Hs. cbv zeta. change (0 - 52) with (-52).
  change (0 <=? -52) with false. cbv iota.
  change (- -52) with 52. rewrite (Z.mul_comm n), rne_div_exact by exact Hn.
  reflexivity.
Qed.

Lemma percentage_whole n : 0 < n -> _percentage n n = 100.
Proof.
  intros Hn. unfold _percentage, int_truediv, float_of_ratio.
  destruct (Z.eqb_spec n 0) as [E|_]; [lia|].
  rewrite Z.abs_eq, round53_self by lia.
  rewrite Z.sgn_pos by lia. reflexivity.
Qed.

Lemma message_counts_single (s : str) (msgs : list Message) :
  msgs <> [] -> (forall m, In m msgs -> sender m = s) ->
  message_counts msgs = [(s, Z.of_nat (length msgs))].
Proof.
  intros Hne Hall. unfold message_counts.
  destruct msgs as [|m0 msgs]; [congruence|]. simpl fold_left.
  rewrite (Hall m0 (or_introl eq_refl)).
  assert (Hgen : forall l k, (forall m, In m l -> sender m = s) ->
            fold_left (fun counts msg => incr (sender msg) counts) l [(s, k)]
            = [(s, k + Z.of_nat (length l))]).
  { induction l as [|m l IH]; intros k Hl; simpl fold_left.
    - simpl. now rewrite Z.add_0_r.
    - rewrite (Hl m (or_introl eq_refl)). simpl incr.
      destruct (eq_dec s s) as [_|N]; [|congruence].
      rewrite IH by (intros m' Hm'; apply Hl; now right).
      f_equal. f_equal. simpl length. lia. }
  rewrite Hgen by (intros m Hm; apply Hall; now right).
  f_equal. f_equal. simpl length. lia.
Qed.

(** C10. When every message of a non-empty sequence has the same sender,
    [generate_roast] names that sender in both the top-sender line and the
    bottom-sender line, each with percentage 100. *)
Theorem single_sender_roast (U : UnicodeDB) (msgs : list Message) (level s : str) :
  msgs <> [] -> (forall m, In m msgs -> sender m = s) ->
  exists rest,
    generate_roast msgs level =
      join [10%N] (talkative_line (normalize_level level) s 100
                   :: silent_line (normalize_level level) s 100 :: rest).
Proof.
  intros Hne Hall.
  assert (Hgen : generate_roast msgs level
                 = join [10%N] (roast_lines msgs (normalize_level level))).
  { unfold generate_roast. destruct msgs; [congruence|reflexivity]. }
  rewrite Hgen. unfold roast_lines.
  rewrite (message_counts_single s msgs Hne Hall). simpl sorted_desc.
  simpl hd. simpl last. cbv beta iota.
  rewrite percentage_whole by (destruct msgs; [congruence|simpl; lia]).
  eexists. reflexivity.
Qed.

Lemma single_sender_roast_witness :
  exists rest,
    generate_roast (H:=ascii_only) alice_twice (cps "savage") =
      join [10%N] (talkative_line (normalize_level (H:=ascii_only) (cps "savage")) (cps "Alice") 100
                   :: silent_line (normalize_level (H:=ascii_only) (cps "savage")) (cps "Alice") 100
                   :: rest).
Proof.
  apply (single_sender_roast ascii_only alice_twice (cps "savage") (cps "Alice")).
  - discriminate.
  - intros m [<-|[<-|[]]]; reflexivity.
Defined.

(* ----------------------------------------------------------------- *)
(** *** [_percentage]: rounding of the double-precision product *)

Lemma rne_div_near a b : 0 <= a -> 0 < b ->
  0 <= rne_div a b /\ 2 * Z.abs (rne_div a b * b - a) <= b.
Proof.
  intros Ha Hb. unfold rne_div.
  pose proof (Z.div_mod a b ltac:(lia)) as Hdm.
  pose proof (Z.mod_pos_bound a b Hb) as Hr.
  pose proof (Z.div_pos a b Ha Hb) as Hq.
  set (q := a / b) in *. set (r := a mod b) in *.
  destruct (Z.ltb_spec (2 * r) b); [split; [lia|]; nia|].
  destruct (Z.ltb_spec b (2 * r)); [split; [lia|]; nia|].
  destruct (Z.even q); split; try lia; nia.
Qed.

Lemma log2_diff_le n d K :
  0 < n -> 0 < d -> 0 <= K -> n < 2 ^ K * d -> Z.log2 n - Z.log2 d <= K.
Proof.
  intros Hn Hd HK Hlt.
  destruct (Z.log2_spec n Hn) as [Hn1 _].
  destruct (Z.log2_spec d Hd) as [_ Hd2].
  pose proof (Z.log2_nonneg d) as HM.
  destruct (Z_le_gt_dec (Z.log2 n - Z.log2 d) K) as [|Hgt]; [assumption|exfalso].
  assert (Hpow : 2 ^ (K + Z.succ (Z.log2 d)) <= 2 ^ Z.log2 n).
  { apply Z.pow_le_mono_r; lia. }
  rewrite Z.pow_add_r in Hpow by lia.
  assert (0 < 2 ^ K) by (apply Z.pow_pos_nonneg; lia).
  nia.
Qed.

(** Rounding to binary64 of a quotient below [2^K]: the result is
    [m / 2^E] with [E] large and within half a unit in the last place. *)
Lemma round53_err n d K :
  0 < n -> 0 < d -> 0 <= K <= 50 -> n < 2 ^ K * d ->
  exists m E, round53 n d = mkfloat m (- E) /\ 51 - K <= E /\ 0 <= m /\
              2 * Z.abs (m * d - n * 2 ^ E) <= d.
Proof.
  intros Hn Hd HK Hlt. unfold round53.
  pose proof (log2_diff_le n d K Hn Hd ltac:(lia) Hlt) as Hk.
  set (k := Z.log2 n - Z.log2 d) in *.
  set (b := if scaled_le d k n then k else k - 1).
  assert (Hb : b <= K) by (subst b; destruct (scaled_le d k n); lia).
  cbv zeta. destruct (Z.leb_spec 0 (b - 52)) as [|He]; [lia|].
  set (E := - (b - 52)) in *.
  assert (HE : 52 - K <= E) by (subst E; lia).
  assert (HpE : 0 < 2 ^ E) by (apply Z.pow_pos_nonneg; lia).
  destruct (rne_div_near (n * 2 ^ E) d ltac:(nia) Hd) as [Hm0 Hm].
  set (m := rne_div (n * 2 ^ E) d) in *.
  destruct (Z.eqb_spec m (2 ^ 53)) as [E53|N53].
  - exists (2 ^ 52), (E - 1). repeat split.
    + f_equal. subst E. lia.
    + lia.
    + apply Z.pow_nonneg. lia.
    + assert (H2 : 2 ^ E = 2 * 2 ^ (E - 1)).
      { replace E with (Z.succ (E - 1)) at 1 by lia.
        apply Z.pow_succ_r. lia. }
      rewrite E53, H2 in Hm. change (2 ^ 53) with (2 * 2 ^ 52) in Hm. lia.
  - exists m, E. repeat split; try lia.
    f_equal. subst E. lia.
Qed.

(** Three successive roundings, each within half a unit of its scale, land
    on an integer nearest to [100 * p / w]. *)
Lemma nearest_from_errors_gen c w p r m1 m2 A B :
  0 < w <= c -> 800 * c <= A -> 16 * c <= B ->
  2 * Z.abs (m1 * w - p * A) <= w ->
  2 * Z.abs (m2 * A - 100 * m1 * B) <= A ->
  2 * Z.abs (r * B - m2) <= B ->
  2 * Z.abs (w * r - 100 * p) <= w.
Proof.
  intros Hw HA HB H1 H2 H3.
  set (d1 := m1 * w - p * A) in *. set (d2 := m2 * A - 100 * m1 * B) in *.
  set (d3 := r * B - m2) in *.
  assert (Hid : (w * r - 100 * p) * (A * B) = w * A * d3 + w * d2 + 100 * B * d1).
  { subst d1 d2 d3. ring. }
  set (D := w * r - 100 * p) in *.
  clearbody d1 d2 d3 D.
  assert (HA0 : 0 < A) by lia. assert (HB0 : 0 < B) by lia.
  assert (HAB : 0 < A * B) by (apply Z.mul_pos_pos; lia).
  assert (HwA : 0 < w * A) by (apply Z.mul_pos_pos; lia).
  assert (T1 : 2 * Z.abs (w * A * d3) <= w * A * B).
  { rewrite Z.abs_mul, (Z.abs_eq (w * A)) by lia.
    replace (2 * (w * A * Z.abs d3)) with (w * A * (2 * Z.abs d3)) by ring.
    apply Z.mul_le_mono_nonneg_l; lia. }
  assert (T2 : 2 * Z.abs (w * d2) <= w * A).
  { rewrite Z.abs_mul, (Z.abs_eq w) by lia.
    replace (2 * (w * Z.abs d2)) with (w * (2 * Z.abs d2)) by ring.
    apply Z.mul_le_mono_nonneg_l; lia. }
  assert (T3 : 2 * Z.abs (100 * B * d1) <= 100 * B * w).
  { rewrite Z.abs_mul, (Z.abs_eq (100 * B)) by lia.
    replace (2 * (100 * B * Z.abs d1)) with (100 * B * (2 * Z.abs d1)) by ring.
    apply Z.mul_le_mono_nonneg_l; lia. }
  assert (HT : 2 * Z.abs (D * (A * B)) <= w * A * B + w * A + 100 * B * w).
  { rewrite Hid.
    pose proof (Z.abs_triangle (w * A * d3 + w * d2) (100 * B * d1)).
    pose proof (Z.abs_triangle (w * A * d3) (w * d2)). lia. }
  rewrite Z.abs_mul, (Z.abs_eq (A * B)) in HT by lia.
  assert (S1 : 16 * (w * A) <= A * B).
  { replace (16 * (w * A)) with (A * (16 * w)) by ring.
    apply Z.mul_le_mono_nonneg_l; lia. }
  assert (S2 : 8 * (100 * B * w) <= A * B).
  { replace (8 * (100 * B * w)) with ((800 * w) * B) by ring.
    apply Z.mul_le_mono_nonneg_r; lia. }
  destruct (Z_le_gt_dec (2 * Z.abs D) w) as [|Hgt]; [assumption|exfalso].
  assert (HD : (w + 1) * (A * B) <= 2 * Z.abs D * (A * B)).
  { apply Z.mul_le_mono_nonneg_r; lia. }
  replace ((w + 1) * (A * B)) with (w * A * B + A * B) in HD by ring.
  replace (2 * Z.abs D * (A * B)) with (2 * (Z.abs D * (A * B))) in HD by ring.
  set (X := A * B) in *. set (Y := w * A) in *. set (V := 100 * B * w) in *.
  set (U := w * A * B) in *. set (Q := Z.abs D * X) in *.
  clearbody X Y V U Q. lia.
Qed.

Lemma float_of_ratio_pos n d : 0 < n -> 0 < d -> float_of_ratio n d = round53 n d.
Proof.
  intros Hn Hd. unfold float_of_ratio.
  destruct (Z.eqb_spec n 0); [lia|].
  rewrite !Z.abs_eq, !Z.sgn_pos by lia.
  destruct (round53 n d) as [m e]. cbn [fm fe]. now rewrite !Z.mul_1_l.
Qed.

Lemma float_round_near m E : 0 <= m -> 0 < E ->
  2 * Z.abs (float_round (mkfloat m (- E)) * 2 ^ E - m) <= 2 ^ E.
Proof.
  intros Hm HE. unfold float_round. cbn [fm fe].
  destruct (Z.leb_spec 0 (- E)); [lia|].
  rewrite Z.opp_involutive.
  assert (HpE : 0 < 2 ^ E) by (apply Z.pow_pos_nonneg; lia).
  destruct (Z.eq_dec m 0) as [->|Hne].
  - change (Z.sgn 0) with 0. rewrite !Z.mul_0_l. change (Z.abs (0 - 0)) with 0. lia.
  - rewrite Z.sgn_pos, (Z.abs_eq m), Z.mul_1_l by lia.
    now apply rne_div_near.
Qed.

Lemma percentage_zero_whole part : _percentage part 0 = 0.
Proof. reflexivity. Qed.

Lemma percentage_nearest part whole :
  0 <= part <= whole -> 0 < whole <= 2 ^ 40 ->
  2 * Z.abs (whole * _percentage part whole - 100 * part) <= whole.
Proof.
  intros Hp Hw. unfold _percentage.
  destruct (Z.eqb_spec whole 0); [lia|].
  destruct (Z.eq_dec part 0) as [->|Hp0].
  { change (float_round (float_mul_int (int_truediv 0 whole) 100)) with 0.
    rewrite Z.mul_0_r. change (Z.abs (0 - 100 * 0)) with 0. lia. }
  unfold int_truediv. rewrite float_of_ratio_pos by lia.
  destruct (round53_err part whole 1 ltac:(lia) ltac:(lia) ltac:(lia)
              ltac:(change (2 ^ 1) with 2; lia)) as (m1 & E1 & -> & HE1 & Hm1 & H1).
  assert (HA : 0 < 2 ^ E1) by (apply Z.pow_pos_nonneg; lia).
  assert (HA50 : 2 ^ 50 <= 2 ^ E1) by (apply Z.pow_le_mono_r; lia).
  unfold float_mul_int. cbn [fm fe].
  destruct (Z.leb_spec 0 (- E1)); [lia|]. rewrite Z.opp_involutive.
  set (A := 2 ^ E1) in *.
  assert (Hm1A : m1 <= A) by nia.
  destruct (Z.eq_dec m1 0) as [->|Hm1'].
  - simpl. change (2 ^ 50) with 1125899906842624 in HA50. nia.
  - rewrite float_of_ratio_pos by lia.
    destruct (round53_err (m1 * 100) A 7 ltac:(lia) ltac:(lia) ltac:(lia)
                ltac:(change (2 ^ 7) with 128; lia)) as (m2 & E2 & -> & HE2 & Hm2 & H2).
    assert (HB44 : 2 ^ 44 <= 2 ^ E2) by (apply Z.pow_le_mono_r; lia).
    pose proof (float_round_near m2 E2 Hm2 ltac:(lia)) as H3.
    set (r := float_round (mkfloat m2 (- E2))) in *. clearbody r.
    apply (nearest_from_errors_gen (2 ^ 40) whole part r m1 m2 A (2 ^ E2)).
    + exact Hw.
    + change (2 ^ 50) with (1024 * 2 ^ 40) in HA50. lia.
    + change (2 ^ 44) with (16 * 2 ^ 40) in HB44. lia.
    + exact H1.
    + replace (100 * m1 * 2 ^ E2) with (m1 * 100 * 2 ^ E2) by ring. exact H2.
    + exact H3.
Qed.

(** C3, as stated, fails: [1 / 8 * 100] is exactly 12.5 and [round] takes the
    half to the even neighbour 12, where rounding away from zero gives 13. *)
Lemma percentage_not_half_away :
  _percentage 1 8 = 12 /\ half_away_percentage 1 8 = 13.
Proof. split; reflexivity. Qed.

(** C3, amended. [_percentage part whole] is 0 when [whole] is zero (guarded,
    no division fault); for counts [0 <= part <= whole <= 2^40] it is an
    integer nearest to [part / whole * 100].  Where that quotient lies exactly
    halfway between two integers the result is one of the two neighbours, as
    decided by the double-precision product and round-half-to-even, not by
    rounding away from zero. *)
Theorem percentage_rounds_to_nearest (part whole : Z) :
  _percentage part 0 = 0 /\
  (0 <= part <= whole -> 0 < whole <= 2 ^ 40 ->
   2 * Z.abs (whole * _percentage part whole - 100 * part) <= whole) /\
  _percentage 1 8 = 12 /\ _percentage 3 8 = 38 /\ _percentage 23 40 = 57.
Proof.
  split; [reflexivity|]. split; [apply percentage_nearest|].
  repeat split; reflexivity.
Qed.

Lemma percentage_rounds_to_nearest_witness :
  2 * Z.abs (3 * _percentage 2 3 - 100 * 2) <= 3.
Proof.
  apply (percentage_rounds_to_nearest 2 3); [lia|].
  split; [lia|]. intros H. vm_compute in H. discriminate.
Defined.

(* ----------------------------------------------------------------- *)
(** *** The parsing loop *)

Lemma header_match_empty `{UnicodeDB} : header_match [] = None.
Proof. reflexivity. Qed.

Lemma header_lines_cons `{UnicodeDB} raw lines :
  header_lines (raw :: lines) =
  (if is_header (strip is_newline raw) then [strip is_newline raw] else [])
  ++ header_lines lines.
Proof.
  unfold header_lines, trimmed_lines. simpl.
  now destruct (is_header (strip is_newline raw)).
Qed.

Lemma parse_loop_ok `{UnicodeDB} lines : forall acc cur msgs,
  parse_loop lines acc cur = Ok msgs ->
  exists out rest, msgs = acc ++ out ++ rest /\ finalised cur out /\
                   Forall2 built_from rest (header_lines lines).
Proof.
  induction lines as [|raw lines IH]; intros acc cur msgs Hp.
  - simpl in Hp. destruct cur as [c|]; inversion Hp; subst.
    + exists [c], []. repeat split; [|constructor].
      exists c. repeat split. exists []. now rewrite app_nil_r.
    + exists [], []. rewrite !app_nil_r. repeat split. constructor.
  - rewrite header_lines_cons. unfold is_header.
    cbn [parse_loop] in Hp. cbv zeta in Hp.
    destruct (strip is_newline raw) as [|c0 line] eqn:El.
    + rewrite header_match_empty. simpl app. now apply IH.
    + destruct (header_match (c0 :: line)) as [g|] eqn:Eh.
      * destruct (_parse_timestamp (group_str "date" g) (group_str "time" g)
                    (group "ampm" g)) as [ts|e] eqn:Ets; [|discriminate].
        simpl bind in Hp. apply IH in Hp.
        destruct Hp as (out & rest & -> & (c' & -> & Hts & Hs & cont & Ht) & Hf).
        simpl in Hts, Hs, Ht.
        assert (Hb : built_from c' (c0 :: line)).
        { exists g. repeat split; [exact Eh|now rewrite Hts|exact Hs|].
          now exists cont. }
        destruct cur as [c|].
        -- exists [c], (c' :: rest). rewrite <- app_assoc. repeat split.
           ++ exists c. repeat split. exists []. now rewrite app_nil_r.
           ++ simpl. now constructor.
        -- exists [], (c' :: rest). repeat split. simpl. now constructor.
      * simpl app. destruct cur as [c|]; apply IH in Hp;
          destruct Hp as (out & rest & -> & Hfin & Hf).
        -- exists out, rest. repeat split; [|exact Hf].
           destruct Hfin as (c' & -> & Hts & Hs & cont & Ht). simpl in *.
           exists c'. repeat split; auto.
           exists (([10%N] ++ c0 :: line) ++ cont). now rewrite Ht, <- app_assoc.
        -- exists out, rest. repeat split; assumption.
Qed.

Lemma parse_loop_raise `{UnicodeDB} lines : forall acc cur,
  parse_loop lines acc cur = Raise ValueError <->
  Exists bad_header (trimmed_lines lines).
Proof.
  induction lines as [|raw lines IH]; intros acc cur.
  - simpl. split; [destruct cur; discriminate|intros Hex; inversion Hex].
  - unfold trimmed_lines. cbn [parse_loop map]. cbv zeta.
    fold (trimmed_lines lines).
    destruct (strip is_newline raw) as [|c0 line] eqn:El.
    + rewrite IH. split; [now right|].
      intros Hex. inversion Hex as [? ? (g & Hg & _)|]; subst; [|assumption].
      rewrite header_match_empty in Hg. discriminate.
    + destruct (header_match (c0 :: line)) as [g|] eqn:Eh.
      * destruct (_parse_timestamp (group_str "date" g) (group_str "time" g)
                    (group "ampm" g)) as [ts|[]] eqn:Ets; simpl bind.
        -- rewrite IH. split; [now right|].
           intros Hex. inversion Hex as [? ? (g' & Hg & Hbad)|]; subst;
             [|assumption].
           rewrite Eh in Hg. inversion Hg; subst. congruence.
        -- split; [|reflexivity]. intros _. left. now exists g.
      * assert (Hno : ~ bad_header (c0 :: line)).
        { intros (g & Hg & _). congruence. }
        destruct cur as [c|]; rewrite IH; (split; [now right|]);
          intros Hex; inversion Hex; subst; tauto.
Qed.

Lemma parse_loop_no_header `{UnicodeDB} lines :
  (forall line, In line (trimmed_lines lines) -> header_match line = None) ->
  parse_loop lines [] None = Ok [].
Proof.
  induction lines as [|raw lines IH]; intros Hall; [reflexivity|].
  cbn [parse_loop]. cbv zeta.
  assert (Hraw : header_match (strip is_newline raw) = None).
  { apply Hall. now left. }
  destruct (strip is_newline raw) as [|c0 line].
  - apply IH. intros l Hl. apply Hall. now right.
  - rewrite Hraw. apply IH. intros l Hl. apply Hall. now right.
Qed.

(** C5. For every export that parses, the number of records returned equals
    the number of lines matching the header pattern, and the records are in
    the order of those header lines: the i-th record is the one started by
    the i-th header line. *)
Theorem records_follow_header_lines (U : UnicodeDB) (content : str)
    (msgs : list Message) :
  parse_chat content = Ok msgs ->
  length msgs = length (header_lines (file_lines content)) /\
  Forall2 built_from msgs (header_lines (file_lines content)).
Proof.
  unfold parse_chat. intros Hp. apply parse_loop_ok in Hp.
  destruct Hp as (out & rest & -> & -> & Hf). simpl.
  split; [|exact Hf]. eapply Forall2_length; eassumption.
Qed.

Lemma records_follow_header_lines_witness :
  exists msgs, parse_chat (H:=ascii_only) scenario_a = Ok msgs /\
    length msgs = length (header_lines (H:=ascii_only) (file_lines scenario_a)).
Proof.
  eexists. split; [vm_compute; reflexivity|].
  apply (records_follow_header_lines ascii_only scenario_a).
  vm_compute. reflexivity.
Defined.

(** C8. If some line matches the header pattern but its date and time fail
    validation (for instance month 13), [parse_chat] raises and returns no
    partial list; conversely it raises only for such a line, so a line that
    does not match the header pattern is never an error. *)
Theorem invalid_header_is_fatal (U : UnicodeDB) (content : str) :
  (Exists bad_header (trimmed_lines (file_lines content)) ->
   parse_chat content = Raise ValueError) /\
  (forall e, parse_chat content = Raise e ->
             Exists bad_header (trimmed_lines (file_lines content))) /\
  ((forall line, In line (trimmed_lines (file_lines content)) ->
                 header_match line = None) ->
   parse_chat content = Ok []) /\
  parse_chat month_13 = Raise ValueError.
Proof.
  unfold parse_chat. repeat split.
  - apply parse_loop_raise.
  - intros []. apply parse_loop_raise.
  - apply parse_loop_no_header.
Qed.

Lemma invalid_header_is_fatal_witness :
  parse_chat (H:=ascii_only) month_13 = Raise ValueError.
Proof.
  apply (proj1 (invalid_header_is_fatal ascii_only month_13)).
  apply Exists_cons_tl, Exists_cons_hd.
  exists (match header_match (H:=ascii_only) (cps "13/1/24, 1:00 PM - Bob: Hello") with
          | Some g => g
          | None => []
          end).
  split; vm_compute; reflexivity.
Defined.

(* ----------------------------------------------------------------- *)
(** *** What a successful match says about the input *)

Lemma star_sound {A} p s (k : str -> option A) x :
  star p s k = Some x ->
  exists s1 rest, s = s1 ++ rest /\ forallb p s1 = true /\ k rest = Some x.
Proof.
  induction s as [|c s IH]; simpl; intros Hs.
  - exists [], []. auto.
  - destruct (p c) eqn:Ep.
    + destruct (star p s k) as [y|] eqn:Es.
      * inversion Hs; subst. destruct (IH eq_refl) as (s1 & rest & -> & Hf & Hk).
        exists (c :: s1), rest. simpl. rewrite Ep. auto.
      * exists [], (c :: s). auto.
    + exists [], (c :: s). auto.
Qed.

Lemma rmatch_sound {A} r : forall s g (k : str -> groups -> option A) x,
  rmatch r s g k = Some x ->
  exists s1 rest g', s = s1 ++ rest /\ Sem r s1 rest g g' /\ k rest g' = Some x.
Proof.
  induction r as [|p|r1 IH1 r2 IH2|r1 IH1 r2 IH2|p|name r IH|];
    intros s g k x Hm; simpl in Hm.
  - exists [], s, g. repeat split; [constructor|exact Hm].
  - destruct s as [|c s]; [discriminate|]. destruct (p c) eqn:Ep; [|discriminate].
    exists [c], s, g. repeat split; [now constructor|exact Hm].
  - apply IH1 in Hm. destruct Hm as (s1 & rest1 & g1 & -> & H1 & Hm).
    apply IH2 in Hm. destruct Hm as (s2 & rest & g2 & -> & H2 & Hm).
    exists (s1 ++ s2), rest, g2. rewrite app_assoc. repeat split; [|exact Hm].
    econstructor; eassumption.
  - destruct (rmatch r1 s g k) as [y|] eqn:E1.
    + inversion Hm; subst. apply IH1 in E1.
      destruct E1 as (s1 & rest & g' & -> & H1 & Hk).
      exists s1, rest, g'. repeat split; [now apply SemAltL|exact Hk].
    + apply IH2 in Hm. destruct Hm as (s1 & rest & g' & -> & H1 & Hk).
      exists s1, rest, g'. repeat split; [now apply SemAltR|exact Hk].
  - apply star_sound in Hm. destruct Hm as (s1 & rest & -> & Hf & Hk).
    exists s1, rest, g. repeat split; [now constructor|exact Hk].
  - apply IH in Hm. destruct Hm as (s1 & rest & g' & -> & H1 & Hk).
    exists s1, rest, ((name, s1) :: g'). repeat split; [now constructor|].
    rewrite length_app, Nat.add_sub, firstn_app, Nat.sub_diag, firstn_all in Hk.
    simpl in Hk. now rewrite app_nil_r in Hk.
  - destruct s as [|c [|c' s]].
    + exists [], [], g. repeat split; [constructor; now left|exact Hm].
    + destruct c; try discriminate.
      repeat (destruct p; try discriminate).
      exists [], [10%N], g. repeat split; [constructor; now right|exact Hm].
    + destruct c; try discriminate. repeat (destruct p; try discriminate).
Qed.

Lemma Sem_groupless r s rest g g' :
  Sem r s rest g g' -> groupless r = true -> g' = g.
Proof.
  induction 1; simpl; intros Hg; try reflexivity; try discriminate.
  - apply andb_prop in Hg. destruct Hg as [Hg1 Hg2].
    rewrite IHSem2, IHSem1; auto.
  - apply andb_prop in Hg. now apply IHSem.
  - apply andb_prop in Hg. now apply IHSem.
Qed.

Lemma Sem_classes q r s rest g g' :
  Sem r s rest g g' -> classes_within q r -> forallb q s = true.
Proof.
  induction 1; simpl; intros Hc; try reflexivity.
  - now rewrite (Hc c H).
  - destruct Hc. rewrite forallb_app, IHSem1, IHSem2; auto.
  - destruct Hc. auto.
  - destruct Hc. auto.
  - rewrite forallb_forall in *. auto.
  - auto.
Qed.

Lemma Sem_seq_inv r1 r2 s rest g g'' :
  Sem (Seq r1 r2) s rest g g'' ->
  exists s1 s2 g', s = s1 ++ s2 /\ Sem r1 s1 (s2 ++ rest) g g' /\
                   Sem r2 s2 rest g' g''.
Proof. inversion 1; subst. eauto 8. Qed.

Lemma Sem_group_inv name r s rest g g' :
  Sem (Group name r) s rest g g' ->
  exists g0, g' = (name, s) :: g0 /\ Sem r s rest g g0.
Proof. inversion 1; subst. eauto. Qed.

Lemma Sem_group_plain name r s rest g g' :
  Sem (Group name r) s rest g g' -> groupless r = true ->
  g' = (name, s) :: g /\ Sem r s rest g g.
Proof.
  intros Hs Hg. apply Sem_group_inv in Hs. destruct Hs as (g0 & -> & Hs).
  pose proof (Sem_groupless _ _ _ _ _ Hs Hg) as ->. auto.
Qed.

Lemma Sem_chr_inv p s rest g g' :
  Sem (Chr p) s rest g g' -> exists c, s = [c] /\ p c = true /\ g' = g.
Proof. inversion 1; subst. eauto. Qed.

Lemma Sem_lit_inv c s rest g g' :
  Sem (Lit c) s rest g g' -> s = [c] /\ g' = g.
Proof.
  unfold Lit. intros Hs. apply Sem_chr_inv in Hs.
  destruct Hs as (c' & -> & Hc & ->). apply N.eqb_eq in Hc. now subst.
Qed.

Lemma Sem_star_inv p s rest g g' :
  Sem (Star p) s rest g g' -> forallb p s = true /\ g' = g.
Proof. inversion 1; subst. auto. Qed.

Lemma Sem_plus_inv p s rest g g' :
  Sem (Plus p) s rest g g' ->
  exists c s', s = c :: s' /\ p c = true /\ forallb p s' = true /\ g' = g.
Proof.
  unfold Plus. intros Hs. apply Sem_seq_inv in Hs.
  destruct Hs as (s1 & s2 & g1 & -> & H1 & H2).
  apply Sem_chr_inv in H1. destruct H1 as (c & -> & Hc & ->).
  apply Sem_star_inv in H2. destruct H2 as [H2 ->].
  exists c, s2. auto.
Qed.

(* ----------------------------------------------------------------- *)
(** *** Fields and separators *)

Lemma prefix_unique (q : N -> bool) a a' c c' b b' :
  forallb q a = true -> forallb q a' = true -> q c = false -> q c' = false ->
  a ++ c :: b = a' ++ c' :: b' -> a = a' /\ c = c' /\ b = b'.
Proof.
  revert a'. induction a as [|x a IH]; intros [|x' a'] Ha Ha' Hc Hc' E;
    simpl in *.
  - inversion E; auto.
  - inversion E; subst. apply andb_prop in Ha'. destruct Ha'. congruence.
  - inversion E; subst. apply andb_prop in Ha. destruct Ha. congruence.
  - inversion E; subst. apply andb_prop in Ha. apply andb_prop in Ha'.
    destruct Ha, Ha'. destruct (IH a') as (-> & -> & ->); auto.
Qed.

Lemma prefix_unique_end (q : N -> bool) a a' c b :
  forallb q a = true -> forallb q a' = true -> q c = false ->
  a ++ c :: b = a' -> False.
Proof.
  intros Ha Ha' Hc E. subst a'. rewrite forallb_app in Ha'.
  apply andb_prop in Ha'. destruct Ha' as [_ Hb]. simpl in Hb.
  rewrite Hc in Hb. discriminate.
Qed.

Lemma split_field c a b :
  forallb (not_char c) a = true -> split c (a ++ c :: b) = a :: split c b.
Proof.
  induction a as [|x a IH]; simpl; intros Ha.
  - now rewrite N.eqb_refl.
  - apply andb_prop in Ha. destruct Ha as [Hx Ha]. unfold not_char in Hx.
    destruct (x =? c)%N; [discriminate|]. now rewrite IH.
Qed.

Lemma split_last c a : forallb (not_char c) a = true -> split c a = [a].
Proof.
  induction a as [|x a IH]; simpl; intros Ha; [reflexivity|].
  apply andb_prop in Ha. destruct Ha as [Hx Ha]. unfold not_char in Hx.
  destruct (x =? c)%N; [discriminate|]. now rewrite IH.
Qed.

Lemma forallb_impl {A} (p q : A -> bool) l :
  (forall x, p x = true -> q x = true) -> forallb p l = true -> forallb q l = true.
Proof. rewrite !forallb_forall. auto. Qed.

Lemma lstrip_none p s :
  forallb (fun c => negb (p c)) s = true -> lstrip p s = s.
Proof.
  destruct s as [|c s]; simpl; [reflexivity|]. intros Hs.
  apply andb_prop in Hs. destruct Hs as [Hc _]. now destruct (p c).
Qed.

Lemma strip_none p s :
  forallb (fun c => negb (p c)) s = true -> strip p s = s.
Proof.
  intros Hs. unfold strip, rstrip. rewrite (lstrip_none p s Hs).
  rewrite lstrip_none, rev_involutive; [reflexivity|].
  rewrite forallb_forall in *. intros x Hx. apply Hs. now apply in_rev.
Qed.

Lemma strip_trimmed p s :
  match strip p s with
  | [] => True
  | c :: _ => p c = false /\ p (last (strip p s) c) = false
  end.
Proof.
  assert (Hl : forall t, match lstrip p t with [] => True | c :: _ => p c = false end).
  { induction t as [|c t IH]; simpl; [exact I|].
    destruct (p c) eqn:Ep; [exact IH|exact Ep]. }
  assert (Hfirst : forall t, match t with [] => True | c :: _ => p c = false end ->
            match rstrip p t with [] => True | c :: _ => p c = false end).
  { intros t Ht. unfold rstrip.
    assert (Hsuf : exists u, rev t = u ++ lstrip p (rev t)).
    { generalize (rev t). induction l as [|c l [u Hu]]; simpl; [now exists []|].
      destruct (p c); [exists (c :: u); simpl; now f_equal|now exists []]. }
    destruct Hsuf as [u Hu]. apply (f_equal (@rev N)) in Hu.
    rewrite rev_involutive, rev_app_distr in Hu.
    destruct (rev (lstrip p (rev t))) as [|c r]; [exact I|].
    rewrite Hu in Ht. exact Ht. }
  pose proof (Hfirst _ (Hl s)) as H1. fold (strip p s) in H1.
  destruct (strip p s) as [|c r] eqn:Es; [exact I|]. split; [exact H1|].
  unfold strip, rstrip in Es.
  pose proof (Hl (rev (lstrip p s))) as H2.
  apply (f_equal (@rev N)) in Es. rewrite rev_involutive in Es. rewrite Es in H2.
  destruct (rev (c :: r)) as [|z zs] eqn:Er.
  - apply (f_equal (@rev N)) in Er. rewrite rev_involutive in Er. discriminate.
  - apply (f_equal (@rev N)) in Er. rewrite rev_involutive in Er. rewrite Er.
    simpl rev. rewrite last_last. exact H2.
Qed.

Lemma in_range_sub lo hi lo' hi' c :
  (lo' <= lo)%N -> (hi <= hi')%N -> in_range lo hi c = true ->
  in_range lo' hi' c = true.
Proof.
  unfold in_range. rewrite !andb_true_iff, !N.leb_le. lia.
Qed.

Lemma ascii_digit_is_digit `{UnicodeDB} c : in_range 48 57 c = true -> is_digit c = true.
Proof. unfold is_digit, digit_val. now intros ->. Qed.

Lemma digit_not_space `{UnicodeDB} c : is_digit c = true -> is_space c = false.
Proof.
  unfold is_digit, digit_val. destruct (in_range 48 57 c) eqn:Er.
  - intros _. unfold in_range in Er. apply andb_prop in Er.
    destruct Er as [H1 H2]. apply N.leb_le in H1. apply N.leb_le in H2.
    unfold is_space, in_range.
    repeat (apply orb_false_intro);
      try (apply andb_false_iff; rewrite !N.leb_gt; lia);
      try (apply N.eqb_neq; lia).
  - destruct (is_ascii c || is_space c) eqn:E; [discriminate|].
    apply orb_false_elim in E. tauto.
Qed.

Lemma digit_not_char `{UnicodeDB} c x :
  in_range 48 57 c = false -> is_ascii c = true ->
  is_digit x = true -> not_char c x = true.
Proof.
  intros Hr Ha Hx. unfold not_char. destruct (N.eqb_spec x c) as [->|]; [|reflexivity].
  unfold is_digit, digit_val in Hx. rewrite Hr, Ha in Hx. discriminate.
Qed.

Lemma digits_strip `{UnicodeDB} s : forallb is_digit s = true -> strip is_space s = s.
Proof.
  intros Hs. apply strip_none. eapply forallb_impl; [|exact Hs].
  intros x Hx. now rewrite digit_not_space.
Qed.

Lemma py_int_digits `{UnicodeDB} s : forallb is_digit s = true -> py_int s = int_digits s.
Proof. intros Hs. unfold py_int. now rewrite digits_strip. Qed.

Lemma py_int_century `{UnicodeDB} yr :
  length yr = 2%nat -> forallb is_digit yr = true ->
  py_int (cps "20" ++ yr) = 2000 + py_int yr.
Proof.
  intros Hl Hd. destruct yr as [|y1 [|y2 [|]]]; try discriminate.
  assert (Hall : forallb is_digit (cps "20" ++ [y1; y2]) = true).
  { rewrite forallb_app, Hd. reflexivity. }
  rewrite !py_int_digits by assumption.
  simpl in Hd. rewrite andb_true_r in Hd. apply andb_prop in Hd.
  destruct Hd as [H1 H2]. unfold is_digit in H1, H2.
  unfold int_digits. rewrite fold_left_app.
  change (fold_left _ (cps "20") 0) with 20. cbn [fold_left].
  destruct (digit_val y1); [|discriminate].
  destruct (digit_val y2); [|discriminate]. lia.
Qed.

(* ----------------------------------------------------------------- *)
(** *** The fields of a header line *)

Ltac seq_step H x H1 :=
  apply Sem_seq_inv in H;
  let s2 := fresh "t" in
  let g1 := fresh "g" in
  destruct H as (x & s2 & g1 & -> & H1 & H).

Lemma Sem_eps_inv s rest g g' : Sem Eps s rest g g' -> s = [] /\ g' = g.
Proof. inversion 1; subst. auto. Qed.

Lemma digit_classes `{UnicodeDB} : classes_within is_digit digit.
Proof. simpl. auto. Qed.

Lemma opt_digit_classes `{UnicodeDB} : classes_within is_digit (Opt digit).
Proof. simpl. auto. Qed.

Lemma Sem_date_shape `{UnicodeDB} s rest g g' :
  Sem (seqs [digit; Opt digit; Lit 47; digit; Opt digit; Lit 47;
             digit; digit; Opt (Seq digit (Opt digit))]) s rest g g' ->
  exists mo dy yr, s = mo ++ 47%N :: dy ++ 47%N :: yr /\
    forallb is_digit mo = true /\ forallb is_digit dy = true /\
    forallb is_digit yr = true.
Proof.
  unfold seqs. cbn [fold_right]. intros Hs.
  seq_step Hs a1 H1. seq_step Hs a2 H2. seq_step Hs a3 H3. seq_step Hs a4 H4.
  seq_step Hs a5 H5. seq_step Hs a6 H6. seq_step Hs a7 H7. seq_step Hs a8 H8.
  seq_step Hs a9 H9. apply Sem_eps_inv in Hs. destruct Hs as [-> _].
  apply Sem_lit_inv in H3. destruct H3 as [-> _].
  apply Sem_lit_inv in H6. destruct H6 as [-> _].
  apply (Sem_classes is_digit) in H1; [|apply digit_classes].
  apply (Sem_classes is_digit) in H2; [|apply opt_digit_classes].
  apply (Sem_classes is_digit) in H4; [|apply digit_classes].
  apply (Sem_classes is_digit) in H5; [|apply opt_digit_classes].
  apply (Sem_classes is_digit) in H7; [|apply digit_classes].
  apply (Sem_classes is_digit) in H8; [|apply digit_classes].
  apply (Sem_classes is_digit) in H9; [|simpl; auto].
  exists (a1 ++ a2), (a4 ++ a5), (a7 ++ a8 ++ a9).
  rewrite !forallb_app, H1, H2, H4, H5, H7, H8, H9. repeat split.
  rewrite app_nil_r, <- !app_assoc. reflexivity.
Qed.

Lemma Sem_time_shape `{UnicodeDB} s rest g g' :
  Sem (seqs [digit; Opt digit; Lit 58; digit; digit]) s rest g g' ->
  exists hh mi, s = hh ++ 58%N :: mi /\
    forallb is_digit hh = true /\ forallb is_digit mi = true.
Proof.
  unfold seqs. cbn [fold_right]. intros Hs.
  seq_step Hs a1 H1. seq_step Hs a2 H2. seq_step Hs a3 H3. seq_step Hs a4 H4.
  seq_step Hs a5 H5. apply Sem_eps_inv in Hs. destruct Hs as [-> _].
  apply Sem_lit_inv in H3. destruct H3 as [-> _].
  apply (Sem_classes is_digit) in H1; [|apply digit_classes].
  apply (Sem_classes is_digit) in H2; [|apply opt_digit_classes].
  apply (Sem_classes is_digit) in H4; [|apply digit_classes].
  apply (Sem_classes is_digit) in H5; [|apply digit_classes].
  exists (a1 ++ a2), (a4 ++ a5).
  rewrite !forallb_app, H1, H2, H4, H5. repeat split.
  rewrite app_nil_r, <- !app_assoc. reflexivity.
Qed.

Lemma Sem_ampm_inv s rest g g' :
  Sem re_ampm s rest g g' ->
  (s = [] /\ g' = g) \/
  (s = cps "AM" /\ g' = ("ampm"%string, cps "AM") :: g) \/
  (s = cps "PM" /\ g' = ("ampm"%string, cps "PM") :: g).
Proof.
  unfold re_ampm, Opt. inversion 1 as [| | |? ? ? ? ? ? Hl|? ? ? ? ? ? Hr| | |]; subst.
  - right. apply Sem_group_plain in Hl; [|reflexivity].
    destruct Hl as [-> Hl].
    inversion Hl as [| | |? ? ? ? ? ? Ha|? ? ? ? ? ? Hp| | |]; subst.
    + left. seq_step Ha a1 H1. apply Sem_lit_inv in H1. apply Sem_lit_inv in Ha.
      destruct H1 as [-> _], Ha as [-> _]. auto.
    + right. seq_step Hp a1 H1. apply Sem_lit_inv in H1. apply Sem_lit_inv in Hp.
      destruct H1 as [-> _], Hp as [-> _]. auto.
  - left. now apply Sem_eps_inv in Hr.
Qed.

Lemma header_match_fields `{UnicodeDB} line g :
  header_match line = Some g ->
  exists mo dy yr hh mi ampm_g sender_field text_field,
    g = header_groups mo dy yr hh mi ampm_g sender_field text_field /\
    (ampm_g = [] \/ ampm_g = [("ampm"%string, cps "AM")]
     \/ ampm_g = [("ampm"%string, cps "PM")]) /\
    forallb is_digit mo = true /\ forallb is_digit dy = true /\
    forallb is_digit yr = true /\ forallb is_digit hh = true /\
    forallb is_digit mi = true /\
    sender_field <> [] /\ forallb not_colon sender_field = true.
Proof.
  unfold header_match, re_match. intros Hm.
  destruct (rmatch _MESSAGE_RE line [] (fun s' g0 => Some (g0, s')))
    as [[g0 r]|] eqn:E; [|discriminate].
  inversion Hm; subst g0. clear Hm.
  apply rmatch_sound in E. destruct E as (s1 & rest & g' & -> & Hs & Hk).
  inversion Hk; subst g' r. clear Hk.
  unfold _MESSAGE_RE, seqs in Hs. cbn [fold_right] in Hs.
  seq_step Hs a1 Hdate. seq_step Hs a2 H2. seq_step Hs a3 H3.
  seq_step Hs a4 Htime. seq_step Hs a5 H5. seq_step Hs a6 Hampm.
  seq_step Hs a7 H7. seq_step Hs a8 H8. seq_step Hs a9 H9.
  seq_step Hs a10 Hsender. seq_step Hs a11 H11. seq_step Hs a12 H12.
  seq_step Hs a13 Htext. seq_step Hs a14 H14.
  apply Sem_eps_inv in Hs. destruct Hs as [_ ->].
  apply Sem_groupless in H14; [|reflexivity]. subst.
  apply Sem_group_plain in Htext; [|reflexivity]. destruct Htext as [-> _].
  apply Sem_groupless in H12; [|reflexivity]. subst.
  apply Sem_groupless in H11; [|reflexivity]. subst.
  apply Sem_group_plain in Hsender; [|reflexivity].
  destruct Hsender as [-> Hsender].
  apply Sem_plus_inv in Hsender. destruct Hsender as (c & s' & -> & Hc & Hs' & _).
  apply Sem_groupless in H9; [|reflexivity]. subst.
  apply Sem_groupless in H8; [|reflexivity]. subst.
  apply Sem_groupless in H7; [|reflexivity]. subst.
  apply Sem_groupless in H5; [|reflexivity]. subst.
  apply Sem_group_plain in Htime; [|reflexivity]. destruct Htime as [-> Htime].
  apply Sem_time_shape in Htime. destruct Htime as (hh & mi & -> & Hhh & Hmi).
  apply Sem_groupless in H3; [|reflexivity]. subst.
  apply Sem_groupless in H2; [|reflexivity]. subst.
  apply Sem_group_plain in Hdate; [|reflexivity]. destruct Hdate as [-> Hdate].
  apply Sem_date_shape in Hdate.
  destruct Hdate as (mo & dy & yr & -> & Hmo & Hdy & Hyr).
  apply Sem_ampm_inv in Hampm.
  exists mo, dy, yr, hh, mi.
  destruct Hampm as [[_ ->]|[[_ ->]|[_ ->]]];
    [exists []|exists [("ampm"%string, cps "AM")]
     |exists [("ampm"%string, cps "PM")]];
    exists (c :: s'), a13; (repeat split; auto; try discriminate);
    simpl; rewrite Hc; exact Hs'.
Qed.

Lemma datetime_new_valid y m d H M ts :
  datetime_new y m d H M = Ok ts ->
  valid_datetime ts /\ ts = mkdatetime y m d H M.
Proof.
  unfold datetime_new.
  destruct ((1 <=? y) && (y <=? 9999) && (1 <=? m) && (m <=? 12) && (1 <=? d)
            && (d <=? days_in_month y m) && (0 <=? H) && (H <=? 23)
            && (0 <=? M) && (M <=? 59)) eqn:E; [|discriminate].
  intros Hok. inversion Hok; subst. split; [|reflexivity].
  repeat (apply andb_prop in E; destruct E as [E ?]).
  unfold valid_datetime. simpl. rewrite ?Z.leb_le in *. lia.
Qed.

Lemma strptime_valid `{UnicodeDB} s fmt ts :
  strptime s fmt = Ok ts -> valid_datetime ts.
Proof.
  unfold strptime. destruct (re_match (format_regex fmt) s) as [[g [|c r]]|];
    try discriminate.
  intros Hd. now apply datetime_new_valid in Hd.
Qed.

Lemma parse_timestamp_valid `{UnicodeDB} date_str time_str ampm ts :
  _parse_timestamp date_str time_str ampm = Ok ts -> valid_datetime ts.
Proof.
  unfold _parse_timestamp.
  destruct (split 47 date_str) as [|mo [|dy [|yr [|]]]]; try discriminate.
  destruct ampm as [[|c a]|]; apply strptime_valid.
Qed.

Lemma Forall2_in_left {A B} (R : A -> B -> Prop) l1 l2 x :
  Forall2 R l1 l2 -> In x l1 -> exists y, In y l2 /\ R x y.
Proof.
  induction 1 as [|a b l1 l2 Hab Hf IH]; simpl; [tauto|].
  intros [<-|Hin]; [exists b; auto|].
  destruct (IH Hin) as (y & Hy & Hr). exists y. auto.
Qed.

(** C4, as stated, fails: a header whose sender field is a single blank
    yields a record whose sender is empty after trimming. *)
Lemma blank_sender_record :
  exists msg, parse_chat (H:=ascii_only) blank_sender = Ok [msg] /\ sender msg = [].
Proof. eexists. split; [vm_compute; reflexivity|reflexivity]. Qed.

(** C4, amended. Every record produced by [parse_chat] has a valid timestamp
    and a sender that is the whitespace-trimmed form of a non-empty,
    colon-free header field: the sender neither starts nor ends with a blank,
    and is empty when that field consists of blanks only. *)
Theorem records_have_trimmed_sender (U : UnicodeDB) (content : str)
    (msgs : list Message) (msg : Message) :
  parse_chat content = Ok msgs -> In msg msgs ->
  valid_datetime (timestamp msg) /\
  (exists field, field <> [] /\ forallb not_colon field = true /\
                 sender msg = strip is_space field) /\
  match sender msg with
  | [] => True
  | c :: _ => is_space c = false /\ is_space (last (sender msg) c) = false
  end.
Proof.
  unfold parse_chat. intros Hp Hin. apply parse_loop_ok in Hp.
  destruct Hp as (out & rest & -> & -> & Hf). simpl in Hin.
  destruct (Forall2_in_left _ _ _ _ Hf Hin) as (line & _ & g & Hg & Hts & Hs & _).
  split; [now apply parse_timestamp_valid in Hts|].
  apply header_match_fields in Hg.
  destruct Hg as (mo & dy & yr & hh & mi & ag & sf & tf & -> & _ & _ & _ & _ & _
                  & _ & Hne & Hnc).
  change (group_str "sender" (header_groups mo dy yr hh mi ag sf tf)) with sf in Hs.
  split; [exists sf; auto|]. rewrite Hs. apply strip_trimmed.
Qed.

Lemma records_have_trimmed_sender_witness :
  exists msg, In msg [msg] /\ valid_datetime (timestamp msg) /\ sender msg = [].
Proof.
  exists (mkMessage (mkdatetime 2024 1 1 1 0) [] (cps "hi")).
  split; [now left|]. split; [|reflexivity].
  apply (records_have_trimmed_sender ascii_only blank_sender
           [mkMessage (mkdatetime 2024 1 1 1 0) [] (cps "hi")]).
  - vm_compute. reflexivity.
  - now left.
Defined.

(* ----------------------------------------------------------------- *)
(** *** The fields read by [strptime] *)

Lemma Sem_directive q name r s rest g g' :
  Sem (Group name r) s rest g g' -> groupless r = true -> classes_within q r ->
  g' = (name, s) :: g /\ forallb q s = true.
Proof.
  intros Hs Hg Hc. apply Sem_group_plain in Hs; [|exact Hg].
  destruct Hs as [-> Hs]. split; [reflexivity|].
  eapply Sem_classes; eassumption.
Qed.

Lemma in_range_not_char lo hi x c :
  (x < lo \/ hi < x)%N -> in_range lo hi c = true -> not_char x c = true.
Proof.
  unfold in_range, not_char. rewrite andb_true_iff, !N.leb_le.
  intros Hx Hc. apply negb_true_iff, N.eqb_neq. lia.
Qed.

Ltac class_step :=
  match goal with
  | |- _ /\ _ => split
  | |- forall c, _ -> _ => let c := fresh "c" in let Hc := fresh "Hc" in intros c Hc
  | Hc : N.eqb _ ?c = true |- _ => apply N.eqb_eq in Hc; subst c; reflexivity
  | Hc : is_digit ?c = true |- is_digit ?c = true => exact Hc
  | Hc : is_digit ?c = true |- not_char _ ?c = true =>
      apply digit_not_char; [reflexivity|reflexivity|exact Hc]
  | Hc : in_range _ _ ?c = true |- is_digit ?c = true =>
      apply ascii_digit_is_digit; revert Hc; apply in_range_sub; lia
  | Hc : in_range _ _ ?c = true |- not_char _ ?c = true =>
      revert Hc; apply in_range_not_char; lia
  end.

Ltac class_tac := cbv [alts fold_left classes_within Range Lit digit]; repeat class_step.

Lemma re_m_digits `{UnicodeDB} :
  classes_within is_digit
    (alts (Seq (Lit 49) (Range 48 50)) [Seq (Lit 48) (Range 49 57); Range 49 57]).
Proof. class_tac. Qed.

Lemma re_d_no_slash `{UnicodeDB} :
  classes_within (not_char 47)
    (alts (Seq (Lit 51) (Range 48 49))
          [Seq (Range 49 50) digit; Seq (Lit 48) (Range 49 57);
           Range 49 57; Seq (Lit 32) (Range 49 57)]).
Proof. class_tac. Qed.

Lemma re_Y_digits `{UnicodeDB} :
  classes_within is_digit (seqs [digit; digit; digit; digit]).
Proof. cbv [seqs fold_right]. class_tac. exact I. Qed.

Lemma re_H_digits `{UnicodeDB} :
  classes_within is_digit
    (alts (Seq (Lit 50) (Range 48 51)) [Seq (Range 48 49) digit; digit]).
Proof. class_tac. Qed.

Lemma re_M_digits `{UnicodeDB} :
  classes_within is_digit (Alt (Seq (Range 48 53) digit) digit).
Proof. class_tac. Qed.

Lemma Sem_p_inv s rest g g' :
  Sem re_p s rest g g' ->
  g' = ("p"%string, s) :: g /\
  exists x y, s = [x; y] /\
    ((x = 97 \/ x = 65) /\ (y = 109 \/ y = 77) \/
     (x = 112 \/ x = 80) /\ (y = 109 \/ y = 77))%N.
Proof.
  unfold re_p. intros Hs. apply Sem_group_plain in Hs; [|reflexivity].
  destruct Hs as [-> Hs]. split; [reflexivity|].
  assert (Hci : forall lo up t r0 g0 g1, Sem (LitCI lo up) t r0 g0 g1 ->
            exists x, t = [x] /\ (x = lo \/ x = up)).
  { unfold LitCI. intros lo up t r0 g0 g1 Hl. apply Sem_chr_inv in Hl.
    destruct Hl as (x & -> & Hx & _). exists x. split; [reflexivity|].
    apply orb_prop in Hx. rewrite !N.eqb_eq in Hx. tauto. }
  inversion Hs as [| | |? ? ? ? ? ? Ha|? ? ? ? ? ? Hp| | |]; subst.
  - seq_step Ha a1 H1. apply Hci in H1. apply Hci in Ha.
    destruct H1 as (x & -> & Hx), Ha as (y & -> & Hy). exists x, y. tauto.
  - seq_step Hp a1 H1. apply Hci in H1. apply Hci in Hp.
    destruct H1 as (x & -> & Hx), Hp as (y & -> & Hy). exists x, y. tauto.
Qed.

Lemma span_unique (p : N -> bool) a b a' b' :
  forallb p a = true -> forallb p a' = true ->
  forallb (fun c => negb (p c)) b = true ->
  forallb (fun c => negb (p c)) b' = true ->
  a ++ b = a' ++ b' -> a = a' /\ b = b'.
Proof.
  revert a'. induction a as [|x a IH]; intros [|x' a'] Ha Ha' Hb Hb' E;
    simpl in *.
  - auto.
  - subst b. simpl in Hb. apply andb_prop in Ha'. destruct Ha' as [Hx _].
    rewrite Hx in Hb. discriminate.
  - subst b'. simpl in Hb'. apply andb_prop in Ha. destruct Ha as [Hx _].
    rewrite Hx in Hb'. discriminate.
  - inversion E; subst. apply andb_prop in Ha. apply andb_prop in Ha'.
    destruct Ha, Ha'. destruct (IH a') as [-> ->]; auto.
Qed.

Lemma digits_not_space `{UnicodeDB} s :
  forallb is_digit s = true -> forallb (fun c => negb (is_space c)) s = true.
Proof.
  apply forallb_impl. intros x Hx. now rewrite digit_not_space.
Qed.

Lemma space_not_digit `{UnicodeDB} c : is_space c = true -> is_digit c = false.
Proof.
  intros Hs. destruct (is_digit c) eqn:E; [|reflexivity].
  apply digit_not_space in E. congruence.
Qed.

(** The reading of a string accepted by [strptime], 12-hour format. *)
Lemma strptime_clock12 `{UnicodeDB} s ts :
  strptime s Clock12 = Ok ts ->
  exists M D Y w ws Ih Mi w' ws' P,
    s = M ++ 47%N :: D ++ 47%N :: Y ++ 44%N :: (w :: ws) ++ Ih ++ 58%N :: Mi
        ++ (w' :: ws') ++ P /\
    forallb is_digit M = true /\ forallb (not_char 47) D = true /\
    forallb is_digit Y = true /\
    is_space w = true /\ forallb is_space ws = true /\
    forallb is_digit Ih = true /\ forallb is_digit Mi = true /\
    is_space w' = true /\ forallb is_space ws' = true /\
    (exists x y, P = [x; y] /\
       ((x = 97 \/ x = 65) /\ (y = 109 \/ y = 77) \/
        (x = 112 \/ x = 80) /\ (y = 109 \/ y = 77))%N) /\
    ts = mkdatetime (py_int Y) (py_int M) (py_int D)
           (hour_12 (py_int Ih) (map ascii_lower P)) (py_int Mi).
Proof.
  unfold strptime, re_match.
  destruct (rmatch (format_regex Clock12) s [] (fun s' g0 => Some (g0, s')))
    as [[g r]|] eqn:E; [|discriminate].
  destruct r as [|c r]; [|discriminate]. intros Hd.
  apply rmatch_sound in E. destruct E as (s1 & rest & g' & -> & Hs & Hk).
  inversion Hk; subst g' rest. clear Hk. rewrite app_nil_r.
  unfold format_regex, seqs in Hs. cbn [fold_right] in Hs.
  seq_step Hs M Hm. seq_step Hs a2 H2. seq_step Hs D HD. seq_step Hs a4 H4.
  seq_step Hs Y HY. seq_step Hs a6 H6. seq_step Hs W HW. seq_step Hs Ih HI.
  seq_step Hs a9 H9. seq_step Hs Mi HMi. seq_step Hs W' HW'.
  seq_step Hs P HP. apply Sem_eps_inv in Hs. destruct Hs as [-> ->].
  apply Sem_p_inv in HP. destruct HP as [-> HP].
  apply Sem_plus_inv in HW'. destruct HW' as (w' & ws' & -> & Hw' & Hws' & ->).
  apply (Sem_directive is_digit) in HMi; [|reflexivity|apply re_M_digits].
  destruct HMi as [-> HMi].
  apply Sem_lit_inv in H9. destruct H9 as [-> ->].
  apply (Sem_directive is_digit) in HI; [|reflexivity|apply re_m_digits].
  destruct HI as [-> HI].
  apply Sem_plus_inv in HW. destruct HW as (w & ws & -> & Hw & Hws & ->).
  apply Sem_lit_inv in H6. destruct H6 as [-> ->].
  apply (Sem_directive is_digit) in HY; [|reflexivity|apply re_Y_digits].
  destruct HY as [-> HY].
  apply Sem_lit_inv in H4. destruct H4 as [-> ->].
  apply (Sem_directive (not_char 47)) in HD; [|reflexivity|apply re_d_no_slash].
  destruct HD as [-> HD].
  apply Sem_lit_inv in H2. destruct H2 as [-> ->].
  apply (Sem_directive is_digit) in Hm; [|reflexivity|apply re_m_digits].
  destruct Hm as [-> Hm].
  apply datetime_new_valid in Hd. destruct Hd as [_ Hd].
  exists M, D, Y, w, ws, Ih, Mi, w', ws', P.
  rewrite app_nil_r. repeat split; assumption.
Qed.

(** The reading of a string accepted by [strptime], 24-hour format. *)
Lemma strptime_clock24 `{UnicodeDB} s ts :
  strptime s Clock24 = Ok ts ->
  exists M D Y w ws Hh Mi,
    s = M ++ 47%N :: D ++ 47%N :: Y ++ 44%N :: (w :: ws) ++ Hh ++ 58%N :: Mi /\
    forallb is_digit M = true /\ forallb (not_char 47) D = true /\
    forallb is_digit Y = true /\
    is_space w = true /\ forallb is_space ws = true /\
    forallb is_digit Hh = true /\ forallb is_digit Mi = true /\
    ts = mkdatetime (py_int Y) (py_int M) (py_int D) (py_int Hh) (py_int Mi).
Proof.
  unfold strptime, re_match.
  destruct (rmatch (format_regex Clock24) s [] (fun s' g0 => Some (g0, s')))
    as [[g r]|] eqn:E; [|discriminate].
  destruct r as [|c r]; [|discriminate]. intros Hd.
  apply rmatch_sound in E. destruct E as (s1 & rest & g' & -> & Hs & Hk).
  inversion Hk; subst g' rest. clear Hk. rewrite app_nil_r.
  unfold format_regex, seqs in Hs. cbn [fold_right] in Hs.
  seq_step Hs M Hm. seq_step Hs a2 H2. seq_step Hs D HD. seq_step Hs a4 H4.
  seq_step Hs Y HY. seq_step Hs a6 H6. seq_step Hs W HW. seq_step Hs Hh HH.
  seq_step Hs a9 H9. seq_step Hs Mi HMi.
  apply Sem_eps_inv in Hs. destruct Hs as [-> ->].
  apply (Sem_directive is_digit) in HMi; [|reflexivity|apply re_M_digits].
  destruct HMi as [-> HMi].
  apply Sem_lit_inv in H9. destruct H9 as [-> ->].
  apply (Sem_directive is_digit) in HH; [|reflexivity|apply re_H_digits].
  destruct HH as [-> HH].
  apply Sem_plus_inv in HW. destruct HW as (w & ws & -> & Hw & Hws & ->).
  apply Sem_lit_inv in H6. destruct H6 as [-> ->].
  apply (Sem_directive is_digit) in HY; [|reflexivity|apply re_Y_digits].
  destruct HY as [-> HY].
  apply Sem_lit_inv in H4. destruct H4 as [-> ->].
  apply (Sem_directive (not_char 47)) in HD; [|reflexivity|apply re_d_no_slash].
  destruct HD as [-> HD].
  apply Sem_lit_inv in H2. destruct H2 as [-> ->].
  apply (Sem_directive is_digit) in Hm; [|reflexivity|apply re_m_digits].
  destruct Hm as [-> Hm].
  apply datetime_new_valid in Hd. destruct Hd as [_ Hd].
  exists M, D, Y, w, ws, Hh, Mi.
  rewrite app_nil_r. repeat split; assumption.
Qed.

(* ----------------------------------------------------------------- *)
(** *** The timestamp of a header *)

Lemma digits_no_slash `{UnicodeDB} s :
  forallb is_digit s = true -> forallb (not_char 47) s = true.
Proof.
  apply forallb_impl. intros x Hx. now apply digit_not_char.
Qed.

Lemma split_date `{UnicodeDB} mo dy yr :
  forallb is_digit mo = true -> forallb is_digit dy = true ->
  forallb is_digit yr = true ->
  split 47 (mo ++ 47%N :: dy ++ 47%N :: yr) = [mo; dy; yr].
Proof.
  intros Hmo Hdy Hyr.
  rewrite !split_field, split_last by now apply digits_no_slash.
  reflexivity.
Qed.

Lemma full_year_digits `{UnicodeDB} yr :
  forallb is_digit yr = true -> forallb is_digit (full_year yr) = true.
Proof.
  intros Hyr. unfold full_year. destruct (Nat.eqb (length yr) 2); [|exact Hyr].
  now rewrite forallb_app, Hyr.
Qed.

Lemma date_prefix_unique `{UnicodeDB} mo dy yr x M D Y X :
  forallb is_digit mo = true -> forallb is_digit dy = true ->
  forallb is_digit yr = true ->
  forallb is_digit M = true -> forallb (not_char 47) D = true ->
  forallb is_digit Y = true ->
  mo ++ 47%N :: dy ++ 47%N :: yr ++ 44%N :: x
    = M ++ 47%N :: D ++ 47%N :: Y ++ 44%N :: X ->
  M = mo /\ D = dy /\ Y = yr /\ X = x.
Proof.
  intros Hmo Hdy Hyr HM HD HY E.
  apply (prefix_unique (not_char 47)) in E;
    [|now apply digits_no_slash|now apply digits_no_slash|reflexivity|reflexivity].
  destruct E as (<- & _ & E).
  apply (prefix_unique (not_char 47)) in E;
    [|now apply digits_no_slash|exact HD|reflexivity|reflexivity].
  destruct E as (<- & _ & E).
  apply (prefix_unique is_digit) in E;
    [|exact Hyr|exact HY|reflexivity|reflexivity].
  destruct E as (<- & _ & <-). auto.
Qed.

Lemma hour_prefix_unique `{UnicodeDB} hh x w ws Hh X :
  forallb is_digit hh = true -> forallb is_digit Hh = true ->
  is_space w = true -> forallb is_space ws = true ->
  32%N :: hh ++ 58%N :: x = (w :: ws) ++ Hh ++ 58%N :: X ->
  Hh = hh /\ X = x.
Proof.
  intros Hhh HHh Hw Hws E.
  change (32%N :: hh ++ 58%N :: x) with (([32%N] ++ hh) ++ 58%N :: x) in E.
  rewrite (app_assoc (w :: ws)) in E.
  assert (Hq : forall s t, forallb is_space s = true -> forallb is_digit t = true ->
             forallb (fun c => is_space c || is_digit c) (s ++ t) = true).
  { intros s t Hs Ht. rewrite forallb_app. apply andb_true_intro. split.
    - eapply forallb_impl; [|exact Hs]. intros c ->. reflexivity.
    - eapply forallb_impl; [|exact Ht]. intros c ->. apply orb_true_r. }
  apply (prefix_unique (fun c => is_space c || is_digit c)) in E;
    [|now apply Hq|apply Hq; [simpl; now rewrite Hw|exact HHh]
     |reflexivity|reflexivity].
  destruct E as (E & _ & <-).
  apply (span_unique is_space) in E;
    [|reflexivity|simpl; now rewrite Hw|now apply digits_not_space
     |now apply digits_not_space].
  destruct E as [_ <-]. auto.
Qed.

(** How [_parse_timestamp] reads the fields of a date and a time. *)
Lemma parse_timestamp_fields `{UnicodeDB} mo dy yr hh mi ampm ts :
  forallb is_digit mo = true -> forallb is_digit dy = true ->
  forallb is_digit yr = true -> forallb is_digit hh = true ->
  forallb is_digit mi = true ->
  ampm = None \/ ampm = Some (cps "AM") \/ ampm = Some (cps "PM") ->
  _parse_timestamp (mo ++ 47%N :: dy ++ 47%N :: yr) (hh ++ 58%N :: mi) ampm
    = Ok ts ->
  ts = mkdatetime (py_int (full_year yr)) (py_int mo) (py_int dy)
         (match ampm with
          | None => py_int hh
          | Some ap => hour_12 (py_int hh) (map ascii_lower ap)
          end) (py_int mi).
Proof.
  intros Hmo Hdy Hyr Hhh Hmi Hap. unfold _parse_timestamp.
  rewrite split_date by assumption. cbv beta iota zeta.
  change (if Nat.eqb (length yr) 2 then cps "20" ++ yr else yr) with (full_year yr).
  pose proof (full_year_digits yr Hyr) as Hfy.
  set (fy := full_year yr) in *. clearbody fy.
  change (cps "/") with [47%N]. change (cps ", ") with [44%N; 32%N].
  change (cps " ") with [32%N].
  destruct Hap as [-> | [-> | ->]].
  - intros Hs. apply strptime_clock24 in Hs.
    destruct Hs as (M & D & Y & w & ws & Hh & Mi & E & HM & HD & HY & Hw & Hws
                    & HHh & HMi & ->).
    cbn [app] in E. rewrite <- ?app_assoc in E. cbn [app] in E.
    apply date_prefix_unique in E; try assumption.
    destruct E as (-> & -> & -> & E). symmetry in E.
    apply hour_prefix_unique in E; try assumption.
    destruct E as [-> ->]. reflexivity.
  - change (cps "AM") with [65%N; 77%N]. cbv iota.
    intros Hs. apply strptime_clock12 in Hs.
    destruct Hs as (M & D & Y & w & ws & Ih & Mi & w' & ws' & P & E & HM & HD
                    & HY & Hw & Hws & HI & HMi & Hw' & Hws' & HP & ->).
    cbn [app] in E. rewrite <- ?app_assoc in E. cbn [app] in E.
    apply date_prefix_unique in E; try assumption.
    destruct E as (-> & -> & -> & E). symmetry in E.
    apply hour_prefix_unique in E; try assumption.
    destruct E as [-> E].
    apply (prefix_unique is_digit) in E;
      [|exact HMi|exact Hmi|now apply space_not_digit|reflexivity].
    destruct E as (-> & _ & E).
    destruct HP as (x & y & -> & _).
    destruct ws' as [|a [|b [|c ws']]]; try discriminate.
    simpl in E. rewrite E. reflexivity.
  - change (cps "PM") with [80%N; 77%N]. cbv iota.
    intros Hs. apply strptime_clock12 in Hs.
    destruct Hs as (M & D & Y & w & ws & Ih & Mi & w' & ws' & P & E & HM & HD
                    & HY & Hw & Hws & HI & HMi & Hw' & Hws' & HP & ->).
    cbn [app] in E. rewrite <- ?app_assoc in E. cbn [app] in E.
    apply date_prefix_unique in E; try assumption.
    destruct E as (-> & -> & -> & E). symmetry in E.
    apply hour_prefix_unique in E; try assumption.
    destruct E as [-> E].
    apply (prefix_unique is_digit) in E;
      [|exact HMi|exact Hmi|now apply space_not_digit|reflexivity].
    destruct E as (-> & _ & E).
    destruct HP as (x & y & -> & _).
    destruct ws' as [|a [|b [|c ws']]]; try discriminate.
    simpl in E. rewrite E. reflexivity.
Qed.

(** C9. The date and time of a matched header parse to one timestamp: a
    2-digit year means [2000 + year]; with an AM/PM marker the hour is read on
    the 12-hour clock (12 AM is hour 0, 12 PM is hour 12); without a marker
    the hour is read as it stands, on the 24-hour clock. *)
Theorem header_timestamp_reading (U : UnicodeDB) (line : str) (g : groups)
    (ts : datetime) :
  header_match line = Some g ->
  _parse_timestamp (group_str "date" g) (group_str "time" g) (group "ampm" g)
    = Ok ts ->
  reads_header g ts.
Proof.
  intros Hg Hts. apply header_match_fields in Hg.
  destruct Hg as (mo & dy & yr & hh & mi & ag & sf & tf & -> & Hag & Hmo & Hdy
                  & Hyr & Hhh & Hmi & _ & _).
  assert (Hdate : group_str "date" (header_groups mo dy yr hh mi ag sf tf)
                  = mo ++ 47%N :: dy ++ 47%N :: yr).
  { destruct Hag as [-> | [-> | ->]]; reflexivity. }
  assert (Htime : group_str "time" (header_groups mo dy yr hh mi ag sf tf)
                  = hh ++ 58%N :: mi).
  { destruct Hag as [-> | [-> | ->]]; reflexivity. }
  assert (Hampm : group "ampm" (header_groups mo dy yr hh mi ag sf tf) = None /\ ag = []
                  \/ group "ampm" (header_groups mo dy yr hh mi ag sf tf) = Some (cps "AM")
                  \/ group "ampm" (header_groups mo dy yr hh mi ag sf tf) = Some (cps "PM")).
  { destruct Hag as [-> | [-> | ->]]; [left; split|right; left|right; right];
      reflexivity. }
  rewrite Hdate, Htime in Hts.
  set (G := header_groups mo dy yr hh mi ag sf tf) in *. clearbody G.
  apply parse_timestamp_fields in Hts; try assumption; [|tauto].
  exists mo, dy, yr, hh, mi. rewrite Hts. cbn [year month day hour minute].
  repeat split; try assumption.
  - intros Hl. unfold full_year. rewrite Hl. cbn [Nat.eqb].
    now apply py_int_century.
  - intros Hl. unfold full_year.
    destruct (Nat.eqb_spec (length yr) 2); [contradiction|reflexivity].
  - destruct Hampm as [[-> _] | [-> | ->]].
    + reflexivity.
    + left. split; reflexivity.
    + right. split; [reflexivity|].
      change (hour_12 (py_int hh) (map ascii_lower (cps "PM")))
        with (if py_int hh =? 12 then py_int hh else py_int hh + 12).
      destruct (Z.eqb_spec (py_int hh) 12) as [->|]; reflexivity.
Qed.

Lemma header_timestamp_reading_witness :
  reads_header (H:=ascii_only) midnight_groups (mkdatetime 2024 1 1 0 0).
Proof.
  apply (header_timestamp_reading ascii_only midnight_line);
    vm_compute; reflexivity.
Defined.

(* ================================================================= *)
(** ** Further properties of the aggregates *)

Lemma sum_counts_incr {K} `{EqDec K} (k : K) c :
  sum_counts (incr k c) = sum_counts c + 1.
Proof.
  induction c as [|[k' v] c IH]; simpl; [reflexivity|].
  destruct (eq_dec k' k); simpl; lia.
Qed.

Lemma sum_counts_count_into {K} `{EqDec K} (toks : list K) : forall c,
  sum_counts (count_into c toks) = sum_counts c + Z.of_nat (length toks).
Proof.
  induction toks as [|t toks IH]; intros c; [simpl; lia|].
  change (count_into c (t :: toks)) with (count_into (incr t c) toks).
  rewrite IH, sum_counts_incr. simpl length. lia.
Qed.

Lemma count_into_tallies {K} `{EqDec K} (toks : list K) :
  tallies toks (count_into [] toks).
Proof.
  destruct (count_into_spec toks) as (Hnd & Hin & Hget & Hord).
  repeat split; auto.
  - apply Hin. change k with (fst (k, v)). now apply in_map.
  - assert (Hk : In k toks).
    { apply Hin. change k with (fst (k, v)). now apply in_map. }
    rewrite <- (get_in k v _ Hnd H0), Hget. unfold occurrences.
    apply (count_occ_In eq_dec) in Hk. lia.
  - now rewrite sum_counts_count_into.
Qed.

(** X1. Each of the four counting aggregates lists its keys once, in the
    order of their first message, gives every key the number of messages
    that carry it (never less than 1), and its counts add up to the number
    of messages. *)
Theorem aggregates_tally (msgs : list Message) :
  tallies (senders_of msgs) (message_counts msgs) /\
  tallies (days_of msgs) (messages_by_day msgs) /\
  tallies (hours_of msgs) (messages_by_hour msgs) /\
  tallies (weekdays_of msgs) (messages_by_weekday msgs).
Proof.
  unfold message_counts, messages_by_day, messages_by_hour, messages_by_weekday.
  rewrite !fold_incr_map.
  split; [|split; [|split]]; apply count_into_tallies.
Qed.

(* ----------------------------------------------------------------- *)
(** *** The bars of the hour and weekday charts *)

Lemma dict_get_get (c : list (Z * Z)) k : dict_get c k 0 = get k c.
Proof.
  induction c as [|[k' v] c IH]; simpl; [reflexivity|].
  now destruct (eq_dec k' k).
Qed.

Lemma sum_list_app l1 l2 : sum_list (l1 ++ l2) = sum_list l1 + sum_list l2.
Proof. induction l1 as [|x l1 IH]; simpl; [reflexivity|]. rewrite IH. lia. Qed.

Lemma range_succ n : range (S n) = range n ++ [Z.of_nat n].
Proof. unfold range. now rewrite seq_S, map_app. Qed.

(** One value counts once over the range that contains it. *)
Lemma sum_indicator x n :
  sum_list (map (fun i => if Z.eq_dec x i then 1 else 0) (range n))
  = if (0 <=? x) && (x <? Z.of_nat n) then 1 else 0.
Proof.
  induction n as [|n IH].
  - simpl. destruct (Z.leb_spec 0 x), (Z.ltb_spec x 0); simpl; lia.
  - rewrite range_succ, map_app, sum_list_app, IH. simpl sum_list.
    rewrite Nat2Z.inj_succ.
    destruct (Z.eq_dec x (Z.of_nat n)) as [Heq|Hne];
      destruct (Z.leb_spec 0 x), (Z.ltb_spec x (Z.of_nat n)),
        (Z.ltb_spec x (Z.succ (Z.of_nat n))); simpl; lia.
Qed.

Lemma sum_occurrences (l : list Z) n :
  (forall x, In x l -> 0 <= x < Z.of_nat n) ->
  sum_list (map (occurrences l) (range n)) = Z.of_nat (length l).
Proof.
  induction l as [|x l IH]; intros Hr.
  - unfold occurrences. simpl. induction (range n); simpl; auto.
  - assert (Hx : 0 <= x < Z.of_nat n) by (apply Hr; now left).
    assert (Hsplit : forall r,
      sum_list (map (occurrences (x :: l)) r)
      = sum_list (map (fun i => if Z.eq_dec x i then 1 else 0) r)
        + sum_list (map (occurrences l) r)).
    { induction r as [|i r IHr]; [reflexivity|]. simpl sum_list. rewrite IHr.
      unfold occurrences. simpl count_occ.
      unfold eq_dec, EqDec_Z.
      destruct (Z.eq_dec x i); rewrite ?Nat2Z.inj_succ; unfold Z.succ; ring. }
    rewrite Hsplit, sum_indicator, IH by (intros y Hy; apply Hr; now right).
    change (length (x :: l)) with (S (length l)). rewrite Nat2Z.inj_succ.
    destruct (Z.leb_spec 0 x), (Z.ltb_spec x (Z.of_nat n)); cbn [andb]; lia.
Qed.

Lemma bar_heights_sum (l : list Z) n :
  (forall x, In x l -> 0 <= x < Z.of_nat n) ->
  sum_list (bar_heights n (count_into [] l)) = Z.of_nat (length l).
Proof.
  intros Hr. unfold bar_heights. rewrite <- (sum_occurrences l n Hr).
  f_equal. apply map_ext. intros i. rewrite dict_get_get.
  apply (count_into_spec l).
Qed.

Lemma weekday_range d : 0 <= weekday d < 7.
Proof. unfold weekday. apply Z.mod_pos_bound. lia. Qed.

Lemma parse_loop_valid `{UnicodeDB} lines msgs msg :
  parse_loop lines [] None = Ok msgs -> In msg msgs ->
  valid_datetime (timestamp msg).
Proof.
  intros Hp Hin. apply parse_loop_ok in Hp.
  destruct Hp as (out & rest & -> & -> & Hf). simpl in Hin.
  destruct (Forall2_in_left _ _ _ _ Hf Hin) as (line & _ & g & _ & Hts & _).
  now apply parse_timestamp_valid in Hts.
Qed.

(** X2. The seven weekday bars always add up to the number of messages, and
    so do the twenty-four hour bars when every hour lies in 0..23, as it does
    for the messages returned by [parse_chat]: no message is left out of
    either chart. *)
Theorem chart_bars_cover_messages (U : UnicodeDB) (msgs : list Message) :
  sum_list (weekday_bars (messages_by_weekday msgs)) = Z.of_nat (length msgs) /\
  ((forall msg, In msg msgs -> 0 <= hour (timestamp msg) <= 23) ->
   sum_list (hour_bars (messages_by_hour msgs)) = Z.of_nat (length msgs)) /\
  (forall content, parse_chat content = Ok msgs ->
   sum_list (hour_bars (messages_by_hour msgs)) = Z.of_nat (length msgs)).
Proof.
  assert (Hh : (forall msg, In msg msgs -> 0 <= hour (timestamp msg) <= 23) ->
               sum_list (hour_bars (messages_by_hour msgs))
               = Z.of_nat (length msgs)).
  { intros Hr. unfold hour_bars, messages_by_hour. rewrite fold_incr_map.
    rewrite bar_heights_sum; [now rewrite length_map|].
    intros x Hx. apply in_map_iff in Hx. destruct Hx as (m & <- & Hm).
    specialize (Hr m Hm). simpl. lia. }
  split; [|split; [exact Hh|]].
  - unfold weekday_bars, messages_by_weekday. rewrite fold_incr_map.
    rewrite bar_heights_sum; [now rewrite length_map|].
    intros x Hx. apply in_map_iff in Hx. destruct Hx as (m & <- & Hm).
    pose proof (weekday_range (timestamp m)). simpl. lia.
  - intros content Hp. apply Hh. intros msg Hin.
    apply (parse_loop_valid _ _ _ Hp) in Hin. unfold valid_datetime in Hin. lia.
Qed.

Lemma chart_bars_cover_messages_witness :
  sum_list (hour_bars (messages_by_hour two_hours)) = 2.
Proof.
  apply (proj1 (proj2 (chart_bars_cover_messages ascii_only two_hours))).
  intros msg [<-|[<-|[]]]; simpl; lia.
Defined.

(* ================================================================= *)
(** ** Further properties of the roast engine *)

(** X3. On a non-empty message sequence the peak weekday is one of 0..6, so
    the weekday shown is one of the seven names of [_WEEKDAY_NAMES] and the
    fallback ["Unknown day"] is never used. *)
Theorem peak_weekday_has_name (msgs : list Message) :
  msgs <> [] ->
  0 <= peak_weekday_of msgs <= 6 /\
  In (peak_weekday_of msgs, peak_weekday_name msgs) _WEEKDAY_NAMES /\
  peak_weekday_name msgs <> cps "Unknown day".
Proof.
  intros Hne.
  assert (Hin : In (peak_weekday_of msgs) (weekdays_of msgs)).
  { unfold peak_weekday_of, messages_by_weekday. rewrite fold_incr_map.
    apply (argmax_count_spec (weekdays_of msgs) 0).
    unfold weekdays_of. destruct msgs; [congruence|discriminate]. }
  unfold weekdays_of in Hin. apply in_map_iff in Hin.
  destruct Hin as (m & Hm & _). pose proof (weekday_range (timestamp m)) as Hr.
  rewrite Hm in Hr. unfold peak_weekday_name.
  set (p := peak_weekday_of msgs) in *. clearbody p. split; [lia|].
  assert (Hp : p = 0 \/ p = 1 \/ p = 2 \/ p = 3 \/ p = 4 \/ p = 5 \/ p = 6) by lia.
  destruct Hp as [->|[->|[->|[->|[->|[->| ->]]]]]];
    (split; [vm_compute; tauto|vm_compute; discriminate]).
Qed.

Lemma peak_weekday_has_name_witness :
  0 <= peak_weekday_of two_hours <= 6.
Proof. apply (peak_weekday_has_name two_hours). discriminate. Defined.

Lemma in_range_24 h : 0 <= h <= 23 -> In h (range 24).
Proof.
  intros Hh. unfold range. apply in_map_iff. exists (Z.to_nat h).
  split; [lia|]. apply in_seq. lia.
Qed.

(** X4. On the hours 0..23 [_format_hour] renders an hour number between 1
    and 12 followed by AM (before noon) or PM, with 0 shown as 12AM and 12
    as 12PM, and no two hours of the day are rendered alike. *)
Theorem format_hour_distinct (h1 h2 : Z) :
  0 <= h1 <= 23 -> 0 <= h2 <= 23 ->
  (exists h12, 1 <= h12 <= 12 /\ (h12 - h1) mod 12 = 0 /\
     _format_hour h1 = str_of_Z h12 ++ (if h1 <? 12 then cps "AM" else cps "PM")) /\
  (_format_hour h1 = _format_hour h2 -> h1 = h2) /\
  _format_hour 0 = cps "12AM" /\ _format_hour 12 = cps "12PM".
Proof.
  intros H1 H2. split; [|split; [|split; reflexivity]].
  - exists (if h1 mod 12 =? 0 then 12 else h1 mod 12).
    pose proof (Z.mod_pos_bound h1 12 ltac:(lia)) as Hm.
    destruct (Z.eqb_spec (h1 mod 12) 0) as [E|E].
    + repeat split; try lia.
      * rewrite Zminus_mod, E. reflexivity.
      * unfold _format_hour. rewrite E. reflexivity.
    + repeat split; try lia.
      * rewrite Zminus_mod, Z.mod_mod, Z.sub_diag by lia. reflexivity.
      * unfold _format_hour. destruct (Z.eqb_spec (h1 mod 12) 0); [lia|].
        reflexivity.
  - assert (Hall : forallb (fun a => forallb (fun b =>
              implb (str_eqb (_format_hour a) (_format_hour b)) (a =? b))
              (range 24)) (range 24) = true) by (vm_compute; reflexivity).
    rewrite forallb_forall in Hall.
    specialize (Hall h1 (in_range_24 h1 H1)). rewrite forallb_forall in Hall.
    specialize (Hall h2 (in_range_24 h2 H2)).
    intros E. unfold str_eqb in Hall.
    destruct (eq_dec (_format_hour h1) (_format_hour h2)); [|contradiction].
    simpl in Hall. now apply Z.eqb_eq.
Qed.

Lemma format_hour_distinct_witness :
  exists h12, 1 <= h12 <= 12 /\ (h12 - 21) mod 12 = 0 /\
    _format_hour 21 = str_of_Z h12 ++ (if 21 <? 12 then cps "AM" else cps "PM").
Proof. apply (format_hour_distinct 21 9); lia. Defined.

Lemma mem_In {K} `{EqDec K} (x : K) l : mem x l = true <-> In x l.
Proof.
  unfold mem. rewrite existsb_exists. split.
  - intros (y & Hy & E). destruct (eq_dec y x) as [<-|]; [exact Hy|discriminate].
  - intros Hx. exists x. split; [exact Hx|].
    destruct (eq_dec x x); [reflexivity|congruence].
Qed.

(** X5. The level only matters through its lower-cased spelling: two ASCII
    spellings that differ in case give the same roast, any level outside
    mild, medium and savage gives the roast of medium, and the empty message
    list gives the fixed sentence whatever the level. *)
Theorem level_is_normalised (U : UnicodeDB) (msgs : list Message)
    (level level' : str) :
  (forallb is_ascii level = true -> forallb is_ascii level' = true ->
   map ascii_lower level = map ascii_lower level' ->
   generate_roast msgs level = generate_roast msgs level') /\
  (~ In (lower level) [cps "mild"; cps "medium"; cps "savage"] ->
   generate_roast msgs level = generate_roast msgs (cps "medium")) /\
  generate_roast [] level = cps "No messages to roast.".
Proof.
  split; [|split; [|reflexivity]].
  - intros Ha Ha' E. unfold generate_roast, normalize_level, lower.
    now rewrite Ha, Ha', E.
  - intros Hn. unfold generate_roast. f_equal.
    unfold normalize_level at 1.
    destruct (mem (lower level) [cps "mild"; cps "medium"; cps "savage"]) eqn:E.
    + apply mem_In in E. contradiction.
    + reflexivity.
Qed.

Lemma level_is_normalised_witness :
  generate_roast (H:=ascii_only) two_hours (cps "extreme")
  = generate_roast (H:=ascii_only) two_hours (cps "medium").
Proof.
  apply (level_is_normalised ascii_only two_hours (cps "extreme") []).
  vm_compute. intros [E|[E|[E|[]]]]; discriminate.
Defined.

(* ----------------------------------------------------------------- *)
(** *** Top and bottom sender, percentages, and shorter top lists *)

Lemma sorted_counts_ranked {K} `{EqDec K} (toks : list K) :
  StronglySorted (ranks_before toks) (sorted_desc (count_into [] toks)).
Proof.
  destruct (count_into_spec toks) as (_ & _ & _ & Hord).
  apply (sorted_desc_sorted (fun x y => first_before toks (fst x) (fst y))).
  now apply StronglySorted_map.
Qed.

(** X6. On a non-empty message sequence the top sender of [generate_roast]
    ranks before every other sender and the bottom sender after every other
    sender, where a sender ranks before another when it has more messages, or
    as many and its first message comes earlier; both carry their true
    message counts. *)
Theorem sender_ranking (msgs : list Message) :
  msgs <> [] ->
  let senders := senders_of msgs in
  let top := top_sender_entry msgs in
  let bottom := bottom_sender_entry msgs in
  In (fst top) senders /\ snd top = occurrences senders (fst top) /\
  In (fst bottom) senders /\ snd bottom = occurrences senders (fst bottom) /\
  forall s, In s senders ->
    (s = fst top \/ ranks_before senders top (s, occurrences senders s)) /\
    (s = fst bottom \/ ranks_before senders (s, occurrences senders s) bottom).
Proof.
  intros Hne senders top bottom. subst top bottom.
  unfold top_sender_entry, bottom_sender_entry, message_counts.
  rewrite fold_incr_map. fold (senders_of msgs). fold senders.
  destruct (count_into_spec senders) as (Hnd & Hin & Hget & _).
  pose proof (sorted_counts_ranked senders) as Hs.
  pose proof (sorted_desc_perm (count_into [] senders)) as Hperm.
  set (c := count_into [] senders) in *. set (S := sorted_desc c) in *.
  assert (Hentry : forall e, In e S -> In (fst e) senders /\
                                       snd e = occurrences senders (fst e)).
  { intros [k v] He. apply (Permutation_in _ Hperm) in He. simpl. split.
    - apply Hin. change k with (fst (k, v)). now apply in_map.
    - rewrite <- Hget. symmetry. now apply get_in. }
  assert (Hmem : forall s, In s senders -> In (s, occurrences senders s) S).
  { intros s Hs'. apply (Permutation_in _ (Permutation_sym Hperm)).
    rewrite <- Hget. apply in_get. now apply Hin. }
  assert (HS : S <> []).
  { destruct msgs as [|m msgs]; [congruence|].
    intros E. specialize (Hmem (sender m) (or_introl eq_refl)).
    rewrite E in Hmem. exact Hmem. }
  destruct (exists_last HS) as (init & y & Ey).
  destruct S as [|x rest] eqn:ES; [congruence|]. simpl hd.
  assert (Hlast : last (x :: rest) ([], 0) = y).
  { rewrite Ey. apply last_last. }
  rewrite Hlast.
  assert (Hy : In y (x :: rest)).
  { rewrite Ey. apply in_or_app. right. now left. }
  destruct (Hentry x (or_introl eq_refl)) as [Hx1 Hx2].
  destruct (Hentry y Hy) as [Hy1 Hy2].
  split; [exact Hx1|]. split; [exact Hx2|]. split; [exact Hy1|].
  split; [exact Hy2|]. intros s Hsin. specialize (Hmem s Hsin). split.
  - destruct Hmem as [E|Hr].
    + left. now rewrite E.
    + right. inversion Hs as [|? ? _ Hf]; subst.
      rewrite Forall_forall in Hf. now apply Hf.
  - rewrite Ey in Hmem, Hs.
    apply in_app_or in Hmem. destruct Hmem as [Hi|[E|[]]].
    + right. apply StronglySorted_app_inv in Hs. destruct Hs as (_ & _ & Hc).
      apply Hc; [exact Hi|now left].
    + left. now rewrite E.
Qed.

Lemma sender_ranking_witness :
  fst (top_sender_entry two_hours) = cps "Alice" /\
  In (fst (top_sender_entry two_hours)) (senders_of two_hours).
Proof.
  split; [reflexivity|].
  apply (sender_ranking two_hours). discriminate.
Defined.

(** X7. For counts [0 <= part <= whole <= 2^40] with [whole] positive the
    percentage lies between 0 and 100, and when [part / whole * 100] is a
    whole number the percentage is exactly that number. *)
Theorem percentage_in_range (part whole : Z) :
  0 <= part <= whole -> 0 < whole <= 2 ^ 40 ->
  0 <= _percentage part whole <= 100 /\
  (forall k, 100 * part = k * whole -> _percentage part whole = k).
Proof.
  intros Hp Hw. pose proof (percentage_nearest part whole Hp Hw) as Hn.
  set (r := _percentage part whole) in *. clearbody r.
  assert (Hw0 : 0 < whole) by lia. clear Hw.

  assert (Hlo : - whole <= 2 * (whole * r - 100 * part)) by lia.
  assert (Hhi : 2 * (whole * r - 100 * part) <= whole) by lia.
  split; [split|].
  - destruct (Z_le_gt_dec 0 r) as [|Hneg]; [assumption|exfalso].
    assert (whole * r <= whole * (-1)) by (apply Z.mul_le_mono_nonneg_l; lia).
    lia.
  - destruct (Z_le_gt_dec r 100) as [|Hbig]; [assumption|exfalso].
    assert (whole * 101 <= whole * r) by (apply Z.mul_le_mono_nonneg_l; lia).
    lia.
  - intros k Hk. rewrite Hk in Hlo, Hhi.
    replace (whole * r - k * whole) with (whole * (r - k)) in Hlo, Hhi by ring.
    destruct (Z.lt_trichotomy r k) as [Hlt|[E|Hgt]]; [exfalso|exact E|exfalso].
    + assert (whole * (r - k) <= whole * (-1))
        by (apply Z.mul_le_mono_nonneg_l; lia). lia.
    + assert (whole * 1 <= whole * (r - k))
        by (apply Z.mul_le_mono_nonneg_l; lia). lia.
Qed.

Lemma percentage_in_range_witness : _percentage 1 4 = 25.
Proof.
  apply (percentage_in_range 1 4); [lia| |reflexivity].
  split; [lia|]. intros H. vm_compute in H. discriminate.
Defined.

Lemma most_common_prefix {K} `{EqDec K} (c : list (K * Z)) n m :
  0 < n <= m -> most_common n c = firstn (Z.to_nat n) (most_common m c).
Proof.
  intros Hnm. unfold most_common.
  destruct (Z.leb_spec n 0); [lia|]. destruct (Z.leb_spec m 0); [lia|].
  rewrite firstn_firstn. f_equal. lia.
Qed.

(** X8. Asking for fewer items gives a prefix of the longer answer: for
    [0 < n <= m] the top [n] words (emojis) are the first [n] of the top [m].
    In particular the word and emoji named in the roast head the lists of
    ten words and five emojis that the charts show. *)
Theorem shorter_top_is_prefix (U : UnicodeDB) (msgs : list Message) (n m : Z) :
  0 < n <= m ->
  top_words msgs n = firstn (Z.to_nat n) (top_words msgs m) /\
  top_emojis msgs n = firstn (Z.to_nat n) (top_emojis msgs m).
Proof.
  intros Hnm. rewrite !top_words_eq, !top_emojis_eq.
  split; now apply most_common_prefix.
Qed.

Lemma shorter_top_is_prefix_witness :
  top_words (H:=ascii_only) two_hours 1
  = firstn 1 (top_words (H:=ascii_only) two_hours 10).
Proof. apply (shorter_top_is_prefix ascii_only two_hours 1 10). lia. Defined.

(* ----------------------------------------------------------------- *)
(** *** Word and emoji tokens *)

Lemma runs_aux_concat p s : forall cur,
  concat (runs_aux p cur s) = rev cur ++ filter p s.
Proof.
  induction s as [|c s IH]; intros cur; simpl.
  - destruct cur; simpl; now rewrite ?app_nil_r.
  - destruct (p c) eqn:Ep.
    + rewrite IH. simpl. now rewrite <- app_assoc.
    + destruct cur as [|a cur]; simpl; rewrite IH; reflexivity.
Qed.

Lemma runs_aux_class p s : forall cur,
  forallb p cur = true ->
  Forall (fun r => forallb p r = true) (runs_aux p cur s).
Proof.
  assert (Hrev : forall l, forallb p l = true -> forallb p (rev l) = true).
  { intros l Hl. rewrite forallb_forall in *. intros x Hx. apply Hl.
    now apply in_rev. }
  induction s as [|c s IH]; intros cur Hcur; simpl.
  - destruct cur; constructor; [now apply Hrev|constructor].
  - destruct (p c) eqn:Ep.
    + apply IH. simpl. now rewrite Ep.
    + destruct cur as [|a cur]; [now apply IH|].
      constructor; [now apply Hrev|now apply IH].
Qed.

(** What [findall] returns for a pattern [[class]+]. *)
Lemma runs_spec p s :
  concat (runs p s) = filter p s /\
  Forall (fun r => r <> [] /\ forallb p r = true) (runs p s).
Proof.
  unfold runs. split; [apply runs_aux_concat|].
  pose proof (runs_aux_nonempty p s []) as H1.
  pose proof (runs_aux_class p s [] eq_refl) as H2.
  rewrite Forall_forall in *. intros r Hr. split; auto.
Qed.

(** X9. The emoji tokens of a text are non-empty runs of emoji characters
    and, put end to end, they are exactly the emoji characters of the text
    in their order: no emoji character is dropped or duplicated. *)
Theorem emoji_tokens_cover_text (t : str) :
  concat (extract_emojis t) = filter is_emoji t /\
  forall e, In e (extract_emojis t) -> e <> [] /\ forallb is_emoji e = true.
Proof.
  unfold extract_emojis. destruct (runs_spec is_emoji t) as [Hc Hf].
  split; [exact Hc|]. now rewrite Forall_forall in Hf.
Qed.

Lemma ascii_lower_not_upper c : in_range 65 90 (ascii_lower c) = false.
Proof.
  unfold ascii_lower. destruct (in_range 65 90 c) eqn:E; [|exact E].
  unfold in_range in *. apply andb_prop in E. destruct E as [E1 E2].
  apply N.leb_le in E1. apply N.leb_le in E2.
  apply andb_false_iff. right. apply N.leb_gt. lia.
Qed.

(** X10. Every word returned by [extract_words] is made of word characters
    only, has at least two characters and is not a stop word; for an ASCII
    text it contains no upper-case letter and each of its characters is the
    lower-case form of a character of the text. *)
Theorem words_are_filtered (U : UnicodeDB) (t w : str) :
  In w (extract_words t) ->
  forallb is_word_char w = true /\ (2 <= length w)%nat /\ ~ In w STOPWORDS /\
  (forallb is_ascii t = true ->
   forall c, In c w -> in_range 65 90 c = false /\ In c (map ascii_lower t)).
Proof.
  unfold extract_words, _WORD_RE_findall. intros Hw. apply filter_In in Hw.
  destruct Hw as [Hin Hf]. apply andb_prop in Hf. destruct Hf as [Hf Hlen].
  apply andb_prop in Hf. destruct Hf as [_ Hstop].
  destruct (runs_spec is_word_char (lower t)) as [Hc Hall].
  rewrite Forall_forall in Hall. destruct (Hall w Hin) as [_ Hcls].
  split; [exact Hcls|]. split; [now apply Nat.ltb_lt in Hlen|]. split.
  - intros Hs. apply mem_In in Hs. apply negb_true_iff in Hstop.
    exact (eq_true_false_abs _ Hs Hstop).
  - intros Ha c Hcw.
    assert (Hct : In c (map ascii_lower t)).
    { assert (In c (concat (runs is_word_char (lower t)))).
      { apply in_concat. exists w. auto. }
      rewrite Hc in H. apply filter_In in H. destruct H as [H _].
      unfold lower in H. now rewrite Ha in H. }
    split; [|exact Hct]. apply in_map_iff in Hct.
    destruct Hct as (x & <- & _). apply ascii_lower_not_upper.
Qed.

Lemma words_are_filtered_witness :
  forallb (is_word_char (H:=ascii_only)) (cps "hello") = true.
Proof.
  apply (words_are_filtered ascii_only (cps "Hello, I said: HELLO") (cps "hello")).
  vm_compute. tauto.
Defined.

(* ================================================================= *)
(** ** Further properties of the parser *)

Lemma parse_loop_block `{UnicodeDB} lines : forall rest acc cur,
  no_header lines ->
  parse_loop (lines ++ rest) acc cur
  = parse_loop rest acc (option_map (append_text lines) cur).
Proof.
  induction lines as [|raw lines IH]; intros rest acc cur Hno.
  - simpl app. destruct cur as [[ts s t]|]; [|reflexivity].
    unfold option_map, append_text, continuation_text. simpl.
    now rewrite app_nil_r.
  - assert (Hraw : header_match (strip is_newline raw) = None).
    { apply Hno. now left. }
    assert (Hrest : no_header lines).
    { intros l Hl. apply Hno. now right. }
    change ((raw :: lines) ++ rest) with (raw :: (lines ++ rest)).
    cbn [parse_loop]. cbv zeta.
    unfold append_text, continuation_text. cbn [flat_map]. fold (continuation_text lines).
    destruct (strip is_newline raw) as [|c0 line] eqn:El.
    + rewrite IH by exact Hrest. destruct cur; reflexivity.
    + rewrite Hraw. destruct cur as [[ts s t]|].
      * rewrite IH by exact Hrest. unfold option_map, append_text. cbn [timestamp sender text].
        now rewrite <- app_assoc.
      * now rewrite IH by exact Hrest.
Qed.

(** X11. A block of lines none of which matches the header pattern changes
    only the text of the record being assembled: every non-empty line is
    appended after a line break, in order, and empty lines add nothing; when
    no record has been started the block is discarded.  So a header line
    followed by such lines up to the end of the file gives one record whose
    text is the header's text followed by those lines. *)
Theorem continuation_lines_append (U : UnicodeDB) (lines rest : list str)
    (acc : list Message) (cur : option Message) :
  no_header lines ->
  parse_loop (lines ++ rest) acc cur
    = parse_loop rest acc (option_map (append_text lines) cur) /\
  parse_loop (lines ++ rest) acc None = parse_loop rest acc None /\
  forall header g ts,
    header_match (strip is_newline header) = Some g ->
    _parse_timestamp (group_str "date" g) (group_str "time" g) (group "ampm" g)
      = Ok ts ->
    parse_loop (header :: lines) [] None
      = Ok [mkMessage ts (strip is_space (group_str "sender" g))
                      (group_str "text" g ++ continuation_text lines)].
Proof.
  intros Hno. split; [now apply parse_loop_block|].
  split; [now rewrite parse_loop_block|].
  intros header g ts Hg Hts. cbn [parse_loop]. cbv zeta.
  destruct (strip is_newline header) as [|c0 line] eqn:El.
  - rewrite header_match_empty in Hg. discriminate.
  - rewrite Hg, Hts. cbn [bind].
    rewrite <- (app_nil_r lines) at 1. rewrite parse_loop_block by exact Hno.
    reflexivity.
Qed.

Lemma continuation_lines_append_witness :
  parse_loop (H:=ascii_only) two_line_message [] None
  = Ok [mkMessage (mkdatetime 2023 5 1 13 0) (cps "X")
          (cps "hi" ++ [10%N] ++ cps "and more" ++ [10%N] ++ cps "bye")].
Proof.
  apply (proj2 (proj2 (continuation_lines_append ascii_only
           (tl two_line_message) [] [] None ltac:(intros l [<-|[<-|[<-|[]]]]; vm_compute; reflexivity)))
         (hd [] two_line_message)
         (match header_match (H:=ascii_only) (cps "5/1/23, 1:00 PM - X: hi") with
          | Some g => g | None => [] end)
         (mkdatetime 2023 5 1 13 0));
    vm_compute; reflexivity.
Defined.

(* ----------------------------------------------------------------- *)
(** *** Years and 12-hour readings that [strptime] accepts *)

Lemma digit_val_ascii `{UnicodeDB} c :
  in_range 48 57 c = true -> digit_val c = Some (Z.of_N c - 48).
Proof. unfold digit_val. now intros ->. Qed.

Lemma in_range_bounds lo hi c :
  in_range lo hi c = true -> (lo <= c <= hi)%N.
Proof.
  unfold in_range. rewrite andb_true_iff, !N.leb_le. tauto.
Qed.

Lemma int_digits_one `{UnicodeDB} a :
  in_range 48 57 a = true -> py_int [a] = Z.of_N a - 48.
Proof.
  intros Ha. rewrite py_int_digits.
  - unfold int_digits. simpl. rewrite (digit_val_ascii a Ha). lia.
  - simpl. now rewrite (ascii_digit_is_digit a Ha).
Qed.

Lemma int_digits_two `{UnicodeDB} a b :
  in_range 48 57 a = true -> in_range 48 57 b = true ->
  py_int [a; b] = 10 * (Z.of_N a - 48) + (Z.of_N b - 48).
Proof.
  intros Ha Hb. rewrite py_int_digits.
  - unfold int_digits. simpl.
    rewrite (digit_val_ascii a Ha), (digit_val_ascii b Hb). lia.
  - simpl. now rewrite (ascii_digit_is_digit a Ha), (ascii_digit_is_digit b Hb).
Qed.

Lemma Sem_range_inv lo hi s rest g g' :
  Sem (Range lo hi) s rest g g' -> exists c, s = [c] /\ in_range lo hi c = true.
Proof.
  unfold Range. intros Hs. apply Sem_chr_inv in Hs.
  destruct Hs as (c & -> & Hc & _). eauto.
Qed.

(** The hour of a 12-hour clock, as [%I] accepts it, is between 1 and 12. *)
Lemma Sem_I_value `{UnicodeDB} s rest g g' :
  Sem re_I s rest g g' -> 1 <= py_int s <= 12.
Proof.
  unfold re_I, alts. cbn [fold_left]. intros Hs.
  apply Sem_group_inv in Hs. destruct Hs as (g0 & _ & Hs).
  inversion Hs as [| | |? ? ? ? ? ? Hl|? ? ? ? ? ? Hr| | |]; subst.
  - inversion Hl as [| | |? ? ? ? ? ? Hl1|? ? ? ? ? ? Hl2| | |]; subst.
    + seq_step Hl1 a1 H1. apply Sem_lit_inv in H1. destruct H1 as [-> _].
      apply Sem_range_inv in Hl1. destruct Hl1 as (c & -> & Hc).
      pose proof (in_range_bounds _ _ _ Hc).
      change ([49%N] ++ [c]) with [49%N; c].
      rewrite int_digits_two; [lia|reflexivity|].
      revert Hc. apply in_range_sub; lia.
    + seq_step Hl2 a1 H1. apply Sem_lit_inv in H1. destruct H1 as [-> _].
      apply Sem_range_inv in Hl2. destruct Hl2 as (c & -> & Hc).
      pose proof (in_range_bounds _ _ _ Hc).
      change ([48%N] ++ [c]) with [48%N; c].
      rewrite int_digits_two; [lia|reflexivity|].
      revert Hc. apply in_range_sub; lia.
  - apply Sem_range_inv in Hr. destruct Hr as (c & -> & Hc).
    pose proof (in_range_bounds _ _ _ Hc).
    rewrite int_digits_one; [lia|]. revert Hc. apply in_range_sub; lia.
Qed.

(** [%Y] takes exactly four digits. *)
Lemma Sem_Y_length `{UnicodeDB} s rest g g' :
  Sem re_Y s rest g g' -> length s = 4%nat.
Proof.
  unfold re_Y, seqs. cbn [fold_right]. intros Hs.
  apply Sem_group_inv in Hs. destruct Hs as (g0 & _ & Hs).
  seq_step Hs a1 H1. seq_step Hs a2 H2. seq_step Hs a3 H3. seq_step Hs a4 H4.
  apply Sem_eps_inv in Hs. destruct Hs as [-> _].
  apply Sem_chr_inv in H1. destruct H1 as (c1 & -> & _).
  apply Sem_chr_inv in H2. destruct H2 as (c2 & -> & _).
  apply Sem_chr_inv in H3. destruct H3 as (c3 & -> & _).
  apply Sem_chr_inv in H4. destruct H4 as (c4 & -> & _).
  reflexivity.
Qed.

(** What an accepted string says about its year and hour fields. *)
Lemma strptime_year_and_hour `{UnicodeDB} s fmt ts :
  strptime s fmt = Ok ts ->
  exists M D Y w ws Hh tail,
    s = M ++ 47%N :: D ++ 47%N :: Y ++ 44%N :: (w :: ws) ++ Hh ++ 58%N :: tail /\
    forallb is_digit M = true /\ forallb (not_char 47) D = true /\
    forallb is_digit Y = true /\ length Y = 4%nat /\
    is_space w = true /\ forallb is_space ws = true /\
    forallb is_digit Hh = true /\
    (fmt = Clock12 -> 1 <= py_int Hh <= 12).
Proof.
  unfold strptime, re_match.
  destruct (rmatch (format_regex fmt) s [] (fun s' g0 => Some (g0, s')))
    as [[g r]|] eqn:E; [|discriminate].
  destruct r as [|c r]; [|discriminate]. intros _.
  apply rmatch_sound in E. destruct E as (s1 & rest & g' & -> & Hs & Hk).
  inversion Hk; subst g' rest. clear Hk. rewrite app_nil_r.
  destruct fmt; unfold format_regex, seqs in Hs; cbn [fold_right] in Hs.
  - seq_step Hs M Hm. seq_step Hs a2 H2. seq_step Hs D HD. seq_step Hs a4 H4.
    seq_step Hs Y HY. seq_step Hs a6 H6. seq_step Hs W HW. seq_step Hs Hh HI.
    seq_step Hs a9 H9.
    pose proof (Sem_I_value _ _ _ _ HI) as Hval.
    pose proof (Sem_Y_length _ _ _ _ HY) as Hlen.
    apply Sem_lit_inv in H9. destruct H9 as [-> _].
    apply (Sem_directive is_digit) in HI; [|reflexivity|apply re_m_digits].
    destruct HI as [_ HI].
    apply Sem_plus_inv in HW. destruct HW as (w & ws & -> & Hw & Hws & _).
    apply Sem_lit_inv in H6. destruct H6 as [-> _].
    apply (Sem_directive is_digit) in HY; [|reflexivity|apply re_Y_digits].
    destruct HY as [_ HY].
    apply Sem_lit_inv in H4. destruct H4 as [-> _].
    apply (Sem_directive (not_char 47)) in HD; [|reflexivity|apply re_d_no_slash].
    destruct HD as [_ HD].
    apply Sem_lit_inv in H2. destruct H2 as [-> _].
    apply (Sem_directive is_digit) in Hm; [|reflexivity|apply re_m_digits].
    destruct Hm as [_ Hm].
    exists M, D, Y, w, ws, Hh. eexists. split; [reflexivity|].
    repeat (split; [assumption|]). intros _. exact Hval.
  - seq_step Hs M Hm. seq_step Hs a2 H2. seq_step Hs D HD. seq_step Hs a4 H4.
    seq_step Hs Y HY. seq_step Hs a6 H6. seq_step Hs W HW. seq_step Hs Hh HH.
    seq_step Hs a9 H9.
    pose proof (Sem_Y_length _ _ _ _ HY) as Hlen.
    apply Sem_lit_inv in H9. destruct H9 as [-> _].
    apply (Sem_directive is_digit) in HH; [|reflexivity|apply re_H_digits].
    destruct HH as [_ HH].
    apply Sem_plus_inv in HW. destruct HW as (w & ws & -> & Hw & Hws & _).
    apply Sem_lit_inv in H6. destruct H6 as [-> _].
    apply (Sem_directive is_digit) in HY; [|reflexivity|apply re_Y_digits].
    destruct HY as [_ HY].
    apply Sem_lit_inv in H4. destruct H4 as [-> _].
    apply (Sem_directive (not_char 47)) in HD; [|reflexivity|apply re_d_no_slash].
    destruct HD as [_ HD].
    apply Sem_lit_inv in H2. destruct H2 as [-> _].
    apply (Sem_directive is_digit) in Hm; [|reflexivity|apply re_m_digits].
    destruct Hm as [_ Hm].
    exists M, D, Y, w, ws, Hh. eexists. split; [reflexivity|].
    repeat (split; [assumption|]). discriminate.
Qed.

Lemma parse_timestamp_more `{UnicodeDB} mo dy yr hh mi ampm ts :
  forallb is_digit mo = true -> forallb is_digit dy = true ->
  forallb is_digit yr = true -> forallb is_digit hh = true ->
  forallb is_digit mi = true ->
  ampm = None \/ ampm = Some (cps "AM") \/ ampm = Some (cps "PM") ->
  _parse_timestamp (mo ++ 47%N :: dy ++ 47%N :: yr) (hh ++ 58%N :: mi) ampm
    = Ok ts ->
  length (full_year yr) = 4%nat /\ (ampm <> None -> 1 <= py_int hh <= 12).
Proof.
  intros Hmo Hdy Hyr Hhh Hmi Hap. unfold _parse_timestamp.
  rewrite split_date by assumption. cbv beta iota zeta.
  change (if Nat.eqb (length yr) 2 then cps "20" ++ yr else yr) with (full_year yr).
  pose proof (full_year_digits yr Hyr) as Hfy.
  set (fy := full_year yr) in *. clearbody fy.
  change (cps "/") with [47%N]. change (cps ", ") with [44%N; 32%N].
  change (cps " ") with [32%N].
  assert (Hgen : forall fmt x,
    strptime (mo ++ [47%N] ++ dy ++ [47%N] ++ fy ++ [44%N; 32%N] ++ (hh ++ 58%N :: mi) ++ x) fmt
      = Ok ts ->
    length fy = 4%nat /\ (fmt = Clock12 -> 1 <= py_int hh <= 12)).
  { intros fmt x Hs. apply strptime_year_and_hour in Hs.
    destruct Hs as (M & D & Y & w & ws & Hh & tail & E & HM & HD & HY & Hlen
                    & Hw & Hws & HHh & Hval).
    cbn [app] in E. rewrite <- ?app_assoc in E. cbn [app] in E.
    apply date_prefix_unique in E; try assumption.
    destruct E as (-> & -> & -> & E). symmetry in E.
    apply hour_prefix_unique in E; try assumption.
    destruct E as [-> _]. auto. }
  destruct Hap as [-> | [-> | ->]].
  - intros Hs. rewrite <- (app_nil_r (hh ++ 58%N :: mi)) in Hs.
    apply Hgen in Hs. destruct Hs as [Hl _]. split; [exact Hl|congruence].
  - change (cps "AM") with [65%N; 77%N]. cbv iota. intros Hs.
    apply Hgen in Hs. destruct Hs as [Hl Hv]. split; [exact Hl|]. intros _. now apply Hv.
  - change (cps "PM") with [80%N; 77%N]. cbv iota. intros Hs.
    apply Hgen in Hs. destruct Hs as [Hl Hv]. split; [exact Hl|]. intros _. now apply Hv.
Qed.

(** The readings of a header that parses, with the facts [strptime] checks. *)
Lemma header_timestamp_more `{UnicodeDB} line g ts :
  header_match line = Some g ->
  _parse_timestamp (group_str "date" g) (group_str "time" g) (group "ampm" g)
    = Ok ts ->
  exists mo dy yr hh mi,
    group_str "date" g = mo ++ 47%N :: dy ++ 47%N :: yr /\
    group_str "time" g = hh ++ 58%N :: mi /\
    forallb is_digit mo = true /\ forallb is_digit dy = true /\
    forallb is_digit yr = true /\ forallb is_digit hh = true /\
    forallb is_digit mi = true /\
    (group "ampm" g = None \/ group "ampm" g = Some (cps "AM")
     \/ group "ampm" g = Some (cps "PM")) /\
    ts = mkdatetime (py_int (full_year yr)) (py_int mo) (py_int dy)
           (match group "ampm" g with
            | None => py_int hh
            | Some ap => hour_12 (py_int hh) (map ascii_lower ap)
            end) (py_int mi) /\
    length (full_year yr) = 4%nat /\
    (group "ampm" g <> None -> 1 <= py_int hh <= 12).
Proof.
  intros Hg Hts. apply header_match_fields in Hg.
  destruct Hg as (mo & dy & yr & hh & mi & ag & sf & tf & -> & Hag & Hmo & Hdy
                  & Hyr & Hhh & Hmi & _ & _).
  assert (Hdate : group_str "date" (header_groups mo dy yr hh mi ag sf tf)
                  = mo ++ 47%N :: dy ++ 47%N :: yr).
  { destruct Hag as [-> | [-> | ->]]; reflexivity. }
  assert (Htime : group_str "time" (header_groups mo dy yr hh mi ag sf tf)
                  = hh ++ 58%N :: mi).
  { destruct Hag as [-> | [-> | ->]]; reflexivity. }
  assert (Hampm : group "ampm" (header_groups mo dy yr hh mi ag sf tf) = None
                  \/ group "ampm" (header_groups mo dy yr hh mi ag sf tf) = Some (cps "AM")
                  \/ group "ampm" (header_groups mo dy yr hh mi ag sf tf) = Some (cps "PM")).
  { destruct Hag as [-> | [-> | ->]]; [left|right; left|right; right];
      reflexivity. }
  rewrite Hdate, Htime in Hts.
  set (G := header_groups mo dy yr hh mi ag sf tf) in *. clearbody G.
  pose proof (parse_timestamp_fields _ _ _ _ _ _ _ Hmo Hdy Hyr Hhh Hmi Hampm Hts) as Hf.
  pose proof (parse_timestamp_more _ _ _ _ _ _ _ Hmo Hdy Hyr Hhh Hmi Hampm Hts)
    as [Hl Hv].
  exists mo, dy, yr, hh, mi. repeat (split; [assumption|]). exact Hv.
Qed.

(** X12. When a header parses, the year field of its date has two or four
    digits: a two-digit year gives [2000 + year] (2000..2099 for ASCII
    digits, never 19xx) and a four-digit year is taken as it stands.  A
    three-digit year, which the header pattern accepts, therefore never
    parses. *)
Theorem year_has_two_or_four_digits (U : UnicodeDB) (line : str) (g : groups)
    (ts : datetime) :
  header_match line = Some g ->
  _parse_timestamp (group_str "date" g) (group_str "time" g) (group "ampm" g)
    = Ok ts ->
  exists mo dy yr,
    group_str "date" g = mo ++ 47%N :: dy ++ 47%N :: yr /\
    forallb is_digit mo = true /\ forallb is_digit dy = true /\
    forallb is_digit yr = true /\
    (length yr = 2%nat /\ year ts = 2000 + py_int yr \/
     length yr = 4%nat /\ year ts = py_int yr) /\
    (length yr = 2%nat -> forallb (in_range 48 57) yr = true ->
     2000 <= year ts <= 2099).
Proof.
  intros Hg Hts.
  destruct (header_timestamp_more line g ts Hg Hts)
    as (mo & dy & yr & hh & mi & Hd & _ & Hmo & Hdy & Hyr & _ & _ & _ & -> & Hl & _).
  exists mo, dy, yr. repeat (split; [assumption|]). cbn [year].
  unfold full_year in *. destruct (Nat.eqb_spec (length yr) 2) as [E|E].
  - split; [left; split; [exact E|now apply py_int_century]|].
    intros _ Ha. rewrite py_int_century by assumption.
    destruct yr as [|a [|b [|]]]; try discriminate.
    simpl in Ha. rewrite andb_true_r in Ha. apply andb_prop in Ha.
    destruct Ha as [Ha Hb]. rewrite int_digits_two by assumption.
    apply in_range_bounds in Ha. apply in_range_bounds in Hb. lia.
  - split; [right; split; [exact Hl|reflexivity]|]. intros E'. contradiction.
Qed.

Lemma year_has_two_or_four_digits_witness :
  exists mo dy yr,
    group_str "date" midnight_groups = mo ++ 47%N :: dy ++ 47%N :: yr /\
    forallb (is_digit (H:=ascii_only)) mo = true /\
    forallb (is_digit (H:=ascii_only)) dy = true /\
    forallb (is_digit (H:=ascii_only)) yr = true /\
    (length yr = 2%nat /\ 2024 = 2000 + py_int (H:=ascii_only) yr \/
     length yr = 4%nat /\ 2024 = py_int (H:=ascii_only) yr) /\
    (length yr = 2%nat -> forallb (in_range 48 57) yr = true ->
     2000 <= 2024 <= 2099).
Proof.
  apply (year_has_two_or_four_digits ascii_only midnight_line midnight_groups
           (mkdatetime 2024 1 1 0 0)); vm_compute; reflexivity.
Defined.

(** X13. When a header with an AM/PM marker parses, its hour field is
    between 1 and 12; with AM the timestamp's hour is that field modulo 12
    (0..11) and with PM it is 12 more (12..23).  An hour field of 0 or above
    12 next to a marker therefore never parses. *)
Theorem marker_hour_range (U : UnicodeDB) (line : str) (g : groups)
    (ts : datetime) (ap : str) :
  header_match line = Some g ->
  _parse_timestamp (group_str "date" g) (group_str "time" g) (group "ampm" g)
    = Ok ts ->
  group "ampm" g = Some ap ->
  exists hh mi,
    group_str "time" g = hh ++ 58%N :: mi /\
    forallb is_digit hh = true /\ forallb is_digit mi = true /\
    1 <= py_int hh <= 12 /\
    (ap = cps "AM" /\ hour ts = py_int hh mod 12 /\ 0 <= hour ts <= 11 \/
     ap = cps "PM" /\ hour ts = py_int hh mod 12 + 12 /\ 12 <= hour ts <= 23).
Proof.
  intros Hg Hts Hap.
  destruct (header_timestamp_more line g ts Hg Hts)
    as (mo & dy & yr & hh & mi & _ & Ht & _ & _ & _ & Hhh & Hmi & Hcases & -> & _ & Hv).
  exists hh, mi. repeat (split; [assumption|]).
  assert (Hr : 1 <= py_int hh <= 12) by (apply Hv; congruence).
  split; [exact Hr|]. cbn [hour]. rewrite Hap in *.
  destruct Hcases as [Hc | [Hc | Hc]]; [discriminate| |]; inversion Hc; subst ap.
  - left. split; [reflexivity|].
    change (hour_12 (py_int hh) (map ascii_lower (cps "AM")))
      with (if py_int hh =? 12 then 0 else py_int hh).
    destruct (Z.eqb_spec (py_int hh) 12) as [E|E].
    + rewrite E. split; [reflexivity|lia].
    + rewrite Z.mod_small by lia. lia.
  - right. split; [reflexivity|].
    change (hour_12 (py_int hh) (map ascii_lower (cps "PM")))
      with (if py_int hh =? 12 then py_int hh else py_int hh + 12).
    destruct (Z.eqb_spec (py_int hh) 12) as [E|E].
    + rewrite E. split; [reflexivity|lia].
    + rewrite Z.mod_small by lia. lia.
Qed.

Lemma marker_hour_range_witness :
  exists hh mi,
    group_str "time" midnight_groups = hh ++ 58%N :: mi /\
    forallb (is_digit (H:=ascii_only)) hh = true /\
    forallb (is_digit (H:=ascii_only)) mi = true /\
    1 <= py_int (H:=ascii_only) hh <= 12 /\
    (cps "AM" = cps "AM" /\ 0 = py_int (H:=ascii_only) hh mod 12 /\ 0 <= 0 <= 11 \/
     cps "AM" = cps "PM" /\ 0 = py_int (H:=ascii_only) hh mod 12 + 12 /\ 12 <= 0 <= 23).
Proof.
  apply (marker_hour_range ascii_only midnight_line midnight_groups
           (mkdatetime 2024 1 1 0 0) (cps "AM")); vm_compute; reflexivity.
Defined.

(* ----------------------------------------------------------------- *)
(** *** Order of the reported percentages *)

Lemma percentage_monotone_aux part1 part2 whole :
  0 <= part1 <= part2 -> part2 <= whole -> 0 < whole <= 2 ^ 40 ->
  _percentage part1 whole <= _percentage part2 whole.
Proof.
  intros Hp Hp2 Hw.
  destruct (Z.eq_dec part1 part2) as [->|Hne]; [lia|].
  pose proof (percentage_nearest part1 whole ltac:(lia) Hw) as H1.
  pose proof (percentage_nearest part2 whole ltac:(lia) Hw) as H2.
  set (r1 := _percentage part1 whole) in *. set (r2 := _percentage part2 whole) in *.
  clearbody r1 r2.
  assert (Hw0 : 0 < whole) by lia. clear Hw.
  destruct (Z_le_gt_dec r1 r2) as [|Hgt]; [assumption|exfalso].
  assert (whole * 1 <= whole * (r1 - r2)) by (apply Z.mul_le_mono_nonneg_l; lia).
  lia.
Qed.
Lemma sender_counts_ordered (msgs : list Message) :
  msgs <> [] ->
  0 < snd (bottom_sender_entry msgs) <= snd (top_sender_entry msgs) /\
  snd (top_sender_entry msgs) <= Z.of_nat (length msgs).
Proof.
  intros Hne. unfold top_sender_entry, bottom_sender_entry, message_counts.
  rewrite fold_incr_map. fold (senders_of msgs).
  set (senders := senders_of msgs).
  destruct (count_into_spec senders) as (Hnd & Hin & Hget & _).
  pose proof (sorted_counts_ranked senders) as Hs.
  pose proof (sorted_desc_perm (count_into [] senders)) as Hperm.
  set (c := count_into [] senders) in *. set (S := sorted_desc c) in *.
  assert (Hentry : forall e, In e S -> 0 < snd e <= Z.of_nat (length msgs)).
  { intros [k v] He. apply (Permutation_in _ Hperm) in He. simpl.
    assert (Hk : In k senders).
    { apply Hin. change k with (fst (k, v)). now apply in_map. }
    assert (Hv : v = occurrences senders k).
    { rewrite <- Hget. symmetry. now apply get_in. }
    subst v. unfold occurrences.
    pose proof (proj1 (count_occ_In eq_dec senders k) Hk).
    pose proof (count_occ_bound eq_dec k senders) as Hb.
    unfold senders, senders_of in Hb. rewrite length_map in Hb.
    fold (senders_of msgs) in Hb. fold senders in Hb. lia. }
  assert (HS : S <> []).
  { destruct msgs as [|m msgs]; [congruence|].
    intros E. assert (Hm : In (sender m) (keys c)).
    { apply Hin. now left. }
    unfold keys in Hm. apply in_map_iff in Hm. destruct Hm as (e & _ & He).
    apply (Permutation_in _ (Permutation_sym Hperm)) in He.
    rewrite E in He. exact He. }
  destruct (exists_last HS) as (init & y & Ey).
  destruct S as [|x rest] eqn:ES; [congruence|]. simpl hd.
  assert (Hlast : last (x :: rest) ([], 0) = y).
  { rewrite Ey. apply last_last. }
  rewrite Hlast.
  assert (Hy : In y (x :: rest)).
  { rewrite Ey. apply in_or_app. right. now left. }
  destruct (Hentry x (or_introl eq_refl)) as [Hx1 Hx2].
  destruct (Hentry y Hy) as [Hy1 Hy2].
  split; [split; [exact Hy1|]|exact Hx2].
  destruct Hy as [<-|Hy]; [lia|].
  apply StronglySorted_inv in Hs. destruct Hs as [_ Hall].
  rewrite Forall_forall in Hall. specialize (Hall y Hy).
  unfold ranks_before in Hall. lia.
Qed.
(** X14. [_percentage] never decreases when [part] grows (for counts up to
    [2^40]), although it is computed in floating point.  So in the roast of
    a non-empty chat the first two lines name the top and the bottom sender
    with percentages [0 <= bottom <= top <= 100]. *)
Theorem reported_percentages_ordered (U : UnicodeDB) (msgs : list Message)
    (level : str) :
  msgs <> [] -> Z.of_nat (length msgs) <= 2 ^ 40 ->
  (forall part1 part2 whole,
     0 <= part1 <= part2 -> part2 <= whole -> 0 < whole <= 2 ^ 40 ->
     _percentage part1 whole <= _percentage part2 whole) /\
  (exists rest,
     roast_lines msgs level
     = talkative_line level (fst (top_sender_entry msgs)) (top_pct msgs)
       :: silent_line level (fst (bottom_sender_entry msgs)) (bottom_pct msgs)
       :: rest) /\
  0 <= bottom_pct msgs <= top_pct msgs /\ top_pct msgs <= 100.
Proof.
  intros Hne Hlen. split; [exact percentage_monotone_aux|]. split.
  - unfold roast_lines, top_pct, bottom_pct, top_sender_entry,
      bottom_sender_entry.
    destruct (hd ([], 0) (sorted_desc (message_counts msgs))) as [ts tc].
    destruct (last (sorted_desc (message_counts msgs)) ([], 0)) as [bs bc].
    cbn [fst snd]. eexists. cbn [app]. reflexivity.
  - destruct (sender_counts_ordered msgs Hne) as ((Hb & Hbt) & Ht).
    assert (Hw : 0 < Z.of_nat (length msgs) <= 2 ^ 40).
    { destruct msgs; [congruence|]. cbn [length] in *. lia. }
    unfold top_pct, bottom_pct.
    set (total := Z.of_nat (length msgs)) in *.
    set (t := snd (top_sender_entry msgs)) in *.
    set (b := snd (bottom_sender_entry msgs)) in *.
    pose proof (percentage_monotone_aux b t total ltac:(lia) Ht Hw) as Hm.
    pose proof (percentage_monotone_aux 0 b total ltac:(lia) ltac:(lia) Hw) as H0.
    pose proof (percentage_monotone_aux t total total ltac:(lia) ltac:(lia) Hw)
      as H100.
    pose proof (percentage_nearest 0 total ltac:(lia) Hw) as N0.
    pose proof (percentage_nearest total total ltac:(lia) Hw) as N1.
    set (r0 := _percentage 0 total) in *.
    set (r1 := _percentage total total) in *. clearbody r0 r1.
    assert (Hr0 : r0 = 0).
    { destruct (Z.lt_trichotomy r0 0) as [Hlt|[E|Hgt]]; [exfalso|exact E|exfalso].
      - assert (total * r0 <= total * (-1))
          by (apply Z.mul_le_mono_nonneg_l; lia). lia.
      - assert (total * 1 <= total * r0)
          by (apply Z.mul_le_mono_nonneg_l; lia). lia. }
    assert (Hr1 : r1 = 100).
    { replace (total * r1 - 100 * total) with (total * (r1 - 100)) in N1 by ring.
      destruct (Z.lt_trichotomy r1 100) as [Hlt|[E|Hgt]]; [exfalso|exact E|exfalso].
      - assert (total * (r1 - 100) <= total * (-1))
          by (apply Z.mul_le_mono_nonneg_l; lia). lia.
      - assert (total * 1 <= total * (r1 - 100))
          by (apply Z.mul_le_mono_nonneg_l; lia). lia. }
    lia.
Qed.

Lemma reported_percentages_ordered_witness :
  0 <= bottom_pct two_hours <= top_pct two_hours /\
  top_pct two_hours <= 100.
Proof.
  apply (reported_percentages_ordered ascii_only two_hours []).
  - discriminate.
  - vm_compute. discriminate.
Defined.

(* ----------------------------------------------------------------- *)
(** *** Where the text of a header line starts *)

Lemma rmatch_seq_tail {A} r1 r2 s g (k : str -> groups -> option A) x :
  rmatch (Seq r1 r2) s g k = Some x ->
  exists s1 s' g', s = s1 ++ s' /\ rmatch r2 s' g' k = Some x.
Proof.
  cbn [rmatch]. intros Hm. apply rmatch_sound in Hm.
  destruct Hm as (s1 & rest & g' & -> & _ & Hk). now exists s1, rest, g'.
Qed.

Lemma star_longest {A} p t r (k : str -> option A) x :
  forallb p t = true ->
  match r with [] => True | c :: _ => p c = false end ->
  k r = Some x -> star p (t ++ r) k = Some x.
Proof.
  intros Ht Hr Hk. induction t as [|c t IH]; simpl.
  - destruct r as [|c r]; [exact Hk|]. cbn [star]. now rewrite Hr.
  - simpl in Ht. apply andb_prop in Ht. destruct Ht as [-> Ht].
    now rewrite (IH Ht).
Qed.

Lemma lstrip_head p s :
  match lstrip p s with [] => True | c :: _ => p c = false end.
Proof.
  induction s as [|c s IH]; simpl; [exact I|].
  destruct (p c) eqn:E; [exact IH|exact E].
Qed.

(** The end of the pattern, from the text group on. *)
Lemma text_tail_sound g0 s x :
  rmatch (Seq re_text (Seq Eos Eps)) s g0 (fun s' g => Some (g, s')) = Some x ->
  exists t rest, s = t ++ rest /\ x = (("text"%string, t) :: g0, rest) /\
    forallb not_newline t = true /\ (rest = [] \/ rest = [10%N]).
Proof.
  unfold re_text. cbn [rmatch]. intros Hm. apply star_sound in Hm.
  destruct Hm as (t & rest & -> & Ht & Hk). exists t, rest.
  rewrite length_app, Nat.add_sub, firstn_app, Nat.sub_diag, firstn_all in Hk.
  cbn [firstn] in Hk. rewrite app_nil_r in Hk.
  destruct rest as [|c [|c' rest]].
  - inversion Hk; auto.
  - destruct c as [|p]; try discriminate.
    repeat (destruct p as [p|p|]; try discriminate). inversion Hk; auto.
  - destruct c as [|p]; try discriminate.
    repeat (destruct p as [p|p|]; try discriminate).
Qed.

Lemma text_tail_complete g0 t rest :
  forallb not_newline t = true -> rest = [] \/ rest = [10%N] ->
  rmatch (Seq re_text (Seq Eos Eps)) (t ++ rest) g0 (fun s' g => Some (g, s'))
  = Some (("text"%string, t) :: g0, rest).
Proof.
  intros Ht Hr. unfold re_text. cbn [rmatch].
  apply star_longest; [exact Ht|destruct Hr as [->| ->]; [exact I|reflexivity]|].
  rewrite length_app, Nat.add_sub, firstn_app, Nat.sub_diag, firstn_all.
  cbn [firstn]. rewrite app_nil_r. now destruct Hr as [->| ->].
Qed.

Lemma blanks_then_text g0 s x :
  star is_space s
    (fun s' => rmatch (Seq re_text (Seq Eos Eps)) s' g0 (fun s'' g => Some (g, s'')))
  = Some x ->
  rmatch (Seq re_text (Seq Eos Eps)) (lstrip is_space s) g0
    (fun s'' g => Some (g, s'')) = Some x.
Proof.
  induction s as [|c s IH]; cbn [star lstrip]; [auto|].
  destruct (is_space c) eqn:Ec; [|auto].
  match goal with |- context [star is_space s ?k] =>
    destruct (star is_space s k) as [y|] eqn:Es end.
  - intros Hx. inversion Hx; subst. now apply IH.
  - intros Hk. exfalso. apply text_tail_sound in Hk.
    destruct Hk as (t & rest & Hs & _ & Ht & Hr).
    assert (Hsome : exists t' , s = t' ++ rest /\ forallb not_newline t' = true).
    { destruct t as [|c' t'].
      - simpl in Hs. destruct Hr as [->| ->]; [discriminate|].
        inversion Hs; subst. now exists [].
      - inversion Hs; subst. simpl in Ht. apply andb_prop in Ht.
        exists t'. tauto. }
    destruct Hsome as (t' & -> & Ht').
    assert (Hne : star is_space (t' ++ rest)
      (fun s' => rmatch (Seq re_text (Seq Eos Eps)) s' g0
                   (fun s'' g => Some (g, s''))) <> None).
    { clear Es IH Hs.
      remember (t' ++ rest) as u eqn:Eu.
      assert (Hk : rmatch (Seq re_text (Seq Eos Eps)) u g0
                     (fun s'' g => Some (g, s'')) <> None).
      { subst u. rewrite (text_tail_complete g0 t' rest Ht' Hr). discriminate. }
      clear Eu. destruct u as [|d u]; cbn [star]; [exact Hk|].
      destruct (is_space d); [|exact Hk].
      match goal with |- context [star is_space u ?k] =>
        destruct (star is_space u k) end; [discriminate|exact Hk]. }
    contradiction.
Qed.

Lemma rmatch_seq_sound {A} r1 r2 s g (k : str -> groups -> option A) x :
  rmatch (Seq r1 r2) s g k = Some x ->
  exists s1 s' g', s = s1 ++ s' /\ Sem r1 s1 s' g g' /\
                   rmatch r2 s' g' k = Some x.
Proof. cbn [rmatch]. intros Hm. now apply rmatch_sound in Hm. Qed.

Lemma lstrip_split p s :
  exists w, s = w ++ lstrip p s /\ forallb p w = true.
Proof.
  induction s as [|c s (w & Hs & Hw)]; [now exists []|]. simpl.
  destruct (p c) eqn:E; [|now exists []].
  exists (c :: w). simpl. rewrite E, Hw. split; [now f_equal|reflexivity].
Qed.

Lemma lstrip_prefix_fixed p t rest s :
  lstrip p s = t ++ rest -> lstrip p t = t.
Proof.
  intros E. pose proof (lstrip_head p s) as Hh. rewrite E in Hh.
  destruct t as [|c t]; [reflexivity|]. simpl in *. now rewrite Hh.
Qed.

(** X15. In a line that matches the header pattern the text field is what
    follows the sender field, its colon and all the blanks after it: the
    text carries no leading blank and no line break, and runs to the end of
    the line (or to a final line break). *)
Theorem text_follows_sender_colon (U : UnicodeDB) (line : str) (g : groups) :
  header_match line = Some g ->
  exists pre sender_field blanks text_field rest,
    line = pre ++ sender_field ++ 58%N :: blanks ++ text_field ++ rest /\
    group "sender" g = Some sender_field /\
    group "text" g = Some text_field /\
    forallb is_space blanks = true /\
    lstrip is_space text_field = text_field /\
    forallb not_newline text_field = true /\
    (rest = [] \/ rest = [10%N]).
Proof.
  unfold header_match, re_match. intros Hm.
  destruct (rmatch _MESSAGE_RE line [] (fun s' g0 => Some (g0, s')))
    as [[g0 r]|] eqn:E; [|discriminate].
  inversion Hm; subst g0. clear Hm.
  unfold _MESSAGE_RE, seqs in E. cbn [fold_right] in E.
  do 9 (apply rmatch_seq_sound in E;
        let s1 := fresh "p" in let s' := fresh "s" in let g' := fresh "g" in
        destruct E as (s1 & s' & g' & -> & _ & E)).
  apply rmatch_seq_sound in E. destruct E as (sf & s9 & g9 & -> & Hsf & E).
  apply Sem_group_plain in Hsf; [|reflexivity]. destruct Hsf as [-> _].
  apply rmatch_seq_sound in E. destruct E as (col & s10 & g10 & -> & Hcol & E).
  apply Sem_lit_inv in Hcol. destruct Hcol as [-> ->].
  change (star is_space s10
            (fun s' => rmatch (Seq re_text (Seq Eos Eps)) s'
                         (("sender"%string, sf) :: g8)
                         (fun s'' g' => Some (g', s''))) = Some (g, r)) in E.
  apply blanks_then_text in E.
  destruct (lstrip_split is_space s10) as (w & Hs10 & Hw).
  apply text_tail_sound in E. destruct E as (t & rest & Et & Ex & Ht & Hr).
  inversion Ex; subst g r. clear Ex.
  exists (p ++ p0 ++ p1 ++ p2 ++ p3 ++ p4 ++ p5 ++ p6 ++ p7), sf, w, t, rest.
  split; [|split; [reflexivity|split; [reflexivity|split; [exact Hw|
    split; [exact (lstrip_prefix_fixed _ _ _ _ Et)|split; [exact Ht|exact Hr]]]]]].
  rewrite Hs10, Et at 1. rewrite <- !app_assoc. reflexivity.
Qed.

Lemma text_follows_sender_colon_witness :
  exists pre sender_field blanks text_field rest,
    padded_line = pre ++ sender_field ++ 58%N :: blanks ++ text_field ++ rest /\
    group "sender" padded_groups = Some sender_field /\
    group "text" padded_groups = Some text_field /\
    forallb is_space blanks = true /\
    lstrip is_space text_field = text_field /\
    forallb not_newline text_field = true /\
    (rest = [] \/ rest = [10%N]).
Proof.
  apply (text_follows_sender_colon ascii_only padded_line padded_groups).
  vm_compute. reflexivity.
Defined.

(* ----------------------------------------------------------------- *)
(** *** Lines that are accepted: writing a chat out and reading it back *)

(** How [accepts] is built up along a regular expression. *)
Lemma accepts_eps s g : accepts Eps s g s g.
Proof. intros A k x Hk. exact Hk. Qed.

Lemma accepts_chr (p : N -> bool) c s g :
  p c = true -> accepts (Chr p) (c :: s) g s g.
Proof. intros Hp A k x Hk. cbn [rmatch]. now rewrite Hp. Qed.

Lemma accepts_lit c s g : accepts (Lit c) (c :: s) g s g.
Proof. apply accepts_chr. apply N.eqb_refl. Qed.

Lemma accepts_seq r1 r2 s g s1 g1 s2 g2 :
  accepts r1 s g s1 g1 -> accepts r2 s1 g1 s2 g2 ->
  accepts (Seq r1 r2) s g s2 g2.
Proof.
  intros H1 H2 A k x Hk. cbn [rmatch]. apply H1. now apply H2.
Qed.

Lemma accepts_alt_l r1 r2 s g rest g1 :
  accepts r1 s g rest g1 -> accepts (Alt r1 r2) s g rest g1.
Proof. intros H1 A k x Hk. cbn [rmatch]. now rewrite (H1 A k x Hk). Qed.

Lemma accepts_alt_r r1 r2 s g rest g1 :
  rejects r1 s -> accepts r2 s g rest g1 -> accepts (Alt r1 r2) s g rest g1.
Proof. intros H1 H2 A k x Hk. cbn [rmatch]. rewrite H1. now apply H2. Qed.

Lemma rejects_chr (p : N -> bool) s :
  match s with [] => True | c :: _ => p c = false end -> rejects (Chr p) s.
Proof.
  intros Hs A g k. cbn [rmatch]. destruct s as [|c s]; [reflexivity|].
  now rewrite Hs.
Qed.

Lemma rejects_seq_l r1 r2 s : rejects r1 s -> rejects (Seq r1 r2) s.
Proof. intros H1 A g k. cbn [rmatch]. apply H1. Qed.

Lemma rejects_group name r s : rejects r s -> rejects (Group name r) s.
Proof. intros H1 A g k. cbn [rmatch]. apply H1. Qed.

Lemma rejects_alt r1 r2 s : rejects r1 s -> rejects r2 s -> rejects (Alt r1 r2) s.
Proof. intros H1 H2 A g k. cbn [rmatch]. rewrite H1. apply H2. Qed.

Lemma accepts_opt_skip r s g : rejects r s -> accepts (Opt r) s g s g.
Proof. intros Hr. apply accepts_alt_r; [exact Hr|apply accepts_eps]. Qed.

Lemma accepts_star (p : N -> bool) w rest g :
  forallb p w = true ->
  match rest with [] => True | c :: _ => p c = false end ->
  accepts (Star p) (w ++ rest) g rest g.
Proof.
  intros Hw Hr A k x Hk. cbn [rmatch]. now apply star_longest.
Qed.

Lemma accepts_group name r s1 rest g g1 :
  accepts r (s1 ++ rest) g rest g1 ->
  accepts (Group name r) (s1 ++ rest) g rest ((name, s1) :: g1).
Proof.
  intros Hr A k x Hk. cbn [rmatch]. apply Hr.
  rewrite length_app, Nat.add_sub, firstn_app, Nat.sub_diag, firstn_all.
  cbn [firstn]. now rewrite app_nil_r.
Qed.

Lemma accepts_eos g : accepts Eos [] g [] g.
Proof. intros A k x Hk. exact Hk. Qed.

Lemma accepts_re_match r s g1 rest :
  accepts r s [] rest g1 -> re_match r s = Some (g1, rest).
Proof. intros Hr. unfold re_match. now apply Hr. Qed.

(** The groups of [_MESSAGE_RE] on a line written out from its fields. *)
Lemma ascii_digit_not_space c :
  in_range 48 57 c = true -> is_space c = false.
Proof.
  intros Hc. apply in_range_bounds in Hc. unfold is_space, in_range.
  repeat match goal with
         | |- context [(?a <=? ?b)%N] =>
             destruct (N.leb_spec a b); try lia
         | |- context [(?a =? ?b)%N] =>
             destruct (N.eqb_spec a b); try lia
         end; reflexivity.
Qed.

Lemma one_or_two {A} (s : list A) :
  (length s = 1 \/ length s = 2)%nat ->
  (exists a, s = [a]) \/ (exists a b, s = [a; b]).
Proof.
  destruct s as [|a [|b [|c s]]]; simpl; intros [E|E]; try discriminate.
  - left. now exists a.
  - right. now exists a, b.
Qed.

Ltac digit_side := first [assumption | reflexivity].

Ltac piece := first
  [ apply accepts_lit
  | apply accepts_chr; solve [digit_side]
  | apply accepts_alt_l; apply accepts_chr; solve [digit_side]
  | apply accepts_opt_skip;
    first [apply rejects_chr | apply rejects_seq_l; apply rejects_chr];
    solve [digit_side] ].

Ltac chain := repeat (eapply accepts_seq; [piece|]); apply accepts_eps.

Lemma accepts_re_date `{UnicodeDB} mo dy yr rest g :
  ascii_digits mo = true -> (length mo = 1 \/ length mo = 2)%nat ->
  ascii_digits dy = true -> (length dy = 1 \/ length dy = 2)%nat ->
  ascii_digits yr = true -> length yr = 2%nat ->
  accepts re_date ((mo ++ 47%N :: dy ++ 47%N :: yr) ++ 44%N :: rest) g
    (44%N :: rest) (("date"%string, mo ++ 47%N :: dy ++ 47%N :: yr) :: g).
Proof.
  intros Hmo Lmo Hdy Ldy Hyr Lyr. unfold re_date.
  apply accepts_group. unfold seqs. cbn [fold_right].
  destruct yr as [|y1 [|y2 [|y3 yr]]]; try discriminate. clear Lyr.
  unfold ascii_digits in *. cbn [forallb] in Hyr.
  apply andb_prop in Hyr. destruct Hyr as [Hy1 Hyr].
  apply andb_prop in Hyr. destruct Hyr as [Hy2 _].
  apply ascii_digit_is_digit in Hy1, Hy2.
  destruct (one_or_two _ Lmo) as [(m1 & ->)|(m1 & m2 & ->)];
    destruct (one_or_two _ Ldy) as [(d1 & ->)|(d1 & d2 & ->)];
    cbn [forallb] in Hmo, Hdy;
    repeat match goal with
           | Hx : (_ && _)%bool = true |- _ =>
               apply andb_prop in Hx; destruct Hx as [? ?]
           | Hx : in_range 48 57 _ = true |- _ =>
               apply ascii_digit_is_digit in Hx
           end;
    cbn [app]; unfold digit; chain.
Qed.

Lemma accepts_re_time `{UnicodeDB} hh mi c rest g :
  ascii_digits hh = true -> (length hh = 1 \/ length hh = 2)%nat ->
  ascii_digits mi = true -> length mi = 2%nat ->
  accepts re_time ((hh ++ 58%N :: mi) ++ c :: rest) g
    (c :: rest) (("time"%string, hh ++ 58%N :: mi) :: g).
Proof.
  intros Hhh Lhh Hmi Lmi. unfold re_time.
  apply accepts_group. unfold seqs. cbn [fold_right].
  destruct mi as [|i1 [|i2 [|i3 mi]]]; try discriminate. clear Lmi.
  unfold ascii_digits in *. cbn [forallb] in Hmi.
  apply andb_prop in Hmi. destruct Hmi as [Hi1 Hmi].
  apply andb_prop in Hmi. destruct Hmi as [Hi2 _].
  apply ascii_digit_is_digit in Hi1, Hi2.
  destruct (one_or_two _ Lhh) as [(h1 & ->)|(h1 & h2 & ->)];
    cbn [forallb] in Hhh;
    repeat match goal with
           | Hx : (_ && _)%bool = true |- _ =>
               apply andb_prop in Hx; destruct Hx as [? ?]
           | Hx : in_range 48 57 _ = true |- _ =>
               apply ascii_digit_is_digit in Hx
           end;
    cbn [app]; unfold digit; chain.
Qed.

Lemma accepts_re_ampm ampm rest g :
  ampm = None \/ ampm = Some (cps "AM") \/ ampm = Some (cps "PM") ->
  accepts (Seq (Star is_space) (Seq re_ampm (Star is_space)))
    (marker_text ampm ++ 32%N :: 45%N :: rest) g (45%N :: rest)
    (marker_group ampm ++ g).
Proof.
  intros [-> | [-> | ->]]; cbn [marker_text marker_group app]; unfold re_ampm.
  - eapply accepts_seq; [apply (accepts_star is_space [32%N]); reflexivity|].
    eapply accepts_seq; [|apply (accepts_star is_space []); reflexivity].
    apply accepts_opt_skip, rejects_group, rejects_alt;
      apply rejects_seq_l, rejects_chr; reflexivity.
  - eapply accepts_seq;
      [apply (accepts_star is_space [32%N] (cps "AM" ++ 32%N :: 45%N :: rest));
       reflexivity|].
    eapply accepts_seq; [|apply (accepts_star is_space [32%N]); reflexivity].
    apply accepts_alt_l.
    apply (accepts_group "ampm" _ (cps "AM") (32%N :: 45%N :: rest)).
    apply accepts_alt_l.
    eapply accepts_seq; apply accepts_lit.
  - eapply accepts_seq;
      [apply (accepts_star is_space [32%N] (cps "PM" ++ 32%N :: 45%N :: rest));
       reflexivity|].
    eapply accepts_seq; [|apply (accepts_star is_space [32%N]); reflexivity].
    apply accepts_alt_l.
    apply (accepts_group "ampm" _ (cps "PM") (32%N :: 45%N :: rest)).
    apply accepts_alt_r; [apply rejects_seq_l, rejects_chr; reflexivity|].
    eapply accepts_seq; apply accepts_lit.
Qed.

Lemma lstrip_fixed_head p s :
  lstrip p s = s -> match s with [] => True | c :: _ => p c = false end.
Proof. intros E. rewrite <- E. apply lstrip_head. Qed.

Lemma accepts_sender_text sender_field text_field g :
  sender_field <> [] -> forallb not_colon sender_field = true ->
  lstrip is_space sender_field = sender_field ->
  forallb not_newline text_field = true ->
  lstrip is_space text_field = text_field ->
  accepts (seqs [Star is_space; re_sender; Lit 58; Star is_space; re_text; Eos])
    (32%N :: sender_field ++ 58%N :: 32%N :: text_field) g []
    (("text"%string, text_field) :: ("sender"%string, sender_field) :: g).
Proof.
  intros Hne Hcol Hs Hnl Ht. unfold seqs. cbn [fold_right].
  apply lstrip_fixed_head in Hs. apply lstrip_fixed_head in Ht.
  eapply accepts_seq.
  { apply (accepts_star is_space [32%N]); [reflexivity|].
    destruct sender_field as [|c s]; [congruence|exact Hs]. }
  eapply accepts_seq.
  { unfold re_sender. apply accepts_group. unfold Plus.
    destruct sender_field as [|c s]; [congruence|].
    cbn [forallb] in Hcol. apply andb_prop in Hcol. destruct Hcol as [Hc Hcol].
    eapply accepts_seq; [apply accepts_chr; exact Hc|].
    apply accepts_star; [exact Hcol|reflexivity]. }
  eapply accepts_seq; [apply accepts_lit|].
  eapply accepts_seq.
  { apply (accepts_star is_space [32%N]); [reflexivity|exact Ht]. }
  rewrite <- (app_nil_r text_field) at 1.
  eapply accepts_seq.
  { unfold re_text. apply accepts_group. apply accepts_star; [exact Hnl|exact I]. }
  eapply accepts_seq; [apply accepts_eos|apply accepts_eps].
Qed.

Lemma accepts_seq3 r1 r2 r3 r s g s1 g1 s2 g2 :
  accepts (Seq r1 (Seq r2 r3)) s g s1 g1 -> accepts r s1 g1 s2 g2 ->
  accepts (Seq r1 (Seq r2 (Seq r3 r))) s g s2 g2.
Proof.
  intros H1 H2 A k x Hk. cbn [rmatch].
  apply (H1 A (fun s' g' => rmatch r s' g' k)). now apply H2.
Qed.

Lemma header_match_written `{UnicodeDB} mo dy yr hh mi ampm sender_field
    text_field :
  ascii_digits mo = true -> (length mo = 1 \/ length mo = 2)%nat ->
  ascii_digits dy = true -> (length dy = 1 \/ length dy = 2)%nat ->
  ascii_digits yr = true -> length yr = 2%nat ->
  ascii_digits hh = true -> (length hh = 1 \/ length hh = 2)%nat ->
  ascii_digits mi = true -> length mi = 2%nat ->
  ampm = None \/ ampm = Some (cps "AM") \/ ampm = Some (cps "PM") ->
  sender_field <> [] -> forallb not_colon sender_field = true ->
  lstrip is_space sender_field = sender_field ->
  forallb not_newline text_field = true ->
  lstrip is_space text_field = text_field ->
  header_match (header_line (mo ++ 47%N :: dy ++ 47%N :: yr) (hh ++ 58%N :: mi)
                  ampm sender_field text_field)
  = Some (header_groups mo dy yr hh mi (marker_group ampm) sender_field
            text_field).
Proof.
  intros Hmo Lmo Hdy Ldy Hyr Lyr Hhh Lhh Hmi Lmi Hap Hne Hcol Hs Hnl Ht.
  unfold header_match.
  rewrite (accepts_re_match _MESSAGE_RE _
             (header_groups mo dy yr hh mi (marker_group ampm) sender_field
                text_field) []); [reflexivity|].
  unfold _MESSAGE_RE, seqs, header_line. cbn [fold_right].
  change (cps ", ") with [44%N; 32%N]. change (cps " - ") with [32%N; 45%N; 32%N].
  change (cps ": ") with [58%N; 32%N]. cbn [app].
  assert (Hh1 : exists h1 hh', hh = h1 :: hh' /\ is_space h1 = false).
  { destruct hh as [|h1 hh']; [destruct Lhh; discriminate|].
    exists h1, hh'. split; [reflexivity|]. unfold ascii_digits in Hhh.
    cbn [forallb] in Hhh. apply andb_prop in Hhh.
    now apply ascii_digit_not_space. }
  destruct Hh1 as (h1 & hh' & Ehh & Hh1).
  eapply accepts_seq; [now apply accepts_re_date|].
  eapply accepts_seq; [apply accepts_lit|].
  eapply accepts_seq.
  { apply (accepts_star is_space [32%N]); [reflexivity|].
    rewrite Ehh. exact Hh1. }
  assert (Hmk : exists c rest,
            marker_text ampm ++ 32%N :: 45%N :: 32%N :: sender_field
              ++ 58%N :: 32%N :: text_field = c :: rest).
  { destruct ampm; cbn [marker_text app]; eauto. }
  destruct Hmk as (c & rest & Hmk).
  eapply accepts_seq.
  { rewrite Hmk. now apply accepts_re_time. }
  rewrite <- Hmk.
  eapply accepts_seq3; [now apply accepts_re_ampm|].
  eapply accepts_seq; [apply accepts_lit|].
  apply (accepts_sender_text sender_field text_field); assumption.
Qed.

(** The directives of [strptime] on the spellings of their values, one
    case per value. *)
Lemma by_cases (P : Z -> Prop) (lo hi : Z) :
  Forall P (map (fun i => lo + i) (range (Z.to_nat (hi + 1 - lo)))) ->
  forall z, lo <= z <= hi -> P z.
Proof.
  intros Hall z Hz. rewrite Forall_forall in Hall. apply Hall.
  apply in_map_iff. exists (z - lo). split; [lia|].
  unfold range. apply in_map_iff. exists (Z.to_nat (z - lo)).
  split; [lia|]. apply in_seq. lia.
Qed.

Ltac spell :=
  repeat match goal with
         | |- context [str_of_Z ?z] =>
             let v := eval vm_compute in (str_of_Z z) in
             change (str_of_Z z) with v
         end.

Ltac acc_search := first
  [ apply accepts_eps
  | apply accepts_chr; reflexivity
  | eapply accepts_seq; [solve [acc_search] | solve [acc_search]]
  | apply accepts_alt_l; solve [acc_search]
  | apply accepts_alt_r; [intros ? ? ?; reflexivity | solve [acc_search]] ].

Ltac each_case tac :=
  match goal with
  | |- Forall ?P ?l =>
      let l' := eval vm_compute in l in change (Forall P l')
  end;
  repeat (apply Forall_cons; [cbv beta; tac|]); apply Forall_nil.

Ltac range_cases z lo hi Hz :=
  pattern z;
  match goal with |- ?P z => refine (by_cases P lo hi _ z Hz) end.

Lemma month_field `{UnicodeDB} m :
  1 <= m <= 12 ->
  py_int (str_of_Z m) = m /\
  ascii_digits (str_of_Z m) = true /\
  (length (str_of_Z m) = 1 \/ length (str_of_Z m) = 2)%nat /\
  forall rest g, accepts re_m (str_of_Z m ++ 47%N :: rest) g (47%N :: rest)
                   (("m"%string, str_of_Z m) :: g).
Proof.
  intros Hm. range_cases m 1 12 Hm.
  each_case ltac:(spell; split; [reflexivity|]; split; [reflexivity|];
                  split; [(now left) || (now right)|]; intros rest g;
                  apply accepts_group; unfold alts; cbn [fold_left app];
                  solve [acc_search]).
Qed.

Ltac pad :=
  repeat match goal with
         | |- context [zero_pad ?w ?s] =>
             let v := eval vm_compute in (zero_pad w s) in
             change (zero_pad w s) with v
         end.

Ltac field_case :=
  spell; pad; split; [reflexivity|]; split; [reflexivity|];
  split; [first [reflexivity | now left | now right]|]; intros rest g;
  apply accepts_group; unfold alts, seqs, digit; cbn [fold_left fold_right app];
  solve [acc_search].

Lemma day_field `{UnicodeDB} d :
  1 <= d <= 31 ->
  py_int (str_of_Z d) = d /\
  ascii_digits (str_of_Z d) = true /\
  (length (str_of_Z d) = 1 \/ length (str_of_Z d) = 2)%nat /\
  forall rest g, accepts re_d (str_of_Z d ++ 47%N :: rest) g (47%N :: rest)
                   (("d"%string, str_of_Z d) :: g).
Proof. intros Hd. range_cases d 1 31 Hd. each_case field_case. Qed.

Lemma hour24_field `{UnicodeDB} h :
  0 <= h <= 23 ->
  py_int (str_of_Z h) = h /\
  ascii_digits (str_of_Z h) = true /\
  (length (str_of_Z h) = 1 \/ length (str_of_Z h) = 2)%nat /\
  forall rest g, accepts re_H (str_of_Z h ++ 58%N :: rest) g (58%N :: rest)
                   (("H"%string, str_of_Z h) :: g).
Proof. intros Hh. range_cases h 0 23 Hh. each_case field_case. Qed.

Lemma hour12_field `{UnicodeDB} h :
  1 <= h <= 12 ->
  py_int (str_of_Z h) = h /\
  ascii_digits (str_of_Z h) = true /\
  (length (str_of_Z h) = 1 \/ length (str_of_Z h) = 2)%nat /\
  forall rest g, accepts re_I (str_of_Z h ++ 58%N :: rest) g (58%N :: rest)
                   (("I"%string, str_of_Z h) :: g).
Proof. intros Hh. range_cases h 1 12 Hh. each_case field_case. Qed.

Lemma minute_field `{UnicodeDB} m :
  0 <= m <= 59 ->
  py_int (zero_pad 2 (str_of_Z m)) = m /\
  ascii_digits (zero_pad 2 (str_of_Z m)) = true /\
  length (zero_pad 2 (str_of_Z m)) = 2%nat /\
  forall rest g, accepts re_M (zero_pad 2 (str_of_Z m) ++ rest) g rest
                   (("M"%string, zero_pad 2 (str_of_Z m)) :: g).
Proof. intros Hm. range_cases m 0 59 Hm. each_case field_case. Qed.

Lemma year_field `{UnicodeDB} y :
  0 <= y <= 99 ->
  py_int (cps "20" ++ zero_pad 2 (str_of_Z y)) = 2000 + y /\
  ascii_digits (zero_pad 2 (str_of_Z y)) = true /\
  length (zero_pad 2 (str_of_Z y)) = 2%nat /\
  forall rest g,
    accepts re_Y ((cps "20" ++ zero_pad 2 (str_of_Z y)) ++ rest) g rest
      (("Y"%string, cps "20" ++ zero_pad 2 (str_of_Z y)) :: g).
Proof. intros Hy. range_cases y 0 99 Hy. each_case field_case. Qed.

Lemma digits_then_not_space s rest :
  ascii_digits s = true -> (length s = 1 \/ length s = 2)%nat ->
  match s ++ rest with [] => True | c :: _ => is_space c = false end.
Proof.
  destruct s as [|c s]; [intros _ [E|E]; discriminate|].
  unfold ascii_digits. cbn [forallb app].
  intros Hs _. apply andb_prop in Hs. now apply ascii_digit_not_space.
Qed.

Lemma accepts_blanks rest g :
  match rest with [] => True | c :: _ => is_space c = false end ->
  accepts (Plus is_space) (32%N :: rest) g rest g.
Proof.
  intros Hr. unfold Plus.
  eapply accepts_seq; [apply accepts_chr; reflexivity|].
  now apply (accepts_star is_space []).
Qed.

Lemma strptime_written24 `{UnicodeDB} m d y h mn :
  1 <= m <= 12 -> 1 <= d <= 31 -> 0 <= y <= 99 -> 0 <= h <= 23 ->
  0 <= mn <= 59 ->
  strptime (str_of_Z m ++ cps "/" ++ str_of_Z d ++ cps "/"
            ++ (cps "20" ++ zero_pad 2 (str_of_Z y)) ++ cps ", "
            ++ (str_of_Z h ++ 58%N :: zero_pad 2 (str_of_Z mn))) Clock24
  = datetime_new (2000 + y) m d h mn.
Proof.
  intros Hm Hd Hy Hh Hmn.
  destruct (month_field m Hm) as (Vm & _ & _ & Am).
  destruct (day_field d Hd) as (Vd & _ & _ & Ad).
  destruct (year_field y Hy) as (Vy & _ & _ & Ay).
  destruct (hour24_field h Hh) as (Vh & Dh & Lh & Ah).
  destruct (minute_field mn Hmn) as (Vmn & _ & _ & Amn).
  unfold strptime.
  set (mo := str_of_Z m) in *. set (dy := str_of_Z d) in *.
  set (y4 := cps "20" ++ zero_pad 2 (str_of_Z y)) in *.
  set (hh := str_of_Z h) in *. set (mi := zero_pad 2 (str_of_Z mn)) in *.
  rewrite (accepts_re_match (format_regex Clock24) _
             [("M"%string, mi); ("H"%string, hh); ("Y"%string, y4);
              ("d"%string, dy); ("m"%string, mo)] []).
  - change (group_str "Y" _) with y4. change (group_str "m" _) with mo.
    change (group_str "d" _) with dy. change (group_str "H" _) with hh.
    change (group_str "M" _) with mi.
    now rewrite Vm, Vd, Vy, Vh, Vmn.
  - unfold format_regex, seqs. cbn [fold_right].
    change (cps "/") with [47%N]. change (cps ", ") with [44%N; 32%N].
    cbn [app].
    eapply accepts_seq; [apply Am|].
    eapply accepts_seq; [apply accepts_lit|].
    eapply accepts_seq; [apply Ad|].
    eapply accepts_seq; [apply accepts_lit|].
    eapply accepts_seq; [apply Ay|].
    eapply accepts_seq; [apply accepts_lit|].
    eapply accepts_seq.
    { apply accepts_blanks. now apply digits_then_not_space. }
    eapply accepts_seq; [apply Ah|].
    eapply accepts_seq; [apply accepts_lit|].
    rewrite <- (app_nil_r mi) at 1.
    eapply accepts_seq; [apply Amn|apply accepts_eps].
Qed.

Lemma hour_12_marker h :
  0 <= h <= 23 ->
  1 <= (if h mod 12 =? 0 then 12 else h mod 12) <= 12 /\
  hour_12 (if h mod 12 =? 0 then 12 else h mod 12)
    (map ascii_lower (if h <? 12 then cps "AM" else cps "PM")) = h.
Proof.
  intros Hh. range_cases h 0 23 Hh.
  each_case ltac:(split; [vm_compute; split; discriminate|reflexivity]).
Qed.

Lemma accepts_re_p (a : str) g :
  a = cps "AM" \/ a = cps "PM" ->
  accepts re_p a g [] (("p"%string, a) :: g).
Proof.
  intros [-> | ->]; unfold re_p.
  - apply (accepts_group "p" _ (cps "AM") []). acc_search.
  - apply (accepts_group "p" _ (cps "PM") []). acc_search.
Qed.

Lemma strptime_written12 `{UnicodeDB} m d y h mn (a : str) :
  1 <= m <= 12 -> 1 <= d <= 31 -> 0 <= y <= 99 -> 1 <= h <= 12 ->
  0 <= mn <= 59 -> a = cps "AM" \/ a = cps "PM" ->
  strptime (str_of_Z m ++ cps "/" ++ str_of_Z d ++ cps "/"
            ++ (cps "20" ++ zero_pad 2 (str_of_Z y)) ++ cps ", "
            ++ (str_of_Z h ++ 58%N :: zero_pad 2 (str_of_Z mn)) ++ cps " "
            ++ a) Clock12
  = datetime_new (2000 + y) m d (hour_12 h (map ascii_lower a)) mn.
Proof.
  intros Hm Hd Hy Hh Hmn Ha.
  destruct (month_field m Hm) as (Vm & _ & _ & Am).
  destruct (day_field d Hd) as (Vd & _ & _ & Ad).
  destruct (year_field y Hy) as (Vy & _ & _ & Ay).
  destruct (hour12_field h Hh) as (Vh & Dh & Lh & Ah).
  destruct (minute_field mn Hmn) as (Vmn & _ & _ & Amn).
  unfold strptime.
  set (mo := str_of_Z m) in *. set (dy := str_of_Z d) in *.
  set (y4 := cps "20" ++ zero_pad 2 (str_of_Z y)) in *.
  set (hh := str_of_Z h) in *. set (mi := zero_pad 2 (str_of_Z mn)) in *.
  rewrite (accepts_re_match (format_regex Clock12) _
             [("p"%string, a); ("M"%string, mi); ("I"%string, hh);
              ("Y"%string, y4); ("d"%string, dy); ("m"%string, mo)] []).
  - change (group_str "Y" _) with y4. change (group_str "m" _) with mo.
    change (group_str "d" _) with dy. change (group_str "I" _) with hh.
    change (group_str "M" _) with mi. change (group_str "p" _) with a.
    now rewrite Vm, Vd, Vy, Vh, Vmn.
  - unfold format_regex, seqs. cbn [fold_right].
    change (cps "/") with [47%N]. change (cps ", ") with [44%N; 32%N].
    change (cps " ") with [32%N]. rewrite <- !app_assoc. cbn [app].
    eapply accepts_seq; [apply Am|].
    eapply accepts_seq; [apply accepts_lit|].
    eapply accepts_seq; [apply Ad|].
    eapply accepts_seq; [apply accepts_lit|].
    eapply accepts_seq; [apply Ay|].
    eapply accepts_seq; [apply accepts_lit|].
    eapply accepts_seq.
    { apply accepts_blanks. now apply digits_then_not_space. }
    eapply accepts_seq; [apply Ah|].
    eapply accepts_seq; [apply accepts_lit|].
    eapply accepts_seq; [apply Amn|].
    eapply accepts_seq.
    { apply accepts_blanks. destruct Ha as [-> | ->]; reflexivity. }
    eapply accepts_seq; [now apply accepts_re_p|apply accepts_eps].
Qed.

Lemma ascii_digits_is_digit `{UnicodeDB} s :
  ascii_digits s = true -> forallb is_digit s = true.
Proof.
  unfold ascii_digits. rewrite !forallb_forall. intros Hs c Hc.
  apply ascii_digit_is_digit. now apply Hs.
Qed.

Lemma datetime_new_of_valid ts :
  valid_datetime ts ->
  datetime_new (year ts) (month ts) (day ts) (hour ts) (minute ts) = Ok ts.
Proof.
  destruct ts as [y m d h mn]. unfold valid_datetime, datetime_new.
  cbn [year month day hour minute].
  intros (Hy & Hm & Hd & Hh & Hmn).
  repeat match goal with
         | |- context [?a <=? ?b] =>
             destruct (Z.leb_spec a b); [|lia]
         end.
  reflexivity.
Qed.

Lemma days_in_month_le y m : days_in_month y m <= 31.
Proof.
  unfold days_in_month.
  destruct (m =? 2); [destruct (is_leap y); lia|].
  destruct ((m =? 4) || (m =? 6) || (m =? 9) || (m =? 11)); lia.
Qed.

Lemma parse_timestamp_written `{UnicodeDB} fmt ts :
  valid_datetime ts -> 2000 <= year ts <= 2099 ->
  _parse_timestamp (export_date ts) (export_time fmt ts) (export_marker fmt ts)
  = Ok ts.
Proof.
  intros Hv Hc. pose proof Hv as (Hy & Hm & Hd & Hh & Hmn).
  pose proof (days_in_month_le (year ts) (month ts)) as Hdm.
  assert (Hyy : year ts mod 100 = year ts - 2000).
  { symmetry. apply Z.mod_unique with (q := 20); lia. }
  assert (Hy2 : 0 <= year ts mod 100 <= 99) by lia.
  destruct (month_field (month ts) Hm) as (_ & Dm & _ & _).
  destruct (day_field (day ts) ltac:(lia)) as (_ & Dd & _ & _).
  destruct (year_field (year ts mod 100) Hy2) as (_ & Dy & Ly & _).
  unfold _parse_timestamp, export_date.
  rewrite split_date by now apply ascii_digits_is_digit.
  rewrite Ly. cbn [Nat.eqb].
  assert (Hnew : forall h, h = hour ts ->
            datetime_new (2000 + year ts mod 100) (month ts) (day ts) h
              (minute ts) = Ok ts).
  { intros h ->. replace (2000 + year ts mod 100) with (year ts) by lia.
    now apply datetime_new_of_valid. }
  destruct fmt; unfold export_marker, export_time, clock_hour.
  - destruct (hour_12_marker (hour ts) Hh) as (Hr & Hback).
    destruct (hour ts <? 12).
    + change (cps "AM") with [65%N; 77%N] in *. cbv iota beta.
      rewrite strptime_written12; try assumption; try lia; [|now left].
      now apply Hnew.
    + change (cps "PM") with [80%N; 77%N] in *. cbv iota beta.
      rewrite strptime_written12; try assumption; try lia; [|now right].
      now apply Hnew.
  - rewrite strptime_written24; try assumption; try lia. now apply Hnew.
Qed.

(** Reading back a line, and a file, written by [export_line]. *)
Lemma lstrip_length p s : (length (lstrip p s) <= length s)%nat.
Proof.
  induction s as [|c s IH]; simpl; [lia|]. destruct (p c); simpl; lia.
Qed.

Lemma lstrip_same_length p s :
  length (lstrip p s) = length s -> lstrip p s = s.
Proof.
  destruct s as [|c s]; simpl; [reflexivity|].
  destruct (p c); [|reflexivity].
  pose proof (lstrip_length p s). lia.
Qed.

Lemma strip_fixed_lstrip p s : strip p s = s -> lstrip p s = s.
Proof.
  intros E. apply lstrip_same_length.
  assert (Hr : (length (strip p s) <= length (lstrip p s))%nat).
  { unfold strip, rstrip. rewrite length_rev.
    etransitivity; [apply lstrip_length|]. now rewrite length_rev. }
  rewrite E in Hr. pose proof (lstrip_length p s). lia.
Qed.

Lemma strip_line_break s :
  s <> [] -> forallb not_newline s = true ->
  strip is_newline (s ++ [10%N]) = s.
Proof.
  intros Hne Hs.
  assert (Hs' : forallb (fun c => negb (is_newline c)) s = true) by exact Hs.
  unfold strip.
  assert (Hl : lstrip is_newline (s ++ [10%N]) = s ++ [10%N]).
  { destruct s as [|c s]; [congruence|]. cbn [app lstrip].
    cbn [forallb] in Hs'. apply andb_prop in Hs'. destruct Hs' as [Hc _].
    now destruct (is_newline c). }
  rewrite Hl. unfold rstrip. rewrite rev_app_distr. cbn [rev app lstrip].
  change (is_newline 10) with true. cbv iota.
  rewrite lstrip_none, rev_involutive; [reflexivity|].
  rewrite forallb_forall in *. intros x Hx. apply Hs'. now apply in_rev.
Qed.

Lemma ascii_digits_not_newline s :
  ascii_digits s = true -> forallb not_newline s = true.
Proof.
  unfold ascii_digits. rewrite !forallb_forall. intros Hs c Hc.
  specialize (Hs c Hc). apply in_range_bounds in Hs. unfold not_newline.
  destruct (N.eqb_spec c 10); [lia|reflexivity].
Qed.

Lemma clock_hour_field `{UnicodeDB} fmt h :
  0 <= h <= 23 ->
  ascii_digits (str_of_Z (clock_hour fmt h)) = true /\
  (length (str_of_Z (clock_hour fmt h)) = 1
   \/ length (str_of_Z (clock_hour fmt h)) = 2)%nat.
Proof.
  intros Hh. destruct fmt; unfold clock_hour.
  - destruct (hour_12_marker h Hh) as (Hr & _).
    destruct (hour12_field _ Hr) as (_ & D & L & _). now split.
  - destruct (hour24_field h Hh) as (_ & D & L & _). now split.
Qed.

Lemma export_marker_cases fmt ts :
  export_marker fmt ts = None \/ export_marker fmt ts = Some (cps "AM")
  \/ export_marker fmt ts = Some (cps "PM").
Proof.
  destruct fmt; cbn [export_marker]; [|now left].
  destruct (hour ts <? 12); auto.
Qed.

Lemma header_groups_fields mo dy yr hh mi ampm sender_field text_field :
  let G := header_groups mo dy yr hh mi (marker_group ampm) sender_field
             text_field in
  group_str "date" G = mo ++ 47%N :: dy ++ 47%N :: yr /\
  group_str "time" G = hh ++ 58%N :: mi /\
  group "ampm" G = ampm /\
  group_str "sender" G = sender_field /\ group_str "text" G = text_field.
Proof. destruct ampm; repeat split; reflexivity. Qed.

Lemma export_line_parses `{UnicodeDB} fmt msg :
  exportable msg ->
  export_line fmt msg <> [] /\
  forallb not_newline (export_line fmt msg) = true /\
  exists g,
    header_match (export_line fmt msg) = Some g /\
    _parse_timestamp (group_str "date" g) (group_str "time" g) (group "ampm" g)
    = Ok (timestamp msg) /\
    group_str "sender" g = sender msg /\ group_str "text" g = text msg.
Proof.
  intros (Hv & Hc & Hne & Hcol & Hsnl & Hstrip & Htnl & Htl).
  pose proof Hv as (Hy & Hm & Hd & Hh & Hmn).
  pose proof (days_in_month_le (year (timestamp msg)) (month (timestamp msg)))
    as Hdm.
  assert (Hy2 : 0 <= year (timestamp msg) mod 100 <= 99).
  { pose proof (Z.mod_pos_bound (year (timestamp msg)) 100 ltac:(lia)). lia. }
  destruct (month_field _ Hm) as (_ & Dm & Lm & _).
  destruct (day_field (day (timestamp msg)) ltac:(lia)) as (_ & Dd & Ld & _).
  destruct (year_field _ Hy2) as (_ & Dy & Ly & _).
  destruct (clock_hour_field fmt _ Hh) as (Dh & Lh).
  destruct (minute_field _ Hmn) as (_ & Dmn & Lmn & _).
  pose proof (export_marker_cases fmt (timestamp msg)) as Hmk.
  unfold export_line, export_date, export_time.
  set (mo := str_of_Z (month (timestamp msg))) in *.
  set (dy := str_of_Z (day (timestamp msg))) in *.
  set (yr := zero_pad 2 (str_of_Z (year (timestamp msg) mod 100))) in *.
  set (hh := str_of_Z (clock_hour fmt (hour (timestamp msg)))) in *.
  set (mi := zero_pad 2 (str_of_Z (minute (timestamp msg)))) in *.
  split; [|split].
  - unfold header_line. destruct mo; [destruct Lm; discriminate|discriminate].
  - unfold header_line.
    apply ascii_digits_not_newline in Dm, Dd, Dy, Dh, Dmn.
    rewrite !forallb_app. cbn [forallb]. rewrite !forallb_app. cbn [forallb].
    rewrite Dm, Dd, Dy, Dh, Dmn, Hsnl, Htnl.
    destruct Hmk as [-> | [-> | ->]]; reflexivity.
  - eexists. split.
    + apply header_match_written; try assumption.
      now apply strip_fixed_lstrip.
    + destruct (header_groups_fields mo dy yr hh mi
                  (export_marker fmt (timestamp msg)) (sender msg) (text msg))
        as (-> & -> & -> & -> & ->).
      split; [|split; reflexivity].
      now apply parse_timestamp_written.
Qed.

Lemma parse_loop_export `{UnicodeDB} fmt msgs :
  Forall exportable msgs ->
  forall acc cur,
    parse_loop (map (fun msg => export_line fmt msg ++ [10%N]) msgs) acc cur
    = Ok (acc ++ match cur with Some c => [c] | None => [] end ++ msgs).
Proof.
  induction 1 as [|msg msgs Hmsg _ IH]; intros acc cur.
  - cbn [map parse_loop]. destruct cur; now rewrite ?app_nil_r.
  - destruct (export_line_parses fmt msg Hmsg)
      as (Hne & Hnl & g & Hg & Hts & Hs & Ht).
    destruct Hmsg as (_ & _ & _ & _ & _ & Hstrip & _).
    cbn [map parse_loop]. cbv zeta.
    rewrite (strip_line_break _ Hne Hnl).
    destruct (export_line fmt msg) as [|c0 line] eqn:El; [congruence|].
    rewrite Hg, Hts, Hs, Ht, Hstrip. cbn [bind]. rewrite IH.
    destruct msg as [ts s t]. cbn [timestamp sender text].
    destruct cur; cbn [app]; now rewrite <- ?app_assoc.
Qed.

Lemma file_lines_aux_line l : forall cur rest,
  forallb not_newline l = true ->
  file_lines_aux cur (l ++ 10%N :: rest)
  = (rev cur ++ l ++ [10%N]) :: file_lines_aux [] rest.
Proof.
  induction l as [|c l IH]; intros cur rest Hl.
  - cbn [app file_lines_aux]. change (10 =? 10)%N with true. cbv iota.
    reflexivity.
  - cbn [forallb] in Hl. apply andb_prop in Hl. destruct Hl as [Hc Hl].
    cbn [app file_lines_aux]. unfold not_newline in Hc.
    destruct (c =? 10)%N; [discriminate|].
    rewrite IH by exact Hl. cbn [rev]. now rewrite <- app_assoc.
Qed.

Lemma file_lines_export `{UnicodeDB} fmt msgs :
  Forall exportable msgs ->
  file_lines (export_chat fmt msgs)
  = map (fun msg => export_line fmt msg ++ [10%N]) msgs.
Proof.
  unfold file_lines, export_chat.
  induction 1 as [|msg msgs Hmsg _ IH]; [reflexivity|].
  destruct (export_line_parses fmt msg Hmsg) as (_ & Hnl & _).
  cbn [flat_map map]. rewrite <- app_assoc. cbn [app].
  rewrite file_lines_aux_line by exact Hnl. now rewrite IH.
Qed.


